(** * Matchmaking, stake escrow and match settlement of the game server

    A shallow embedding of the socket handlers of [server.js], which keeps
    challenges and rooms in process memory (module [InMemory]: the
    PostgreSQL revision at the head of the file; the SQLite revision that
    follows it there has the same listeners written with callbacks), and of
    its stateless revision, which keeps them in Redis hashes (module
    [Redis]), together with the tables [users], [admin_wallet] and
    [transactions] that both update, and of the wallet routes (module
    [Http]).

    Conventions of the model.
    - Amounts (stakes, balances, fees) are integers of magnitude below 2^53.
      On such values the JavaScript operators [+], [-] and [*] are exact and
      are written in [Z]; so is [Math.floor(x / 2)], written [x / 2].  The
      one inexact operation of the settlement, [totalPot * 0.10], goes
      through the IEEE 754 binary64 product.
    - Ratings are JavaScript Numbers, that is binary64 values.
    - Amounts stay within the range of the INTEGER columns, so that the
      store accepts every statement whose parameters are amounts.  A rating
      is written to the column [elo INTEGER] by the settlement only: the
      store rejects the statement when the rating is not the text of an
      integer of that range (a NaN from a rating the client left out, an
      infinity, a value beyond 32 bits), and the [catch] of
      [handleGameOver] then skips what is left of its [try] block.
    - A listener written as a function on the state is the listener served
      to completion with nothing in between.  Where interleavings matter, a
      call of [handleGameOver] is a task that advances from one [await] to
      the next, and a listener that reads before an [await] what it uses
      after it is given in two parts: what it reads, and how it resumes.
    - A socket id, a room id and a mode are strings, an account id is an
      integer.  What a handler emits is appended to an outbox with its
      addressee; who has joined which socket.io room is not recorded. *)

From Stdlib Require Import ZArith Lia Bool QArith Qround.
From Stdlib Require Import Floats.SpecFloat.
From stdpp Require Import gmap strings list pretty.

(** * JavaScript Numbers *)

Module JS.
Local Open Scope Z_scope.

Definition prec : Z := 53.
Definition emax : Z := 1024.

Abbreviation Number := spec_float.

(** The Number denoted by an integer literal or holding an integer. *)
Definition of_Z (z : Z) : Number := binary_normalize prec emax z 0 false.

Definition add : Number -> Number -> Number := SFadd prec emax.
Definition sub : Number -> Number -> Number := SFsub prec emax.
Definition mul : Number -> Number -> Number := SFmul prec emax.
Definition div : Number -> Number -> Number := SFdiv prec emax.

(** The literal [0.10]: the binary64 value nearest to one tenth,
    7205759403792794 * 2^-56. *)
Definition lit_0_10 : Number := S754_finite false 7205759403792794 (-56).

(** [Math.floor] of a finite Number, as an integer.  NaN and the infinities,
    which have no integer value, do not arise from amounts. *)
Definition Math_floor (x : Number) : Z :=
  match x with
  | S754_finite s m e =>
      if 0 <=? e then cond_Zopp s (Zpos m) * 2 ^ e
      else cond_Zopp s (Zpos m) / 2 ^ (- e)
  | _ => 0
  end.

(** [Math.round]: the nearest integer, ties towards +Infinity; a zero result
    keeps the sign of the argument. *)
Definition Math_round (x : Number) : Number :=
  match x with
  | S754_finite s m e =>
      if 0 <=? e then x
      else
        let n := (cond_Zopp s (Zpos m) + 2 ^ (- e - 1)) / 2 ^ (- e) in
        if n =? 0 then S754_zero s else of_Z n
  | _ => x
  end.

Section Pow.
(** ECMAScript fixes [Math.pow] on a NaN or zero exponent and leaves the
    other results to the engine's approximation. *)
Variable pow_approx : Number -> Number -> Number.

Definition Math_pow (base exponent : Number) : Number :=
  match exponent with
  | S754_nan => S754_nan
  | S754_zero _ => of_Z 1
  | _ => pow_approx base exponent
  end.
End Pow.

End JS.

Import JS.

(** * Rating calculator *)

Section Rating.
Variable pow_approx : Number -> Number -> Number.

Definition updateElo (winnerElo loserElo : Number) : Number * Number :=
  let k := of_Z 32 in
  let expectedWin :=
    div (of_Z 1)
        (add (of_Z 1)
             (Math_pow pow_approx (of_Z 10) (div (sub loserElo winnerElo) (of_Z 400)))) in
  let expectedLoss :=
    div (of_Z 1)
        (add (of_Z 1)
             (Math_pow pow_approx (of_Z 10) (div (sub winnerElo loserElo) (of_Z 400)))) in
  (Math_round (add winnerElo (mul k (sub (of_Z 1) expectedWin))),
   Math_round (add loserElo (mul k (sub (of_Z 0) expectedLoss)))).

(** The update as the specification words it, through [expected]. *)
Definition expected (a b : Number) : Number :=
  div (of_Z 1) (add (of_Z 1) (Math_pow pow_approx (of_Z 10) (div (sub b a) (of_Z 400)))).

Definition K : Number := of_Z 32.

Definition logistic_elo (winnerRating loserRating : Number) : Number * Number :=
  (Math_round (add winnerRating (mul K (sub (of_Z 1) (expected winnerRating loserRating)))),
   Math_round (add loserRating (mul K (sub (of_Z 0) (expected loserRating winnerRating))))).
End Rating.

(** * The tables [users], [admin_wallet] and [transactions] *)

Local Open Scope Z_scope.

Inductive Column := real_balance | demo_balance.

Definition balCol (mode : string) : Column :=
  if decide (mode = "real") then real_balance else demo_balance.

Record UserRow := mkUserRow {
  row_real_balance : Z;
  row_demo_balance : Z;
  row_elo : Number
}.

Record Transaction := mkTransaction {
  tx_user_id : Z;
  tx_type : string;
  tx_amount : Z;
  tx_status : string
}.

Record DB := mkDB {
  users : gmap Z UserRow;
  admin_wallet : Z;
  transactions : list Transaction
}.

Definition get_balance (c : Column) (u : UserRow) : Z :=
  match c with
  | real_balance => row_real_balance u
  | demo_balance => row_demo_balance u
  end.

Definition add_balance (c : Column) (amount : Z) (u : UserRow) : UserRow :=
  match c with
  | real_balance => mkUserRow (row_real_balance u + amount) (row_demo_balance u) (row_elo u)
  | demo_balance => mkUserRow (row_real_balance u) (row_demo_balance u + amount) (row_elo u)
  end.

Definition set_elo (e : Number) (u : UserRow) : UserRow :=
  mkUserRow (row_real_balance u) (row_demo_balance u) e.

(** [SELECT c AS bal FROM users WHERE id = $1]: [None] when [rowCount] is 0. *)
Definition select_bal (c : Column) (id : Z) (d : DB) : option Z :=
  get_balance c <$> users d !! id.

Inductive Query :=
  (** [UPDATE users SET c = c - $1 WHERE id = $2] *)
  | DebitBalance (c : Column) (amount : Z) (id : Z)
  (** [UPDATE users SET c = c + $1 WHERE id = $2] *)
  | CreditBalance (c : Column) (amount : Z) (id : Z)
  (** [UPDATE users SET c = c + $1 WHERE id IN ($2, $3)] *)
  | CreditBalanceIn (c : Column) (amount : Z) (id1 id2 : Z)
  (** [UPDATE users SET c = c + $1, elo = $2 WHERE id = $3] *)
  | CreditBalanceElo (c : Column) (amount : Z) (e : Number) (id : Z)
  (** [UPDATE users SET elo = $1 WHERE id = $2] *)
  | UpdateElo (e : Number) (id : Z)
  (** [UPDATE admin_wallet SET balance = balance + $1 WHERE id = 1] *)
  | CreditAdminWallet (amount : Z)
  (** [INSERT INTO transactions (user_id, type, amount, status) VALUES ...] *)
  | InsertTransaction (user_id : Z) (type : string) (amount : Z) (status : string).

Definition update_users (f : gmap Z UserRow -> gmap Z UserRow) (d : DB) : DB :=
  mkDB (f (users d)) (admin_wallet d) (transactions d).

(** What a statement that the store accepts does to the tables; which
    statements it accepts is [accepted] below. *)
Definition exec_query (q : Query) (d : DB) : DB :=
  match q with
  | DebitBalance c amount id => update_users (alter (add_balance c (- amount)) id) d
  | CreditBalance c amount id => update_users (alter (add_balance c amount) id) d
  | CreditBalanceIn c amount id1 id2 =>
      update_users
        (fun us => if decide (id1 = id2) then alter (add_balance c amount) id1 us
                   else alter (add_balance c amount) id2 (alter (add_balance c amount) id1 us)) d
  | CreditBalanceElo c amount e id =>
      update_users (alter (fun u => set_elo e (add_balance c amount u)) id) d
  | UpdateElo e id => update_users (alter (set_elo e) id) d
  | CreditAdminWallet amount => mkDB (users d) (admin_wallet d + amount) (transactions d)
  | InsertTransaction uid ty amount st =>
      mkDB (users d) (admin_wallet d) (transactions d ++ [mkTransaction uid ty amount st])
  end.

(** ** What the store accepts

    A rating reaches the store as the decimal text of the Number.  The
    column [elo INTEGER] takes the text of an integer from -2^31 to 2^31 - 1
    and rejects everything else, so also ["NaN"] and ["Infinity"]. *)

(** The integer a Number is, if it is one. *)
Definition integer_value (x : Number) : option Z :=
  match x with
  | S754_zero _ => Some 0
  | S754_finite s m e =>
      if 0 <=? e then Some (cond_Zopp s (Zpos m) * 2 ^ e)
      else if Zpos m mod 2 ^ (- e) =? 0 then Some (cond_Zopp s (Zpos m) / 2 ^ (- e))
      else None
  | _ => None
  end.

Definition storable (x : Number) : bool :=
  match integer_value x with
  | Some z => (- 2 ^ 31 <=? z) && (z <? 2 ^ 31)
  | None => false
  end.

(** Whether the store accepts a statement: those that write a rating are
    rejected when the rating is not storable. *)
Definition accepted (q : Query) : bool :=
  match q with
  | CreditBalanceElo _ _ e _ => storable e
  | UpdateElo e _ => storable e
  | _ => true
  end.

(** * Challenges, rooms and events *)

Module Challenge.
Record t := mk {
  roomId : string;
  hostId : string;
  userId : Z;
  hostName : string;
  stake : Z;
  mode : string;
  isPrivate : bool;
  elo : Number
}.
End Challenge.

Module Player.
Record t := mk { id : string; userId : Z; elo : Number }.
End Player.

Module Room.
Record t := mk {
  p1 : Player.t;
  p2 : Player.t;
  stake : Z;
  mode : string;
  processed : bool
}.
Definition set_processed (r : t) : t := mk (p1 r) (p2 r) (stake r) (mode r) true.
End Room.

Inductive Event :=
  | lobby_update (challenges : list Challenge.t)
  | game_created (roomId : string) (isPrivate : bool)
  | error (message : string)
  | game_start (roomId red white redName whiteName : string) (stake : Z)
  | opponent_move (data : string)
  | draw_offered
  | match_result_draw (refund : Z)
  | match_result (winnerId : Z) (payout : Z) (reason : string)
  | challenge_cancelled.

Inductive Target :=
  | to_socket (id : string)
  | to_all
  | to_room (roomId : string)
  | to_room_but (roomId sender : string).

Definition publicChallenges (cs : list Challenge.t) : list Challenge.t :=
  filter (fun c => Challenge.isPrivate c = false) cs.

(** The room identifier of a new challenge: [rnd] stands for
    [Math.random().toString(36).substr(2, 5).toUpperCase()] and [now] for
    [Date.now()]. *)
Definition newRoomId (isPrivate : bool) (rnd : string) (now : N) : string :=
  if isPrivate then rnd else "pub_" +:+ pretty now.

(** * Settlement *)

Inductive Effect :=
  | Q (q : Query)
  | Emit (t : Target) (e : Event).

(** What runs of the body of a [try] block whose [catch] only logs: every
    effect up to the first statement that the store rejects. *)
Fixpoint performed (es : list Effect) : list Effect :=
  match es with
  | [] => []
  | Q q :: es' => if accepted q then Q q :: performed es' else []
  | Emit t ev :: es' => Emit t ev :: performed es'
  end.

Definition platformFee (totalPot : Z) : Z :=
  Math_floor (mul (of_Z totalPot) lit_0_10).

Section Settlement.
Variable pow_approx : Number -> Number -> Number.

(** The body of [handleGameOver] once the room is marked processed: the
    queries and the [match_result] event, in program order. *)
Definition settlement (roomId : string) (room : Room.t)
    (winnerSocketId : option string) (reason : string) : list Effect :=
  let isDraw := bool_decide (reason = "draw") in
  let balCol := balCol (Room.mode room) in
  let totalPot := Room.stake room * 2 in
  if isDraw then
    let platformFee := platformFee totalPot in
    let refund := (totalPot - platformFee) / 2 in
    [Q (CreditBalanceIn balCol refund
          (Player.userId (Room.p1 room)) (Player.userId (Room.p2 room)))]
    ++ (if decide (Room.mode room = "real")
        then [Q (CreditAdminWallet platformFee)] else [])
    ++ [Emit (to_room roomId) (match_result_draw refund)]
  else
    let winner :=
      if decide (winnerSocketId = Some (Player.id (Room.p1 room)))
      then Room.p1 room else Room.p2 room in
    let loser :=
      if decide (winnerSocketId = Some (Player.id (Room.p1 room)))
      then Room.p2 room else Room.p1 room in
    let platformFee := platformFee totalPot in
    let winnerTake := totalPot - platformFee in
    let newElos := updateElo pow_approx (Player.elo winner) (Player.elo loser) in
    [Q (CreditBalanceElo balCol winnerTake (fst newElos) (Player.userId winner));
     Q (UpdateElo (snd newElos) (Player.userId loser))]
    ++ (if decide (Room.mode room = "real")
        then [Q (CreditAdminWallet platformFee);
              Q (InsertTransaction (Player.userId winner) "PRIZE_PAYOUT" winnerTake "SUCCESS")]
        else [])
    ++ [Emit (to_room roomId)
          (match_result (Player.userId winner) winnerTake reason)].
End Settlement.

(** A socket remembers the room and account of its last create or join
    ([socket.roomId], [socket.userId]); no entry means both are undefined. *)
Abbreviation Sockets := (gmap string (string * Z)).

(** JavaScript truthiness of a room identifier. *)
Definition truthy (s : string) : bool := negb (bool_decide (s = "")).

(** * [server.js]: challenges and rooms in process memory *)

Module InMemory.

Record State := mkState {
  openChallenges : list Challenge.t;
  activeRooms : gmap string Room.t;
  sockets : Sockets;
  db : DB;
  outbox : list (Target * Event)
}.

Definition set_openChallenges (cs : list Challenge.t) (s : State) : State :=
  mkState cs (activeRooms s) (sockets s) (db s) (outbox s).
Definition set_activeRooms (rs : gmap string Room.t) (s : State) : State :=
  mkState (openChallenges s) rs (sockets s) (db s) (outbox s).
Definition set_socket (socket roomId : string) (userId : Z) (s : State) : State :=
  mkState (openChallenges s) (activeRooms s)
          (<[socket := (roomId, userId)]> (sockets s)) (db s) (outbox s).
Definition query (q : Query) (s : State) : State :=
  mkState (openChallenges s) (activeRooms s) (sockets s) (exec_query q (db s)) (outbox s).
Definition emit (t : Target) (e : Event) (s : State) : State :=
  mkState (openChallenges s) (activeRooms s) (sockets s) (db s) (outbox s ++ [(t, e)]).

Definition socket_roomId (socket : string) (s : State) : option string :=
  fst <$> sockets s !! socket.

Definition run_effect (e : Effect) (s : State) : State :=
  match e with
  | Q q => query q s
  | Emit t ev => emit t ev s
  end.

Definition run_effects (es : list Effect) (s : State) : State :=
  foldl (fun s e => run_effect e s) s es.

Section Handlers.
Variable pow_approx : Number -> Number -> Number.

(** The listeners, each served to its end with nothing in between. *)

Definition create_challenge (now : N) (rnd : string) (socket : string)
    (userId : Z) (username : string) (stake : Z) (mode : string)
    (isPrivate : bool) (elo : Number) (s : State) : State :=
  let balCol := balCol mode in
  match select_bal balCol userId (db s) with
  | None => emit (to_socket socket) (error "Salio Halitoshi!") s
  | Some bal =>
      if bal <? stake then emit (to_socket socket) (error "Salio Halitoshi!") s
      else
        let roomId := newRoomId isPrivate rnd now in
        let s := query (DebitBalance balCol stake userId) s in
        let s := set_socket socket roomId userId s in
        let challenge :=
          Challenge.mk roomId socket userId username stake mode isPrivate elo in
        let s := set_openChallenges (openChallenges s ++ [challenge]) s in
        let s := emit (to_socket socket) (game_created roomId isPrivate) s in
        let s := if isPrivate then s
                 else emit to_all (lobby_update (publicChallenges (openChallenges s))) s in
        if decide (mode = "real")
        then query (InsertTransaction userId "ENTRY_FEE" stake "PENDING") s
        else s
  end.

(** [join_challenge]; across its [await]s it is [join_found] and
    [join_resume] below. *)
Definition join_challenge (socket : string) (userId : Z) (username : string)
    (roomId : string) (elo : Number) (s : State) : State :=
  match list_find (fun c => Challenge.roomId c = roomId) (openChallenges s) with
  | None => emit (to_socket socket) (error "Mechi haipatikani.") s
  | Some (challengeIndex, challenge) =>
      if decide (Challenge.userId challenge = userId)
      then emit (to_socket socket) (error "Huwezi kucheza dhidi yako!") s
      else
        let balCol := balCol (Challenge.mode challenge) in
        match select_bal balCol userId (db s) with
        | None => emit (to_socket socket) (error "Salio Halitoshi!") s
        | Some bal =>
            if bal <? Challenge.stake challenge
            then emit (to_socket socket) (error "Salio Halitoshi!") s
            else
              let s := set_openChallenges (delete challengeIndex (openChallenges s)) s in
              let s := emit to_all (lobby_update (publicChallenges (openChallenges s))) s in
              let s := query (DebitBalance balCol (Challenge.stake challenge) userId) s in
              let s := set_socket socket roomId userId s in
              let room :=
                Room.mk
                  (Player.mk (Challenge.hostId challenge) (Challenge.userId challenge)
                             (Challenge.elo challenge))
                  (Player.mk socket userId elo)
                  (Challenge.stake challenge) (Challenge.mode challenge) false in
              let s := set_activeRooms (<[roomId := room]> (activeRooms s)) s in
              let s := if decide (Challenge.mode challenge = "real")
                       then query (InsertTransaction userId "ENTRY_FEE"
                                     (Challenge.stake challenge) "PENDING") s
                       else s in
              emit (to_room roomId)
                   (game_start roomId (Challenge.hostId challenge) socket
                               (Challenge.hostName challenge) username
                               (Challenge.stake challenge)) s
        end
  end.

Definition cancel_challenge (socket : string) (s : State) : State :=
  match list_find (fun c => Challenge.hostId c = socket) (openChallenges s) with
  | None => s
  | Some (idx, c) =>
      let balCol := balCol (Challenge.mode c) in
      let s := set_openChallenges (delete idx (openChallenges s)) s in
      let s := emit to_all (lobby_update (publicChallenges (openChallenges s))) s in
      let s := query (CreditBalance balCol (Challenge.stake c) (Challenge.userId c)) s in
      emit (to_socket socket) challenge_cancelled s
  end.

Definition make_move (socket data : string) (s : State) : State :=
  match socket_roomId socket s with
  | Some roomId =>
      if truthy roomId then emit (to_room_but roomId socket) (opponent_move data) s else s
  | None => s
  end.

(** [handleGameOver], every query awaited to completion with nothing in
    between; the room is deleted after the [try] block, whether it ran to
    its end or not. *)
Definition handleGameOver (roomId : string) (winnerSocketId : option string)
    (reason : string) (s : State) : State :=
  match activeRooms s !! roomId with
  | None => s
  | Some room =>
      if Room.processed room then s
      else
        let s := set_activeRooms (<[roomId := Room.set_processed room]> (activeRooms s)) s in
        let s :=
          run_effects (performed (settlement pow_approx roomId room winnerSocketId reason))
                      s in
        set_activeRooms (delete roomId (activeRooms s)) s
  end.

Definition game_over (socket winner : string) (s : State) : State :=
  match socket_roomId socket s with
  | Some roomId =>
      handleGameOver roomId (if decide (winner = "me") then Some socket else None)
                     "regular" s
  | None => s
  end.

(** The id of the other participant, as [timeout_loss] and [disconnect]
    compute it. *)
Definition opponentId (room : Room.t) (socket : string) : string :=
  if decide (Player.id (Room.p1 room) = socket)
  then Player.id (Room.p2 room) else Player.id (Room.p1 room).

(** [timeout_loss]; [None] is the TypeError of reading [p1] of a room that
    is not there. *)
Definition timeout_loss (socket : string) (s : State) : option State :=
  match socket_roomId socket s ≫= (fun roomId => (roomId,.) <$> activeRooms s !! roomId) with
  | Some (roomId, room) =>
      Some (handleGameOver roomId (Some (opponentId room socket)) "timeout" s)
  | None => None
  end.

Definition accept_draw (socket : string) (s : State) : State :=
  match socket_roomId socket s with
  | Some roomId => handleGameOver roomId None "draw" s
  | None => s
  end.

(** [disconnect]; across the [await] of its refund it is [disconnect_resume]
    below. *)
Definition disconnect (socket : string) (s : State) : State :=
  let s :=
    match list_find (fun c => Challenge.hostId c = socket) (openChallenges s) with
    | None => s
    | Some (idx, c) =>
        let balCol := balCol (Challenge.mode c) in
        let s := query (CreditBalance balCol (Challenge.stake c) (Challenge.userId c)) s in
        let s := set_openChallenges (delete idx (openChallenges s)) s in
        emit to_all (lobby_update (publicChallenges (openChallenges s))) s
    end in
  match socket_roomId socket s with
  | Some roomId =>
      if truthy roomId then
        match activeRooms s !! roomId with
        | Some room =>
            if Room.processed room then s
            else handleGameOver roomId (Some (opponentId room socket)) "abandon" s
        | None => s
        end
      else s
  | None => s
  end.

(** ** Listeners across an [await]

    [join_challenge] and [disconnect] look a challenge up, await a query and
    then splice the list at the index they found before the [await]; other
    listeners run in between.  Each is given by what it has found when it
    reaches the [await] and by how it resumes with it. *)

(** [join_challenge] at its first [await]: the index and the challenge that
    [findIndex] gave, when both tests on them are passed. *)
Definition join_found (userId : Z) (roomId : string) (s : State)
    : option (nat * Challenge.t) :=
  match list_find (fun c => Challenge.roomId c = roomId) (openChallenges s) with
  | None => None
  | Some (challengeIndex, challenge) =>
      if decide (Challenge.userId challenge = userId) then None
      else Some (challengeIndex, challenge)
  end.

(** [join_challenge] from the reply of its SELECT on, served to its end:
    [reply] is the balance that the reply held, [None] for no row. *)
Definition join_resume (socket : string) (userId : Z) (username roomId : string)
    (elo : Number) (challengeIndex : nat) (challenge : Challenge.t)
    (reply : option Z) (s : State) : State :=
  let balCol := balCol (Challenge.mode challenge) in
  match reply with
  | None => emit (to_socket socket) (error "Salio Halitoshi!") s
  | Some bal =>
      if bal <? Challenge.stake challenge
      then emit (to_socket socket) (error "Salio Halitoshi!") s
      else
        let s := set_openChallenges (delete challengeIndex (openChallenges s)) s in
        let s := emit to_all (lobby_update (publicChallenges (openChallenges s))) s in
        let s := query (DebitBalance balCol (Challenge.stake challenge) userId) s in
        let s := set_socket socket roomId userId s in
        let room :=
          Room.mk
            (Player.mk (Challenge.hostId challenge) (Challenge.userId challenge)
                       (Challenge.elo challenge))
            (Player.mk socket userId elo)
            (Challenge.stake challenge) (Challenge.mode challenge) false in
        let s := set_activeRooms (<[roomId := room]> (activeRooms s)) s in
        let s := if decide (Challenge.mode challenge = "real")
                 then query (InsertTransaction userId "ENTRY_FEE"
                               (Challenge.stake challenge) "PENDING") s
                 else s in
        emit (to_room roomId)
             (game_start roomId (Challenge.hostId challenge) socket
                         (Challenge.hostName challenge) username
                         (Challenge.stake challenge)) s
  end.

(** The second half of [disconnect]: the room of the socket, if it is still
    open, is settled against the socket. *)
Definition disconnect_room (socket : string) (s : State) : State :=
  match socket_roomId socket s with
  | Some roomId =>
      if truthy roomId then
        match activeRooms s !! roomId with
        | Some room =>
            if Room.processed room then s
            else handleGameOver roomId (Some (opponentId room socket)) "abandon" s
        | None => s
        end
      else s
  | None => s
  end.

(** [disconnect] from the reply of its refund on: [idx] and [c] are the index
    and the challenge that [findIndex] gave before the [await]. *)
Definition disconnect_resume (socket : string) (idx : nat) (c : Challenge.t)
    (s : State) : State :=
  let balCol := balCol (Challenge.mode c) in
  let s := query (CreditBalance balCol (Challenge.stake c) (Challenge.userId c)) s in
  let s := set_openChallenges (delete idx (openChallenges s)) s in
  let s := emit to_all (lobby_update (publicChallenges (openChallenges s))) s in
  disconnect_room socket s.

(** ** Settlement one [await] at a time

    A call of [handleGameOver] runs to its first [await] when the event is
    dispatched and resumes after each query; other handlers run in
    between. *)

Inductive Task :=
  | Called (roomId : string) (winnerSocketId : option string) (reason : string)
  | Awaiting (roomId : string) (todo : list Effect)
  | Returned.

Definition step_task (t : Task) (s : State) : Task * State :=
  match t with
  | Called roomId winnerSocketId reason =>
      match activeRooms s !! roomId with
      | None => (Returned, s)
      | Some room =>
          if Room.processed room then (Returned, s)
          else (Awaiting roomId (settlement pow_approx roomId room winnerSocketId reason),
                set_activeRooms (<[roomId := Room.set_processed room]> (activeRooms s)) s)
      end
  | Awaiting roomId (Q q :: todo) =>
      if accepted q then (Awaiting roomId todo, query q s)
      else (Awaiting roomId [], s)
  | Awaiting roomId (Emit t ev :: todo) => (Awaiting roomId todo, emit t ev s)
  | Awaiting roomId [] => (Returned, set_activeRooms (delete roomId (activeRooms s)) s)
  | Returned => (Returned, s)
  end.

(** The scheduler resumes the task at index [i]. *)
Definition resume (i : nat) (c : list Task * State) : list Task * State :=
  match c.1 !! i with
  | Some t => let '(t', s') := step_task t c.2 in (<[i := t']> c.1, s')
  | None => c
  end.

Definition run (schedule : list nat) (c : list Task * State) : list Task * State :=
  foldl (fun c i => resume i c) c schedule.
(** ** The other listeners and the dispatch of an event to its listener *)

(** A new connection is sent the public challenges. *)
Definition connection (socket : string) (s : State) : State :=
  emit (to_socket socket) (lobby_update (publicChallenges (openChallenges s))) s.

(** [offer_draw] relays to the rest of the socket's room; with no room on the
    socket the broadcast reaches nobody. *)
Definition offer_draw (socket : string) (s : State) : State :=
  match socket_roomId socket s with
  | Some roomId => emit (to_room_but roomId socket) draw_offered s
  | None => s
  end.

(** What a client sends on its socket.  [now] and [rnd] are the clock and
    the random token read while a [create_challenge] is served. *)
Inductive Message :=
  | msg_connection
  | msg_create_challenge (now : N) (rnd : string) (userId : Z) (username : string)
      (stake : Z) (mode : string) (isPrivate : bool) (elo : Number)
  | msg_join_challenge (userId : Z) (username roomId : string) (elo : Number)
  | msg_cancel_challenge
  | msg_make_move (data : string)
  | msg_game_over (winner : string)
  | msg_timeout_loss
  | msg_offer_draw
  | msg_accept_draw
  | msg_disconnect.

(** One event served to completion; [None] when the listener throws. *)
Definition on (socket : string) (m : Message) (s : State) : option State :=
  match m with
  | msg_connection => Some (connection socket s)
  | msg_create_challenge now rnd userId username stake mode isPrivate elo =>
      Some (create_challenge now rnd socket userId username stake mode isPrivate elo s)
  | msg_join_challenge userId username roomId elo =>
      Some (join_challenge socket userId username roomId elo s)
  | msg_cancel_challenge => Some (cancel_challenge socket s)
  | msg_make_move data => Some (make_move socket data s)
  | msg_game_over winner => Some (game_over socket winner s)
  | msg_timeout_loss => timeout_loss socket s
  | msg_offer_draw => Some (offer_draw socket s)
  | msg_accept_draw => Some (accept_draw socket s)
  | msg_disconnect => Some (disconnect socket s)
  end.

(** Events served one after the other, each by the socket it arrived on. *)
Fixpoint serve (ms : list (string * Message)) (s : State) : option State :=
  match ms with
  | [] => Some s
  | (socket, m) :: ms' =>
      match on socket m s with
      | Some s' => serve ms' s'
      | None => None
      end
  end.
End Handlers.

End InMemory.

(** * The stateless revision: challenges and rooms in Redis hashes *)

Module Redis.

(** A hash keeps its fields in insertion order; the stored JSON text of a
    challenge or room is represented by the record it parses to. *)
Abbreviation Hash V := (list (string * V)).

Fixpoint hGet {V} (h : Hash V) (field : string) : option V :=
  match h with
  | [] => None
  | (k, v) :: h' => if decide (k = field) then Some v else hGet h' field
  end.

Fixpoint hSet {V} (h : Hash V) (field : string) (value : V) : Hash V :=
  match h with
  | [] => [(field, value)]
  | (k, v) :: h' =>
      if decide (k = field) then (k, value) :: h' else (k, v) :: hSet h' field value
  end.

Definition hDel {V} (h : Hash V) (field : string) : Hash V :=
  filter (fun kv => kv.1 <> field) h.

Record State := mkState {
  openChallenges : Hash Challenge.t;
  activeRooms : Hash Room.t;
  sockets : Sockets;
  db : DB;
  outbox : list (Target * Event)
}.

Definition set_openChallenges (cs : Hash Challenge.t) (s : State) : State :=
  mkState cs (activeRooms s) (sockets s) (db s) (outbox s).
Definition set_activeRooms (rs : Hash Room.t) (s : State) : State :=
  mkState (openChallenges s) rs (sockets s) (db s) (outbox s).
Definition set_socket (socket roomId : string) (userId : Z) (s : State) : State :=
  mkState (openChallenges s) (activeRooms s)
          (<[socket := (roomId, userId)]> (sockets s)) (db s) (outbox s).
Definition query (q : Query) (s : State) : State :=
  mkState (openChallenges s) (activeRooms s) (sockets s) (exec_query q (db s)) (outbox s).
Definition emit (t : Target) (e : Event) (s : State) : State :=
  mkState (openChallenges s) (activeRooms s) (sockets s) (db s) (outbox s ++ [(t, e)]).

Definition socket_roomId (socket : string) (s : State) : option string :=
  fst <$> sockets s !! socket.

Definition run_effect (e : Effect) (s : State) : State :=
  match e with
  | Q q => query q s
  | Emit t ev => emit t ev s
  end.

Definition run_effects (es : list Effect) (s : State) : State :=
  foldl (fun s e => run_effect e s) s es.

(** ** The reply of [hGetAll] as a JavaScript object

    The client turns the reply into an object, and [Object.entries] and
    [Object.values] list the properties of an object whose names are array
    indices first, in ascending numeric order, and the others after them in
    the order in which they were added.  A private room id can be such a
    name (["7"], ["12345"]). *)

Definition digit (a : Ascii.ascii) : option N :=
  let n := Ascii.N_of_ascii a in
  if ((48 <=? n) && (n <=? 57))%N then Some (n - 48)%N else None.

Fixpoint digits (k : string) (acc : N) : option N :=
  match k with
  | EmptyString => Some acc
  | String a k' =>
      match digit a with
      | Some d => digits k' (10 * acc + d)%N
      | None => None
      end
  end.

(** An array index: the canonical decimal text of an integer below
    2^32 - 1. *)
Definition array_index (k : string) : option N :=
  match k with
  | EmptyString => None
  | _ =>
      match digits k 0 with
      | Some n =>
          if decide (pretty n = k) then (if (n <? 2 ^ 32 - 1)%N then Some n else None)
          else None
      | None => None
      end
  end.

(** Entries with their index, sorted by it. *)
Fixpoint insert_by_index {V} (x : N * (string * V)) (l : list (N * (string * V)))
    : list (N * (string * V)) :=
  match l with
  | [] => [x]
  | y :: l' => if (x.1 <=? y.1)%N then x :: l else y :: insert_by_index x l'
  end.

Definition sort_by_index {V} (l : list (N * (string * V))) : list (N * (string * V)) :=
  foldr insert_by_index [] l.

Definition entries {V} (h : Hash V) : list (string * V) :=
  (snd <$> sort_by_index (omap (fun kv => (fun n => (n, kv)) <$> array_index kv.1) h))
  ++ filter (fun kv => array_index kv.1 = None) h.

Definition broadcastLobby (s : State) : State :=
  emit to_all (lobby_update (publicChallenges (snd <$> entries (openChallenges s)))) s.

(** The first of [Object.entries(rawChallenges)] hosted by [socket]. *)
Definition hosted_by (socket : string) (h : Hash Challenge.t) : option (string * Challenge.t) :=
  snd <$> list_find (fun kv => Challenge.hostId kv.2 = socket) (entries h).

Definition opponentId (room : Room.t) (socket : string) : string :=
  if decide (Player.id (Room.p1 room) = socket)
  then Player.id (Room.p2 room) else Player.id (Room.p1 room).

Section Handlers.
Variable pow_approx : Number -> Number -> Number.

(** The listeners, each served to its end with no command of another
    listener reaching Redis or the store in between. *)

Definition create_challenge (now : N) (rnd : string) (socket : string)
    (userId : Z) (username : string) (stake : Z) (mode : string)
    (isPrivate : bool) (elo : Number) (s : State) : State :=
  let balCol := balCol mode in
  match select_bal balCol userId (db s) with
  | None => emit (to_socket socket) (error "Salio Halitoshi!") s
  | Some bal =>
      if bal <? stake then emit (to_socket socket) (error "Salio Halitoshi!") s
      else
        let roomId := newRoomId isPrivate rnd now in
        let s := query (DebitBalance balCol stake userId) s in
        let s := set_socket socket roomId userId s in
        let challenge :=
          Challenge.mk roomId socket userId username stake mode isPrivate elo in
        let s := set_openChallenges (hSet (openChallenges s) roomId challenge) s in
        let s := emit (to_socket socket) (game_created roomId isPrivate) s in
        let s := broadcastLobby s in
        if decide (mode = "real")
        then query (InsertTransaction userId "ENTRY_FEE" stake "PENDING") s
        else s
  end.

(** [join_challenge]; across its [await]s it is [join_found] and
    [join_resume] below. *)
Definition join_challenge (socket : string) (userId : Z) (username : string)
    (roomId : string) (elo : Number) (s : State) : State :=
  match hGet (openChallenges s) roomId with
  | None => emit (to_socket socket) (error "Mechi haipatikani.") s
  | Some challenge =>
      if decide (Challenge.userId challenge = userId)
      then emit (to_socket socket) (error "Huwezi kucheza dhidi yako!") s
      else
        let balCol := balCol (Challenge.mode challenge) in
        match select_bal balCol userId (db s) with
        | None => emit (to_socket socket) (error "Salio Halitoshi!") s
        | Some bal =>
            if bal <? Challenge.stake challenge
            then emit (to_socket socket) (error "Salio Halitoshi!") s
            else
              let s := set_openChallenges (hDel (openChallenges s) roomId) s in
              let s := broadcastLobby s in
              let s := query (DebitBalance balCol (Challenge.stake challenge) userId) s in
              let s := set_socket socket roomId userId s in
              let activeRoomData :=
                Room.mk
                  (Player.mk (Challenge.hostId challenge) (Challenge.userId challenge)
                             (Challenge.elo challenge))
                  (Player.mk socket userId elo)
                  (Challenge.stake challenge) (Challenge.mode challenge) false in
              let s := set_activeRooms (hSet (activeRooms s) roomId activeRoomData) s in
              let s := if decide (Challenge.mode challenge = "real")
                       then query (InsertTransaction userId "ENTRY_FEE"
                                     (Challenge.stake challenge) "PENDING") s
                       else s in
              emit (to_room roomId)
                   (game_start roomId (Challenge.hostId challenge) socket
                               (Challenge.hostName challenge) username
                               (Challenge.stake challenge)) s
        end
  end.

(** [cancel_challenge]; from the reply of its [hGetAll] on it is
    [cancel_resume] below. *)
Definition cancel_challenge (socket : string) (s : State) : State :=
  match hosted_by socket (openChallenges s) with
  | None => s
  | Some (roomId, c) =>
      let balCol := balCol (Challenge.mode c) in
      let s := set_openChallenges (hDel (openChallenges s) roomId) s in
      let s := broadcastLobby s in
      let s := query (CreditBalance balCol (Challenge.stake c) (Challenge.userId c)) s in
      emit (to_socket socket) challenge_cancelled s
  end.

(** [handleGameOver], every Redis command and query awaited to completion
    with nothing running in between. *)
Definition handleGameOver (roomId : string) (winnerSocketId : option string)
    (reason : string) (s : State) : State :=
  match hGet (activeRooms s) roomId with
  | None => s
  | Some room =>
      if Room.processed room then s
      else
        let room := Room.set_processed room in
        let s := set_activeRooms (hSet (activeRooms s) roomId room) s in
        let s :=
          run_effects (performed (settlement pow_approx roomId room winnerSocketId reason))
                      s in
        set_activeRooms (hDel (activeRooms s) roomId) s
  end.

Definition game_over (socket winner : string) (s : State) : State :=
  match socket_roomId socket s with
  | Some roomId =>
      handleGameOver roomId (if decide (winner = "me") then Some socket else None)
                     "regular" s
  | None => s
  end.

Definition timeout_loss (socket : string) (s : State) : State :=
  match socket_roomId socket s with
  | Some roomId =>
      if truthy roomId then
        match hGet (activeRooms s) roomId with
        | Some room => handleGameOver roomId (Some (opponentId room socket)) "timeout" s
        | None => s
        end
      else s
  | None => s
  end.

Definition accept_draw (socket : string) (s : State) : State :=
  match socket_roomId socket s with
  | Some roomId => handleGameOver roomId None "draw" s
  | None => s
  end.

(** [disconnect]; from the reply of its [hGetAll] on it is
    [disconnect_resume] below. *)
Definition disconnect (socket : string) (s : State) : State :=
  let s :=
    match hosted_by socket (openChallenges s) with
    | None => s
    | Some (roomId, c) =>
        let balCol := balCol (Challenge.mode c) in
        let s := query (CreditBalance balCol (Challenge.stake c) (Challenge.userId c)) s in
        let s := set_openChallenges (hDel (openChallenges s) roomId) s in
        broadcastLobby s
    end in
  match socket_roomId socket s with
  | Some roomId =>
      if truthy roomId then
        match hGet (activeRooms s) roomId with
        | Some room =>
            if Room.processed room then s
            else handleGameOver roomId (Some (opponentId room socket)) "abandon" s
        | None => s
        end
      else s
  | None => s
  end.

(** ** Listeners across an [await]

    Every listener of this revision acts on the copy that its own [hGet] or
    [hGetAll] returned; commands of other listeners reach Redis before it
    resumes.  Each is given by what its reply held and by how it resumes with
    it. *)

(** [join_challenge] with the reply of its [hGet]: the challenge, when both
    tests on it are passed. *)
Definition join_found (userId : Z) (roomId : string) (s : State)
    : option Challenge.t :=
  match hGet (openChallenges s) roomId with
  | None => None
  | Some challenge =>
      if decide (Challenge.userId challenge = userId) then None else Some challenge
  end.

(** [join_challenge] from the reply of its SELECT on, served to its end:
    [reply] is the balance that the reply held, [None] for no row. *)
Definition join_resume (socket : string) (userId : Z) (username roomId : string)
    (elo : Number) (challenge : Challenge.t) (reply : option Z) (s : State)
    : State :=
  let balCol := balCol (Challenge.mode challenge) in
  match reply with
  | None => emit (to_socket socket) (error "Salio Halitoshi!") s
  | Some bal =>
      if bal <? Challenge.stake challenge
      then emit (to_socket socket) (error "Salio Halitoshi!") s
      else
        let s := set_openChallenges (hDel (openChallenges s) roomId) s in
        let s := broadcastLobby s in
        let s := query (DebitBalance balCol (Challenge.stake challenge) userId) s in
        let s := set_socket socket roomId userId s in
        let activeRoomData :=
          Room.mk
            (Player.mk (Challenge.hostId challenge) (Challenge.userId challenge)
                       (Challenge.elo challenge))
            (Player.mk socket userId elo)
            (Challenge.stake challenge) (Challenge.mode challenge) false in
        let s := set_activeRooms (hSet (activeRooms s) roomId activeRoomData) s in
        let s := if decide (Challenge.mode challenge = "real")
                 then query (InsertTransaction userId "ENTRY_FEE"
                               (Challenge.stake challenge) "PENDING") s
                 else s in
        emit (to_room roomId)
             (game_start roomId (Challenge.hostId challenge) socket
                         (Challenge.hostName challenge) username
                         (Challenge.stake challenge)) s
  end.

(** [cancel_challenge] from the reply of its [hGetAll] on: [roomId] and [c]
    are the entry of the reply hosted by the socket. *)
Definition cancel_resume (socket roomId : string) (c : Challenge.t) (s : State)
    : State :=
  let balCol := balCol (Challenge.mode c) in
  let s := set_openChallenges (hDel (openChallenges s) roomId) s in
  let s := broadcastLobby s in
  let s := query (CreditBalance balCol (Challenge.stake c) (Challenge.userId c)) s in
  emit (to_socket socket) challenge_cancelled s.

(** The second half of [disconnect]. *)
Definition disconnect_room (socket : string) (s : State) : State :=
  match socket_roomId socket s with
  | Some roomId =>
      if truthy roomId then
        match hGet (activeRooms s) roomId with
        | Some room =>
            if Room.processed room then s
            else handleGameOver roomId (Some (opponentId room socket)) "abandon" s
        | None => s
        end
      else s
  | None => s
  end.

(** [disconnect] from the reply of its [hGetAll] on. *)
Definition disconnect_resume (socket roomId : string) (c : Challenge.t) (s : State)
    : State :=
  let balCol := balCol (Challenge.mode c) in
  let s := query (CreditBalance balCol (Challenge.stake c) (Challenge.userId c)) s in
  let s := set_openChallenges (hDel (openChallenges s) roomId) s in
  let s := broadcastLobby s in
  disconnect_room socket s.

(** ** Settlement one [await] at a time

    [handleGameOver] first awaits [hGet]; its continuation tests the copy it
    parsed and awaits [hSet]; then come the queries and [hDel].  Commands of
    other handlers reach Redis in between. *)

Inductive Task :=
  | Called (roomId : string) (winnerSocketId : option string) (reason : string)
  | Fetched (rawRoom : option Room.t) (roomId : string)
            (winnerSocketId : option string) (reason : string)
  | Awaiting (roomId : string) (todo : list Effect)
  | Returned.

Definition step_task (t : Task) (s : State) : Task * State :=
  match t with
  | Called roomId winnerSocketId reason =>
      (Fetched (hGet (activeRooms s) roomId) roomId winnerSocketId reason, s)
  | Fetched None _ _ _ => (Returned, s)
  | Fetched (Some room) roomId winnerSocketId reason =>
      if Room.processed room then (Returned, s)
      else
        let room := Room.set_processed room in
        (Awaiting roomId (settlement pow_approx roomId room winnerSocketId reason),
         set_activeRooms (hSet (activeRooms s) roomId room) s)
  | Awaiting roomId (Q q :: todo) =>
      if accepted q then (Awaiting roomId todo, query q s)
      else (Awaiting roomId [], s)
  | Awaiting roomId (Emit t ev :: todo) => (Awaiting roomId todo, emit t ev s)
  | Awaiting roomId [] => (Returned, set_activeRooms (hDel (activeRooms s) roomId) s)
  | Returned => (Returned, s)
  end.

Definition resume (i : nat) (c : list Task * State) : list Task * State :=
  match c.1 !! i with
  | Some t => let '(t', s') := step_task t c.2 in (<[i := t']> c.1, s')
  | None => c
  end.

Definition run (schedule : list nat) (c : list Task * State) : list Task * State :=
  foldl (fun c i => resume i c) c schedule.
End Handlers.

End Redis.

(** * The wallet routes of [server.js] *)

Module Http.

(** The tables, with the [network] column of [transactions] kept beside the
    rows: it is null on the rows the socket listeners insert and is keyed
    here by the position of the row. *)
Record Store := mkStore {
  db : DB;
  network : gmap nat string
}.

Inductive Reply :=
  | success (message : string)
  | refused (status : Z) (error : string)
  | not_found
  | user_data (real demo : Z) (elo : Number)
      (rows : list (Transaction * option string)).

(** [INSERT INTO transactions (user_id, type, amount, network, status)]. *)
Definition insert_transaction (user_id : Z) (type : string) (amount : Z)
    (nw : option string) (status : string) (st : Store) : Store :=
  mkStore (exec_query (InsertTransaction user_id type amount status) (db st))
          (match nw with
           | Some n => <[length (transactions (db st)) := n]> (network st)
           | None => network st
           end).

(** [POST /api/deposit]. *)
Definition deposit (userId amount : Z) (nw : option string) (st : Store)
    : Store * Reply :=
  let st := mkStore (exec_query (CreditBalance real_balance amount userId) (db st))
                    (network st) in
  let st := insert_transaction userId "DEPOSIT" amount nw "SUCCESS" st in
  (st, success "Muamala Umekamilika").

(** [POST /api/withdraw] from the reply of its SELECT on: [bal] is the
    balance that the reply held, [None] for no row.  Requests that arrive
    while the SELECT is awaited are served before the route resumes. *)
Definition withdraw_resume (userId amount : Z) (nw : option string)
    (bal : option Z) (st : Store) : Store * Reply :=
  match bal with
  | None => (st, refused 400 "Salio halitoshi")
  | Some bal =>
      if bal <? amount then (st, refused 400 "Salio halitoshi")
      else
        let st := mkStore (exec_query (DebitBalance real_balance amount userId) (db st))
                          (network st) in
        let st := insert_transaction userId "WITHDRAW" amount nw "PENDING" st in
        (st, success "Ombi limetumwa.")
  end.

(** [POST /api/withdraw] served with nothing in between.  (The answer 500 of
    its [catch] needs a statement that the store rejects, which amounts
    within the range of the columns do not give.) *)
Definition withdraw (userId amount : Z) (nw : option string) (st : Store)
    : Store * Reply :=
  match select_bal real_balance userId (db st) with
  | None => (st, refused 400 "Salio halitoshi")
  | Some bal =>
      if bal <? amount then (st, refused 400 "Salio halitoshi")
      else
        let st := mkStore (exec_query (DebitBalance real_balance amount userId) (db st))
                          (network st) in
        let st := insert_transaction userId "WITHDRAW" amount nw "PENDING" st in
        (st, success "Ombi limetumwa.")
  end.

(** [POST /api/withdraw] of the SQLite revision, which reads
    [row.real_balance] before looking whether a row came back: [None] is the
    TypeError on an unknown account. *)
Definition withdraw_sqlite (userId amount : Z) (nw : option string) (st : Store)
    : option (Store * Reply) :=
  match select_bal real_balance userId (db st) with
  | None => None
  | Some bal =>
      if bal <? amount then Some (st, refused 400 "Salio halitoshi")
      else
        let st := mkStore (exec_query (DebitBalance real_balance amount userId) (db st))
                          (network st) in
        let st := insert_transaction userId "WITHDRAW" amount nw "PENDING" st in
        Some (st, success "Ombi limetumwa.")
  end.

(** [SELECT * FROM transactions WHERE user_id = $1 ORDER BY id DESC LIMIT 10]. *)
Definition last_transactions (userId : Z) (st : Store)
    : list (Transaction * option string) :=
  take 10 (reverse (filter (fun r => tx_user_id r.1 = userId)
                           (imap (fun i tx => (tx, network st !! i))
                                 (transactions (db st))))).

(** [GET /api/user-data/:id]. *)
Definition get_user_data (userId : Z) (st : Store) : Reply :=
  match users (db st) !! userId with
  | None => not_found
  | Some u =>
      user_data (row_real_balance u) (row_demo_balance u) (row_elo u)
                (last_transactions userId st)
  end.

End Http.
(** * Example configurations *)

(** An engine for the examples.  The ratings used there are equal, so that
    [Math.pow] only meets a zero exponent, which never reaches the engine's
    approximation. *)
Definition pow_unused : Number -> Number -> Number := fun _ _ => S754_nan.

(** A room with a stake of 100 in real money between two players rated
    1200. *)
Definition room_100 : Room.t :=
  Room.mk (Player.mk "sockA" 1 (of_Z 1200)) (Player.mk "sockB" 2 (of_Z 1200))
          100 "real" false.

(** The same room with a stake of 5. *)
Definition room_5 : Room.t :=
  Room.mk (Player.mk "sockA" 1 (of_Z 1200)) (Player.mk "sockB" 2 (of_Z 1200))
          5 "real" false.

(** An account with 50000 demo units and no real money, rated 1200. *)
Definition fresh_user : UserRow := mkUserRow 0 50000 (of_Z 1200).

Definition db0 : DB := mkDB (<[1 := fresh_user]> (<[2 := fresh_user]> ∅)) 0 [].

Definition lobby0 : InMemory.State := InMemory.mkState [] ∅ ∅ db0 [].

(** The lobby after account 1 has put up 100 demo units in public. *)
Definition lobby1 : InMemory.State :=
  InMemory.create_challenge 1700000000000 "K3J9Q" "sockA" 1 "amina" 100 "demo" false
    (of_Z 1200) lobby0.

(** Account 1 asks for a public challenge with a stake of -100. *)
Definition lobby_negative_stake : InMemory.State :=
  InMemory.create_challenge 1700000000000 "K3J9Q" "sockA" 1 "amina" (-100) "demo" false
    (of_Z 1200) lobby0.

(** Accounts 1 and 2 create public challenges within the same millisecond. *)
Definition lobby_same_millisecond : InMemory.State :=
  InMemory.create_challenge 1700000000000 "7XW2M" "sockB" 2 "baraka" 100 "demo" false
    (of_Z 1200) lobby1.

(** An account holding 1000 in real money. *)
Definition funded_user : UserRow := mkUserRow 1000 50000 (of_Z 1200).

Definition db1 : DB := mkDB (<[1 := funded_user]> (<[2 := funded_user]> ∅)) 0 [].

(** Account 1 on socket "sockA" stakes 100 in real money and account 2 on
    socket "sockB" joins: the room has p1 = sockA and p2 = sockB. *)
Definition table0 : InMemory.State := InMemory.mkState [] ∅ ∅ db1 [].

Definition table1 : InMemory.State :=
  InMemory.create_challenge 1700000000000 "K3J9Q" "sockA" 1 "amina" 100 "real" false
    (of_Z 1200) table0.

Definition table2 : InMemory.State :=
  InMemory.join_challenge "sockB" 2 "baraka" "pub_1700000000000" (of_Z 1200) table1.

(** sockB, in slot p2, reports [game_over] with winner "opponent". *)
Definition table2_p2_concedes : InMemory.State :=
  InMemory.game_over pow_unused "sockB" "opponent" table2.

(** The same match in the stateless revision. *)
Definition rtable0 : Redis.State := Redis.mkState [] [] ∅ db1 [].

Definition rtable1 : Redis.State :=
  Redis.create_challenge 1700000000000 "K3J9Q" "sockA" 1 "amina" 100 "real" false
    (of_Z 1200) rtable0.

Definition rtable2 : Redis.State :=
  Redis.join_challenge "sockB" 2 "baraka" "pub_1700000000000" (of_Z 1200) rtable1.

(** Both players report [game_over] with winner "me"; each call gets its
    [hGet] answered before the other's [hSet] reaches Redis, then runs on. *)
Definition both_claim_victory : list Redis.Task :=
  [Redis.Called "pub_1700000000000" (Some "sockA") "regular";
   Redis.Called "pub_1700000000000" (Some "sockB") "regular"].

Definition racing_schedule : list nat :=
  [0; 1; 0; 1; 0; 0; 0; 0; 0; 0; 1; 1; 1; 1; 1; 1]%nat.

Definition race_outcome : list Redis.Task * Redis.State :=
  Redis.run pow_unused racing_schedule (both_claim_victory, rtable2).

(** The queries and the events of a list of effects. *)
Definition queries_of (es : list Effect) : list Query :=
  omap (fun e => match e with Q q => Some q | Emit _ _ => None end) es.

Definition events_of (es : list Effect) : list (Target * Event) :=
  omap (fun e => match e with Q _ => None | Emit t ev => Some (t, ev) end) es.

Definition exec_queries (qs : list Query) (d : DB) : DB :=
  foldl (fun d q => exec_query q d) d qs.

(** The winners and payouts announced by [match_result] events, draws left
    out. *)
Definition payouts_announced (o : list (Target * Event)) : list (Z * Z) :=
  omap (fun te => match te.2 with
                  | match_result winnerId payout _ => Some (winnerId, payout)
                  | _ => None
                  end) o.

(** ** Calls of [handleGameOver] on one room of [server.js]

    The configurations that calls with winners and reasons [calls], all on
    the open room [room] stored under [roomId] in [s0], go through when their
    steps are interleaved: no call has started; or one call, and only that
    one, is applying its settlement, of which [done] has run and [todo] is
    still to come, as far as the store will take it; or that call has
    returned and the state is the one it alone would have left. *)
Section OneRoom.
Variable pow_approx : Number -> Number -> Number.
Variables (roomId : string) (room : Room.t) (s0 : InMemory.State).
Variable calls : list (option string * string).

Definition calls_on : list InMemory.Task :=
  (fun wr => InMemory.Called roomId wr.1 wr.2) <$> calls.

Definition marked : InMemory.State :=
  InMemory.set_activeRooms
    (<[roomId := Room.set_processed room]> (InMemory.activeRooms s0)) s0.

(** Every task but the one at index [i] is still to be dispatched or has
    returned. *)
Definition bystanders (i : nat) (ts : list InMemory.Task) : Prop :=
  length ts = length calls
  /\ forall j t, j <> i -> ts !! j = Some t ->
                 t = InMemory.Returned \/ calls_on !! j = Some t.

Inductive settling : list InMemory.Task * InMemory.State -> Prop :=
  | not_started : settling (calls_on, s0)
  | in_progress (i : nat) (w : option string) (r : string)
      (done todo : list Effect) (ts : list InMemory.Task) :
      calls !! i = Some (w, r) ->
      performed (settlement pow_approx roomId room w r) = done ++ performed todo ->
      ts !! i = Some (InMemory.Awaiting roomId todo) ->
      bystanders i ts ->
      settling (ts, InMemory.run_effects done marked)
  | completed (i : nat) (w : option string) (r : string) (ts : list InMemory.Task) :
      calls !! i = Some (w, r) ->
      ts !! i = Some InMemory.Returned ->
      bystanders i ts ->
      settling (ts, InMemory.handleGameOver pow_approx roomId w r s0).
End OneRoom.


(** Account 2 on socket "sockB" joins the demo challenge of [lobby1]. *)
Definition demo_table : InMemory.State :=
  InMemory.join_challenge "sockB" 2 "baraka" "pub_1700000000000" (of_Z 1200) lobby1.

(** ** What serving events preserves *)

(** [s'] has the accounts of [s], and its journal and its outbox continue
    those of [s]. *)
Definition keeps_accounts (s s' : InMemory.State) : Prop :=
  dom (users (InMemory.db s')) =@{gset Z} dom (users (InMemory.db s))
  /\ transactions (InMemory.db s) `prefix_of` transactions (InMemory.db s')
  /\ InMemory.outbox s `prefix_of` InMemory.outbox s'.

(** Every [lobby_update] of an outbox lists public challenges only. *)
Definition lists_public_only (o : list (Target * Event)) : Prop :=
  Forall (fun te => match te.2 with
                    | lobby_update cs =>
                        Forall (fun c => Challenge.isPrivate c = false) cs
                    | _ => True
                    end) o.

(** A private challenge of account 1, a public one of account 2 joined by
    account 1's second socket, a move, and the first socket leaving. *)
Definition evening : list (string * InMemory.Message) :=
  [("sockA", InMemory.msg_connection);
   ("sockA", InMemory.msg_create_challenge 1700000000000 "K3J9Q" 1 "amina" 100 "demo"
               true (of_Z 1200));
   ("sockB", InMemory.msg_create_challenge 1700000000001 "7XW2M" 2 "baraka" 200 "demo"
               false (of_Z 1200));
   ("sockC", InMemory.msg_join_challenge 3 "chiku" "pub_1700000000001" (of_Z 1200));
   ("sockA", InMemory.msg_join_challenge 1 "amina" "pub_1700000000001" (of_Z 1200));
   ("sockA", InMemory.msg_make_move "c3-d4");
   ("sockB", InMemory.msg_game_over "me");
   ("sockA", InMemory.msg_disconnect)].

(** The stateless revision: account 2 asks for a public challenge in the
    millisecond in which account 1 opened the one of [rtable1]. *)
Definition rlobby_same_millisecond : Redis.State :=
  Redis.create_challenge 1700000000000 "7XW2M" "sockB" 2 "baraka" 100 "real" false
    (of_Z 1200) rtable1.

(** The tables with both accounts funded and nothing in the journal. *)
Definition store1 : Http.Store := Http.mkStore db1 ∅.

(** Three reports on the room of [table2]: sockA claims the win, a draw is
    accepted, sockB is reported gone; and an order in which the server
    resumes the three calls, the draw being dispatched first. *)
Definition three_reports : list (option string * string) :=
  [(Some "sockA", "regular"); (None, "draw"); (Some "sockB", "abandon")].

Definition draw_first : list nat := [1; 0; 1; 2; 1; 1; 1]%nat.

(** ** Ratings that the store takes

    The ratings that a decisive settlement of [room] writes when
    [winnerSocketId] names the winner, and whether the store accepts both. *)
Definition new_ratings (pow_approx : Number -> Number -> Number) (room : Room.t)
    (winnerSocketId : option string) : Number * Number :=
  let winner := if decide (winnerSocketId = Some (Player.id (Room.p1 room)))
                then Room.p1 room else Room.p2 room in
  let loser := if decide (winnerSocketId = Some (Player.id (Room.p1 room)))
               then Room.p2 room else Room.p1 room in
  updateElo pow_approx (Player.elo winner) (Player.elo loser).

Definition ratings_storable (pow_approx : Number -> Number -> Number) (room : Room.t)
    (winnerSocketId : option string) : bool :=
  storable (new_ratings pow_approx room winnerSocketId).1
  && storable (new_ratings pow_approx room winnerSocketId).2.

(** The match of [table2] when the joiner's client sent no rating. *)
Definition table2_unrated : InMemory.State :=
  InMemory.join_challenge "sockB" 2 "baraka" "pub_1700000000000" S754_nan table1.

(** ** Listeners that overlap *)

(** Three accounts with demo money, and the lobby after accounts 2, 1 and 3
    have each put up 100 demo units in public, on sockets sockB, sockA and
    sockC, in that order. *)
Definition db3 : DB :=
  mkDB (<[1 := fresh_user]> (<[2 := fresh_user]> (<[3 := fresh_user]> ∅))) 0 [].

Definition challenge_of (now : N) (socket : string) (userId : Z) (username : string)
    : Challenge.t :=
  Challenge.mk (newRoomId false "" now) socket userId username 100 "demo" false
               (of_Z 1200).

Definition lobby3 : InMemory.State :=
  InMemory.create_challenge 1700000000002 "" "sockC" 3 "chiku" 100 "demo" false (of_Z 1200)
    (InMemory.create_challenge 1700000000001 "" "sockA" 1 "amina" 100 "demo" false
       (of_Z 1200)
       (InMemory.create_challenge 1700000000000 "" "sockB" 2 "baraka" 100 "demo" false
          (of_Z 1200) (InMemory.mkState [] ∅ ∅ db3 []))).

(** sockA disconnects: [findIndex] gives index 1.  While the refund is
    awaited, sockB's [cancel_challenge] is served; then the listener of
    sockA resumes with its index. *)
Definition stale_disconnect : InMemory.State :=
  InMemory.disconnect_resume pow_unused "sockA" 1
    (challenge_of 1700000000001 "sockA" 1 "amina")
    (InMemory.cancel_challenge "sockB" lobby3).



(** The lobby of [lobby3] again, in real money and with funded accounts, in
    either revision: the challenge of sockB is first, and accounts 1 and 3
    both ask to join it. *)
Definition db3_funded : DB :=
  mkDB (<[1 := funded_user]> (<[2 := funded_user]> (<[3 := funded_user]> ∅))) 0 [].

Definition two_open : InMemory.State :=
  InMemory.create_challenge 1700000000001 "" "sockD" 4 "dalila" 100 "demo" false
    (of_Z 1200)
    (InMemory.create_challenge 1700000000000 "" "sockB" 2 "baraka" 100 "real" false
       (of_Z 1200)
       (InMemory.mkState [] ∅ ∅
          (mkDB (<[4 := fresh_user]> (users db3_funded)) 0 []) [])).

Definition rone_open : Redis.State :=
  Redis.create_challenge 1700000000000 "" "sockB" 2 "baraka" 100 "real" false (of_Z 1200)
    (Redis.mkState [] [] ∅ db3_funded []).
(** * Facts on binary64 arithmetic *)

Section Binary64.

Lemma digits2_pos_bounds (p : positive) :
  2 ^ (Zpos (digits2_pos p) - 1) <= Zpos p < 2 ^ Zpos (digits2_pos p).
Proof.
  induction p as [p IH | p IH |]; cbn [digits2_pos].
  - rewrite Pos2Z.inj_succ, Z.pow_succ_r by lia.
    replace (Z.succ (Zpos (digits2_pos p)) - 1) with (Z.succ (Zpos (digits2_pos p) - 1)) by lia.
    rewrite Z.pow_succ_r by lia. lia.
  - rewrite Pos2Z.inj_succ, Z.pow_succ_r by lia.
    replace (Z.succ (Zpos (digits2_pos p)) - 1) with (Z.succ (Zpos (digits2_pos p) - 1)) by lia.
    rewrite Z.pow_succ_r by lia. lia.
  - cbn. lia.
Qed.

Lemma digits2_pos_le (p : positive) (k : Z) :
  0 <= k -> Zpos p < 2 ^ k -> Zpos (digits2_pos p) <= k.
Proof.
  intros Hk Hp. destruct (Z_le_gt_dec (Zpos (digits2_pos p)) k) as [|Hgt]; [assumption|].
  pose proof (digits2_pos_bounds p) as [Hlo _].
  assert (2 ^ k <= 2 ^ (Zpos (digits2_pos p) - 1)) by (apply Z.pow_le_mono_r; lia).
  lia.
Qed.

Lemma digits2_pos_ge (p : positive) (k : Z) :
  2 ^ (k - 1) <= Zpos p -> k <= Zpos (digits2_pos p).
Proof.
  intros Hp. destruct (Z_le_gt_dec k (Zpos (digits2_pos p))) as [|Hgt]; [assumption|].
  pose proof (digits2_pos_bounds p) as [_ Hhi].
  assert (2 ^ Zpos (digits2_pos p) <= 2 ^ (k - 1)) by (apply Z.pow_le_mono_r; lia).
  lia.
Qed.

Lemma iter_pos_nat {A} (f : A -> A) (p : positive) (x : A) :
  SpecFloat.iter_pos f p x = Nat.iter (Pos.to_nat p) f x.
Proof.
  revert x. induction p as [p IH | p IH |]; intros x; cbn [SpecFloat.iter_pos].
  - rewrite !IH. replace (Pos.to_nat p~1) with (S (Pos.to_nat p + Pos.to_nat p)) by lia.
    now rewrite Nat.iter_succ_r, Nat.iter_add.
  - rewrite !IH. replace (Pos.to_nat p~0) with (Pos.to_nat p + Pos.to_nat p)%nat by lia.
    now rewrite Nat.iter_add.
  - reflexivity.
Qed.

Lemma shr_1_m (mrs : shr_record) :
  0 <= shr_m mrs -> shr_m (shr_1 mrs) = shr_m mrs / 2.
Proof.
  destruct mrs as [m r s]; cbn [shr_m]. intros Hm.
  destruct m as [|[p|p|]|p]; cbn [shr_1 shr_m]; try lia.
  - apply Z.div_unique with (r := 0); lia.
  - apply Z.div_unique with (r := 1); lia.
  - apply Z.div_unique with (r := 0); lia.
  - apply Z.div_unique with (r := 1); lia.
Qed.

Lemma iter_shr_1_m (n : nat) (mrs : shr_record) :
  0 <= shr_m mrs ->
  shr_m (Nat.iter n shr_1 mrs) = shr_m mrs / 2 ^ Z.of_nat n.
Proof.
  intros Hm. induction n as [|n IH].
  - cbn. now rewrite Z.div_1_r.
  - rewrite Nat.iter_succ, shr_1_m.
    + rewrite IH, Nat2Z.inj_succ, Z.pow_succ_r by lia.
      rewrite Z.div_div by lia. f_equal. lia.
    + rewrite IH. apply Z.div_pos; [assumption | apply Z.pow_pos_nonneg; lia].
Qed.

Lemma shr_m_div (m e n : Z) :
  0 <= m -> 0 <= n ->
  shr_m (fst (shr (Build_shr_record m false false) e n)) = m / 2 ^ n
  /\ snd (shr (Build_shr_record m false false) e n) = e + n.
Proof.
  intros Hm Hn. destruct n as [|p|p]; cbn [shr fst snd shr_m]; try lia.
  - rewrite Z.div_1_r. lia.
  - rewrite iter_pos_nat, iter_shr_1_m by assumption.
    cbn [shr_m]. now rewrite positive_nat_Z.
Qed.

Lemma round_nearest_even_bounds (m : Z) (l : location) :
  m <= round_nearest_even m l <= m + 1.
Proof.
  destruct l as [|[| |]]; cbn [round_nearest_even]; try lia.
  destruct (Z.even m); lia.
Qed.


Lemma pow2_split (a b : Z) : 0 <= a -> 0 <= b -> 2 ^ (a + b) = 2 ^ a * 2 ^ b.
Proof. intros. now rewrite Z.pow_add_r. Qed.

Lemma pow2_pos (a : Z) : 0 <= a -> 0 < 2 ^ a.
Proof. intros. now apply Z.pow_pos_nonneg. Qed.

Lemma floor_round_aux (p : positive) (ex q : Z) :
  53 <= Zpos (digits2_pos p) ->
  -1074 <= ex ->
  ex + (Zpos (digits2_pos p) - 53) <= -1 ->
  0 <= q ->
  q * 2 ^ (- ex) <= Zpos p ->
  Zpos p + 2 ^ (Zpos (digits2_pos p) - 53) < (q + 1) * 2 ^ (- ex) ->
  Math_floor (binary_round_aux prec emax false (Zpos p) ex loc_Exact) = q.
Proof.
  set (d := Zpos (digits2_pos p)). intros Hd Hex Hfrac Hq Hlo Hhi.
  pose proof (digits2_pos_bounds p) as [Hp1 Hp2]. fold d in Hp1, Hp2.
  set (n1 := d - 53) in *. set (k := - ex - n1).
  assert (Hk : 1 <= k) by lia.
  assert (Hn1 : 0 <= n1) by lia.
  pose proof (pow2_pos n1 Hn1) as Hpn1. pose proof (pow2_pos k ltac:(lia)) as Hpk.
  assert (Hsplit : 2 ^ (- ex) = 2 ^ k * 2 ^ n1).
  { rewrite <- pow2_split by lia. f_equal. lia. }
  assert (Hd1 : 2 ^ (d - 1) = 2 ^ 52 * 2 ^ n1).
  { rewrite <- pow2_split by lia. f_equal. lia. }
  assert (Hd2 : 2 ^ d = 2 ^ 53 * 2 ^ n1).
  { rewrite <- pow2_split by lia. f_equal. lia. }
  set (m1 := Zpos p / 2 ^ n1).
  assert (Hm1 : 2 ^ 52 <= m1 < 2 ^ 53).
  { split.
    - apply Z.div_le_lower_bound; lia.
    - apply Z.div_lt_upper_bound; lia. }
  assert (Hm1q : q * 2 ^ k <= m1).
  { apply Z.div_le_lower_bound; [lia|]. rewrite Hsplit in Hlo. lia. }
  assert (Hm1h : m1 + 1 < (q + 1) * 2 ^ k).
  { assert (Hmod : 2 ^ n1 * m1 <= Zpos p) by (apply Z.mul_div_le; lia).
    rewrite Hsplit in Hhi.
    apply Z.mul_lt_mono_pos_r with (p := 2 ^ n1); [lia|]. lia. }
  unfold binary_round_aux, shr_fexp. cbn [Zdigits2 shr_record_of_loc]. fold d.
  replace (fexp prec emax (d + ex) - ex) with n1
    by (unfold fexp, emin, prec, emax, n1; lia).
  destruct (shr_m_div (Zpos p) ex n1 ltac:(lia) Hn1) as [Hs1 He1].
  destruct (shr {| shr_m := Zpos p; shr_r := false; shr_s := false |} ex n1)
    as [mrs1 e1]. cbn [fst snd] in Hs1, He1. fold m1 in Hs1.
  rewrite Hs1.
  pose proof (round_nearest_even_bounds m1 (loc_of_shr_record mrs1)) as Hrnd.
  set (m2 := round_nearest_even m1 (loc_of_shr_record mrs1)) in *.
  assert (Hm2 : 2 ^ 52 <= m2 <= 2 ^ 53) by lia.
  destruct m2 as [|p2|p2] eqn:Em2; [lia | | lia].
  cbn [Zdigits2].
  assert (Hd53 : 53 <= Zpos (digits2_pos p2) <= 54).
  { split.
    - apply digits2_pos_ge. change (53 - 1) with 52. lia.
    - apply digits2_pos_le; [lia|]. change (2 ^ 54) with (2 * 2 ^ 53). lia. }
  set (n2 := fexp prec emax (Zpos (digits2_pos p2) + e1) - e1).
  assert (Hn2 : n2 = Zpos (digits2_pos p2) - 53)
    by (unfold n2, fexp, emin, prec, emax; lia).
  destruct (shr_m_div (Zpos p2) e1 n2 ltac:(lia) ltac:(lia)) as [Hs2 He2].
  destruct (shr {| shr_m := Zpos p2; shr_r := false; shr_s := false |} e1 n2)
    as [mrs2 e2]. cbn [fst snd] in Hs2, He2.
  rewrite Hs2.
  assert (Hn2c : n2 = 0 \/ n2 = 1) by lia.
  assert (Hm3 : 0 < Zpos p2 / 2 ^ n2).
  { apply Z.div_str_pos. destruct Hn2c as [-> | ->]; cbn; lia. }
  destruct (Zpos p2 / 2 ^ n2) as [|p3|p3] eqn:Em3; [lia | | lia].
  replace (e2 <=? emax - prec) with true
    by (symmetry; apply Z.leb_le; unfold emax, prec; lia).
  cbn [Math_floor cond_Zopp].
  assert (Hfin : Zpos p2 / 2 ^ k = q).
  { symmetry. apply Z.div_unique with (r := Zpos p2 - q * 2 ^ k); lia. }
  destruct (0 <=? e2) eqn:Ee2.
  - apply Z.leb_le in Ee2. assert (e2 = 0) by lia. subst e2.
    assert (n2 = 1 /\ k = 1) as [Hn21 Hk1] by lia.
    rewrite Hn21 in Em3. rewrite Hk1 in Hfin. rewrite H, Z.pow_0_r. lia.
  - apply Z.leb_gt in Ee2. rewrite <- Em3, Z.div_div by lia.
    rewrite <- pow2_split by lia. replace (n2 + - e2) with k by lia. exact Hfin.
Qed.

Lemma iter_xO_value (p k : positive) :
  Zpos (Pos.iter xO p k) = Zpos p * 2 ^ Zpos k
  /\ Zpos (digits2_pos (Pos.iter xO p k)) = Zpos (digits2_pos p) + Zpos k.
Proof.
  induction k as [|k [IH1 IH2]] using Pos.peano_ind.
  - cbn [Pos.iter digits2_pos]. rewrite Pos2Z.inj_succ. split; [|lia].
    rewrite Pos2Z.inj_xO. change (2 ^ 1) with 2. lia.
  - rewrite Pos.iter_succ. cbn [digits2_pos].
    rewrite Pos2Z.inj_xO, IH1, !Pos2Z.inj_succ, IH2, Z.pow_succ_r by lia.
    split; lia.
Qed.

Lemma binary_round_aux_canonical (s : bool) (m : positive) (e : Z) :
  Zpos (digits2_pos m) = 53 -> -1074 <= e <= 971 ->
  binary_round_aux prec emax s (Zpos m) e loc_Exact = S754_finite s m e.
Proof.
  intros Hd He.
  assert (Hn : fexp prec emax (Zpos (digits2_pos m) + e) - e = 0)
    by (rewrite Hd; unfold fexp, emin, prec, emax; lia).
  unfold binary_round_aux, shr_fexp. cbn [Zdigits2 shr_record_of_loc].
  rewrite Hn. cbn [shr shr_m loc_of_shr_record round_nearest_even Zdigits2].
  rewrite Hn. cbn [shr shr_m].
  replace (e <=? emax - prec) with true
    by (symmetry; apply Z.leb_le; unfold emax, prec; lia).
  reflexivity.
Qed.

(** The binary64 value of a positive integer below 2^53: its mantissa is the
    integer shifted left to 53 bits. *)
Lemma of_Z_pos (p : positive) :
  Zpos p < 2 ^ 53 ->
  exists (m : positive) (e : Z),
    of_Z (Zpos p) = S754_finite false m e
    /\ Zpos (digits2_pos m) = 53
    /\ e = Zpos (digits2_pos p) - 53
    /\ Zpos m = Zpos p * 2 ^ (- e).
Proof.
  intros Hp.
  assert (Hd : Zpos (digits2_pos p) <= 53) by (apply digits2_pos_le; lia).
  unfold of_Z, binary_normalize, binary_round, shl_align.
  replace (fexp prec emax (Zpos (digits2_pos p) + 0) - 0)
    with (Zpos (digits2_pos p) - 53)
    by (unfold fexp, emin, prec, emax; lia).
  replace (fexp prec emax (Zpos (digits2_pos p) + 0))
    with (Zpos (digits2_pos p) - 53)
    by (unfold fexp, emin, prec, emax; lia).
  destruct (Zpos (digits2_pos p) - 53) as [|k|k] eqn:Ek; [ | lia | ].
  - exists p, 0. rewrite binary_round_aux_canonical by lia.
    repeat split; lia.
  - destruct (iter_xO_value p k) as [Hv Hdg].
    exists (Pos.iter xO p k), (Zneg k).
    rewrite binary_round_aux_canonical by lia.
    repeat split; try lia. rewrite Hv. reflexivity.
Qed.

(** [Math.floor(n * 0.10)] on binary64 is the integer quotient by ten for
    every non-negative integer below 2^52: the double nearest to 0.10 lies
    above one tenth by less than 2^-58, too little to carry a product over
    the next integer, and never below. *)
Lemma floor_mul_lit_0_10 (n : Z) :
  0 <= n < 2 ^ 52 -> Math_floor (mul (of_Z n) lit_0_10) = n / 10.
Proof.
  intros [Hn0 Hn]. destruct n as [|p|p]; [reflexivity | | lia].
  destruct (of_Z_pos p ltac:(change (2 ^ 53) with (2 * 2 ^ 52); lia))
    as (m & e & -> & Hdm & He & Hm).
  pose proof (digits2_pos_bounds p) as [Hp1 Hp2].
  assert (Hdp : 1 <= Zpos (digits2_pos p) <= 52).
  { split; [lia|]. apply digits2_pos_le; lia. }
  set (t := 2 ^ (- e)) in *.
  assert (Ht : 2 <= t).
  { unfold t. change 2 with (2 ^ 1) at 1. apply Z.pow_le_mono_r; lia. }
  set (q := Zpos p / 10).
  assert (Hq : 10 * q <= Zpos p < 10 * q + 10).
  { pose proof (Z.mul_div_le (Zpos p) 10 ltac:(lia)).
    pose proof (Z.mul_succ_div_gt (Zpos p) 10 ltac:(lia)). unfold q. lia. }
  assert (Hq0 : 0 <= q) by (apply Z.div_pos; lia).
  pose proof (digits2_pos_bounds m) as [Hm1 Hm2]. rewrite Hdm in Hm1, Hm2.
  change (53 - 1) with 52 in Hm1.
  set (M := 7205759403792794).
  assert (HM : 10 * M = 2 ^ 56 + 4) by reflexivity.
  assert (HM1 : 2 ^ 52 <= M < 2 ^ 53) by (unfold M; split; [discriminate | reflexivity]).
  unfold mul, lit_0_10, SFmul. cbn [xorb].
  pose proof (digits2_pos_bounds (m * 7205759403792794)) as [Hx1 Hx2].
  rewrite Pos2Z.inj_mul in Hx1, Hx2. fold M in Hx1, Hx2.
  set (dx := Zpos (digits2_pos (m * 7205759403792794))) in *.
  assert (Hdx : 105 <= dx <= 106).
  { split.
    - apply digits2_pos_ge. rewrite Pos2Z.inj_mul. fold M.
      change (105 - 1) with (52 + 52). rewrite pow2_split by lia. nia.
    - apply digits2_pos_le; [lia|]. rewrite Pos2Z.inj_mul. fold M.
      change 106 with (53 + 53). rewrite pow2_split by lia. nia. }
  assert (Hsplit : 2 ^ (- (e + -56)) = 2 ^ 56 * t).
  { unfold t. rewrite <- pow2_split by lia. f_equal. lia. }
  apply floor_round_aux; fold dx; rewrite ?Pos2Z.inj_mul; fold M;
    rewrite ?Hsplit; try lia.
  - rewrite Hm. nia.
  - assert (Hpow : 2 ^ (dx - 53) <= 2 ^ 53) by (apply Z.pow_le_mono_r; lia).
    rewrite Hm.
    set (X := Zpos p * t).
    assert (HX : 0 <= X <= (10 * q + 9) * t) by (unfold X; nia).
    assert (H1 : 10 * (X * M) = X * (2 ^ 56 + 4)) by (rewrite <- HM; ring).
    assert (H2 : X * (2 ^ 56 + 4) <= (10 * q + 9) * t * (2 ^ 56 + 4))
      by (apply Z.mul_le_mono_nonneg_r; lia).
    assert (H3 : (10 * q + 10) * 2 ^ 56 * t
                 = (10 * q + 9) * t * (2 ^ 56 + 4) + t * (2 ^ 56 - 40 * q - 36)) by ring.
    assert (H4 : 2 * (3 * 2 ^ 54 - 32) <= t * (2 ^ 56 - 40 * q - 36)).
    { apply Z.mul_le_mono_nonneg; lia. }
    assert (H5 : (q + 1) * (2 ^ 56 * t) * 10 = (10 * q + 10) * 2 ^ 56 * t) by ring.
    change (2 ^ 54) with (2 * 2 ^ 53) in H4. lia.
Qed.


End Binary64.

(** The literal [0.10] is the correctly rounded quotient of 1 by 10. *)
Lemma lit_0_10_is_one_tenth : lit_0_10 = div (of_Z 1) (of_Z 10).
Proof. vm_compute. reflexivity. Qed.

(** The fee of a pot within 2^52 is its integer tenth, which is the floor of
    the exact product by one tenth. *)
Lemma platformFee_exact (totalPot : Z) :
  0 <= totalPot < 2 ^ 52 ->
  platformFee totalPot = totalPot / 10
  /\ platformFee totalPot = Qfloor (inject_Z totalPot * (1 # 10)).
Proof.
  intros H. unfold platformFee. rewrite floor_mul_lit_0_10 by assumption.
  split; [reflexivity|].
  unfold Qfloor, Qmult, inject_Z. cbn [Qnum Qden].
  now rewrite Z.mul_1_r.
Qed.

(** * Rating calculator *)

(** C6: [updateElo] is the logistic Elo update with K = 32,
    newWinner = round(w + K * (1 - expected(w, l))) and
    newLoser = round(l + K * (0 - expected(l, w))) with
    expected(a, b) = 1 / (1 + 10^((b - a) / 400)), whatever the engine's
    approximation of the power; for 1200 against 1200 it yields 1216 and
    1184. *)
Theorem updateElo_logistic (pow_approx : Number -> Number -> Number)
    (winnerRating loserRating : Number) :
  updateElo pow_approx winnerRating loserRating
    = logistic_elo pow_approx winnerRating loserRating
  /\ updateElo pow_approx (of_Z 1200) (of_Z 1200) = (of_Z 1216, of_Z 1184).
Proof.
  split.
  - reflexivity.
  - vm_compute. reflexivity.
Qed.

(** * Settlement amounts *)

(** For a positive stake below 2^51 the fee, computed in binary64, is the
    integer tenth of the pot and lies between zero and the pot: neither the
    fee nor what is left for the players is negative. *)
Lemma platformFee_bounds (stake : Z) :
  0 < stake < 2 ^ 51 ->
  platformFee (stake * 2) = stake * 2 / 10
  /\ 0 <= platformFee (stake * 2) <= stake * 2.
Proof.
  intros H.
  assert (Hpot : 0 <= stake * 2 < 2 ^ 52) by (change (2 ^ 52) with (2 ^ 51 * 2); lia).
  destruct (platformFee_exact _ Hpot) as [-> _]. split; [reflexivity|].
  pose proof (Z.mul_div_le (stake * 2) 10 ltac:(lia)).
  assert (0 <= stake * 2 / 10) by (apply Z.div_pos; lia). lia.
Qed.

(** C2: for a positive stake below 2^51, as every stake covered by an
    INTEGER balance is, a decisive settlement credits the winner [winnerTake]
    and, in real mode, the platform [fee], where winnerTake + fee = stake * 2
    and fee = floor(stake * 2 * 0.10), the floor of the exact product. *)
Theorem decisive_settlement_amounts (pow_approx : Number -> Number -> Number)
    (roomId : string) (room : Room.t) (winnerSocketId : option string)
    (reason : string) :
  reason <> "draw" ->
  0 < Room.stake room < 2 ^ 51 ->
  let fee := platformFee (Room.stake room * 2) in
  let winnerTake := Room.stake room * 2 - fee in
  let winner := if decide (winnerSocketId = Some (Player.id (Room.p1 room)))
                then Room.p1 room else Room.p2 room in
  (exists e rest,
      settlement pow_approx roomId room winnerSocketId reason
      = Q (CreditBalanceElo (balCol (Room.mode room)) winnerTake e (Player.userId winner))
          :: rest
      /\ (Room.mode room = "real" -> Q (CreditAdminWallet fee) ∈ rest)
      /\ Emit (to_room roomId) (match_result (Player.userId winner) winnerTake reason) ∈ rest)
  /\ winnerTake + fee = Room.stake room * 2
  /\ fee = Qfloor (inject_Z (Room.stake room * 2) * (1 # 10)).
Proof.
  intros Hreason Hstake fee winnerTake winner.
  assert (Hpot : 0 <= Room.stake room * 2 < 2 ^ 52)
    by (change (2 ^ 52) with (2 ^ 51 * 2); lia).
  split; [|split].
  - unfold settlement. rewrite bool_decide_eq_false_2 by assumption.
    fold fee winnerTake winner. eexists _, _. split; [reflexivity|]. split.
    + intros Hreal. destruct (decide (Room.mode room = "real")); [|done].
      cbn [app]. rewrite !elem_of_cons. auto.
    + destruct (decide (Room.mode room = "real")); cbn [app];
        rewrite !elem_of_cons; auto 6.
  - unfold winnerTake. lia.
  - apply platformFee_exact, Hpot.
Qed.

(** On the room with a stake of 100: the fee is 20 and the winner takes 180. *)
Lemma decisive_settlement_amounts_witness :
  "regular" <> "draw"
  /\ 0 < Room.stake room_100 < 2 ^ 51
  /\ (Room.stake room_100 * 2 - platformFee (Room.stake room_100 * 2))
     + platformFee (Room.stake room_100 * 2) = Room.stake room_100 * 2
  /\ platformFee (Room.stake room_100 * 2) = 20.
Proof.
  assert (Hr : "regular" <> "draw") by discriminate.
  assert (Hs : 0 < Room.stake room_100 < 2 ^ 51) by (cbn; split; reflexivity).
  split; [exact Hr|]. split; [exact Hs|].
  pose proof (decisive_settlement_amounts pow_unused "pub_1700000000000" room_100
                (Some "sockA") "regular" Hr Hs) as (_ & Hsum & Hfee).
  split; [exact Hsum|]. rewrite Hfee. reflexivity.
Defined.

(** C3, as the code has it, for a positive stake below 2^51: in a draw each
    player is refunded floor((2 * stake - fee) / 2) with
    fee = floor(2 * stake * 0.10), and 2 * refund + fee is stake * 2 when the
    fee is even and stake * 2 - 1 when it is odd: the floor drops one unit of
    an odd remainder. *)
Theorem draw_settlement_amounts (pow_approx : Number -> Number -> Number)
    (roomId : string) (room : Room.t) (winnerSocketId : option string) :
  0 < Room.stake room < 2 ^ 51 ->
  let fee := platformFee (Room.stake room * 2) in
  let refund := (Room.stake room * 2 - fee) / 2 in
  settlement pow_approx roomId room winnerSocketId "draw"
    = [Q (CreditBalanceIn (balCol (Room.mode room)) refund
            (Player.userId (Room.p1 room)) (Player.userId (Room.p2 room)))]
      ++ (if decide (Room.mode room = "real") then [Q (CreditAdminWallet fee)] else [])
      ++ [Emit (to_room roomId) (match_result_draw refund)]
  /\ fee = Qfloor (inject_Z (Room.stake room * 2) * (1 # 10))
  /\ 2 * refund + fee = Room.stake room * 2 - fee mod 2
  /\ Room.stake room * 2 - 1 <= 2 * refund + fee <= Room.stake room * 2.
Proof.
  intros Hstake fee refund.
  assert (Hpot : 0 <= Room.stake room * 2 < 2 ^ 52)
    by (change (2 ^ 52) with (2 ^ 51 * 2); lia).
  assert (Hsum : 2 * refund + fee = Room.stake room * 2 - fee mod 2).
  { unfold refund.
    pose proof (Z.div_mod (Room.stake room * 2 - fee) 2 ltac:(lia)) as Hdm.
    assert (Hmod : (Room.stake room * 2 - fee) mod 2 = fee mod 2).
    { replace (Room.stake room * 2 - fee) with (- fee + Room.stake room * 2) by lia.
      rewrite Z.mod_add by lia.
      pose proof (Z.mod_pos_bound fee 2 ltac:(lia)).
      pose proof (Z.mod_pos_bound (- fee) 2 ltac:(lia)).
      pose proof (Z.div_mod fee 2 ltac:(lia)).
      pose proof (Z.div_mod (- fee) 2 ltac:(lia)). lia. }
    lia. }
  split; [reflexivity|]. split; [apply platformFee_exact, Hpot|]. split; [exact Hsum|].
  pose proof (Z.mod_pos_bound fee 2 ltac:(lia)). lia.
Qed.

(** On the room with a stake of 100: the fee of 20 is even and nothing is lost. *)
Lemma draw_settlement_amounts_witness :
  0 < Room.stake room_100 < 2 ^ 51
  /\ 2 * ((Room.stake room_100 * 2 - platformFee (Room.stake room_100 * 2)) / 2)
     + platformFee (Room.stake room_100 * 2)
     = Room.stake room_100 * 2 - platformFee (Room.stake room_100 * 2) mod 2.
Proof.
  assert (Hs : 0 < Room.stake room_100 < 2 ^ 51) by (cbn; split; reflexivity).
  split; [exact Hs|].
  pose proof (draw_settlement_amounts pow_unused "pub_1700000000000" room_100 None Hs)
    as (_ & _ & Hsum & _).
  exact Hsum.
Defined.

(** C3 as stated fails at a stake of 5: the pot is 10, the fee 1, each
    refund floor(9 / 2) = 4, and 2 * 4 + 1 = 9 is one short of the pot. *)
Lemma draw_stake_5_loses_a_unit :
  settlement pow_unused "pub_1700000000000" room_5 None "draw"
    = [Q (CreditBalanceIn real_balance 4 1 2); Q (CreditAdminWallet 1);
       Emit (to_room "pub_1700000000000") (match_result_draw 4)]
  /\ platformFee (5 * 2) = 1
  /\ (5 * 2 - platformFee (5 * 2)) / 2 = 4
  /\ 2 * ((5 * 2 - platformFee (5 * 2)) / 2) + platformFee (5 * 2) <> 5 * 2.
Proof. vm_compute. repeat split; discriminate. Qed.

(** * Lobby: creating and joining challenges *)

(** C4, as the code has it: [create_challenge] is rejected, with no
    challenge created, no table touched and the error sent to the requester,
    when the account is unknown or its balance in the mode's column is below
    the stake.  That is the only test: the sign of the stake is not
    examined. *)
Theorem create_challenge_rejected (now : N) (rnd socket : string) (userId : Z)
    (username : string) (stake : Z) (mode : string) (isPrivate : bool)
    (elo : Number) (s : InMemory.State) :
  match select_bal (balCol mode) userId (InMemory.db s) with
  | None => True
  | Some bal => bal < stake
  end ->
  let s' := InMemory.create_challenge now rnd socket userId username stake mode
              isPrivate elo s in
  InMemory.openChallenges s' = InMemory.openChallenges s
  /\ InMemory.activeRooms s' = InMemory.activeRooms s
  /\ InMemory.db s' = InMemory.db s
  /\ InMemory.outbox s'
     = InMemory.outbox s ++ [(to_socket socket, error "Salio Halitoshi!")].
Proof.
  intros Hbal s'. subst s'. unfold InMemory.create_challenge.
  destruct (select_bal (balCol mode) userId (InMemory.db s)) as [bal|].
  - apply Z.ltb_lt in Hbal. rewrite Hbal. repeat split.
  - repeat split.
Qed.

(** An unknown account 9 asks for a stake of -5 and is turned down. *)
Lemma create_challenge_rejected_witness :
  select_bal (balCol "demo") 9 db0 = None
  /\ InMemory.openChallenges
       (InMemory.create_challenge 1700000000000 "K3J9Q" "sockC" 9 "chausiku" (-5) "demo"
          false (of_Z 1200) lobby0) = []
  /\ InMemory.db
       (InMemory.create_challenge 1700000000000 "K3J9Q" "sockC" 9 "chausiku" (-5) "demo"
          false (of_Z 1200) lobby0) = db0
  /\ InMemory.outbox
       (InMemory.create_challenge 1700000000000 "K3J9Q" "sockC" 9 "chausiku" (-5) "demo"
          false (of_Z 1200) lobby0)
     = [(to_socket "sockC", error "Salio Halitoshi!")].
Proof.
  split; [reflexivity|].
  pose proof (create_challenge_rejected 1700000000000 "K3J9Q" "sockC" 9 "chausiku"
                (-5) "demo" false (of_Z 1200) lobby0 I) as (H1 & _ & H3 & H4).
  repeat split; assumption.
Defined.

(** An account that can afford the stake is served whatever the stake's
    sign. *)
Lemma create_challenge_accepted (now : N) (rnd socket : string) (userId : Z)
    (username : string) (stake : Z) (mode : string) (isPrivate : bool)
    (elo : Number) (s : InMemory.State) (bal : Z) :
  select_bal (balCol mode) userId (InMemory.db s) = Some bal ->
  stake <= bal ->
  let s' := InMemory.create_challenge now rnd socket userId username stake mode
              isPrivate elo s in
  InMemory.openChallenges s'
  = InMemory.openChallenges s
    ++ [Challenge.mk (newRoomId isPrivate rnd now) socket userId username stake mode
                     isPrivate elo]
  /\ select_bal (balCol mode) userId (InMemory.db s') = Some (bal - stake).
Proof.
  intros Hsel Hle s'. subst s'. unfold InMemory.create_challenge. rewrite Hsel.
  assert (Hlt : (bal <? stake) = false) by (apply Z.ltb_ge; lia). rewrite Hlt.
  assert (Hdb : select_bal (balCol mode) userId
                  (exec_query (DebitBalance (balCol mode) stake userId) (InMemory.db s))
                = Some (bal - stake)).
  { unfold select_bal in *. cbn [exec_query update_users users].
    rewrite lookup_alter_eq.
    destruct (users (InMemory.db s) !! userId) as [u|]; [|discriminate].
    cbn in *. f_equal. injection Hsel as <-.
    destruct (balCol mode); cbn; lia. }
  destruct isPrivate, (decide (mode = "real")); cbn; split; first [reflexivity | exact Hdb].
Qed.

(** C4 as stated fails at a stake of -100 on an account holding 50000: the
    challenge is listed, the balance rises to 50100 and no error is sent. *)
Lemma create_challenge_negative_stake_served :
  -100 <= 0
  /\ InMemory.openChallenges lobby_negative_stake
     = [Challenge.mk "pub_1700000000000" "sockA" 1 "amina" (-100) "demo" false (of_Z 1200)]
  /\ select_bal demo_balance 1 (InMemory.db lobby0) = Some 50000
  /\ select_bal demo_balance 1 (InMemory.db lobby_negative_stake) = Some 50100
  /\ Forall (fun te => forall m, te.2 <> error m) (InMemory.outbox lobby_negative_stake).
Proof.
  vm_compute. repeat split; try discriminate.
  repeat constructor; discriminate.
Qed.

(** C5: joining a challenge of one's own account fails with the self-join
    error sent to the requester; the challenge list, the rooms, the tables
    (hence both balances) and the sockets stay as they were. *)
Theorem join_challenge_self_join (socket : string) (userId : Z)
    (username roomId : string) (elo : Number) (s : InMemory.State)
    (challengeIndex : nat) (challenge : Challenge.t) :
  list_find (fun c => Challenge.roomId c = roomId) (InMemory.openChallenges s)
    = Some (challengeIndex, challenge) ->
  Challenge.userId challenge = userId ->
  let s' := InMemory.join_challenge socket userId username roomId elo s in
  InMemory.outbox s'
    = InMemory.outbox s ++ [(to_socket socket, error "Huwezi kucheza dhidi yako!")]
  /\ InMemory.openChallenges s' = InMemory.openChallenges s
  /\ InMemory.activeRooms s' = InMemory.activeRooms s
  /\ InMemory.db s' = InMemory.db s
  /\ InMemory.sockets s' = InMemory.sockets s.
Proof.
  intros Hfind Hself s'. subst s'. unfold InMemory.join_challenge.
  rewrite Hfind. destruct (decide (Challenge.userId challenge = userId)); [|done].
  repeat split.
Qed.

(** Account 1 tries to join its own public challenge from another socket. *)
Lemma join_challenge_self_join_witness :
  list_find (fun c => Challenge.roomId c = "pub_1700000000000")
            (InMemory.openChallenges lobby1)
    = Some (0%nat, Challenge.mk "pub_1700000000000" "sockA" 1 "amina" 100 "demo" false
                                (of_Z 1200))
  /\ InMemory.db (InMemory.join_challenge "sockB" 1 "amina" "pub_1700000000000"
                    (of_Z 1200) lobby1)
     = InMemory.db lobby1
  /\ InMemory.openChallenges
       (InMemory.join_challenge "sockB" 1 "amina" "pub_1700000000000" (of_Z 1200) lobby1)
     = InMemory.openChallenges lobby1
  /\ InMemory.outbox
       (InMemory.join_challenge "sockB" 1 "amina" "pub_1700000000000" (of_Z 1200) lobby1)
     = InMemory.outbox lobby1 ++ [(to_socket "sockB", error "Huwezi kucheza dhidi yako!")].
Proof.
  assert (Hfind : list_find (fun c => Challenge.roomId c = "pub_1700000000000")
                    (InMemory.openChallenges lobby1)
                  = Some (0%nat, Challenge.mk "pub_1700000000000" "sockA" 1 "amina" 100
                                              "demo" false (of_Z 1200)))
    by (vm_compute; reflexivity).
  split; [exact Hfind|].
  pose proof (join_challenge_self_join "sockB" 1 "amina" "pub_1700000000000" (of_Z 1200)
                lobby1 _ _ Hfind eq_refl) as (Hout & Hcs & _ & Hdb & _).
  repeat split; assumption.
Defined.

(** C9, as the code has it: the identifier of a public challenge is "pub_"
    followed by the decimal [Date.now()] of its creation and nothing else, so
    two public identifiers differ exactly when the two timestamps differ. *)
Theorem public_roomId_is_the_timestamp (rnd1 rnd2 : string) (now1 now2 : N) :
  newRoomId false rnd1 now1 = "pub_" +:+ pretty now1
  /\ (newRoomId false rnd1 now1 = newRoomId false rnd2 now2 <-> now1 = now2).
Proof.
  split; [reflexivity|]. unfold newRoomId. split.
  - intros H. apply (inj _) in H. apply (inj pretty) in H. exact H.
  - intros ->. reflexivity.
Qed.

(** C9 as stated fails when two accounts create public challenges within
    the same millisecond: both are listed under one identifier. *)
Lemma public_ids_collide_in_the_same_millisecond :
  Challenge.roomId <$> InMemory.openChallenges lobby_same_millisecond
    = ["pub_1700000000000"; "pub_1700000000000"]
  /\ Challenge.hostId <$> InMemory.openChallenges lobby_same_millisecond
     = ["sockA"; "sockB"]
  /\ newRoomId false "K3J9Q" 1700000000000 = newRoomId false "7XW2M" 1700000000000.
Proof. vm_compute. repeat split; reflexivity. Qed.

(** * Settlement in [server.js] *)

Lemma exec_queries_app (qs1 qs2 : list Query) (d : DB) :
  exec_queries (qs1 ++ qs2) d = exec_queries qs2 (exec_queries qs1 d).
Proof. unfold exec_queries. apply foldl_app. Qed.

Lemma mem_run_effects_state (es : list Effect) (s : InMemory.State) :
  InMemory.run_effects es s
  = InMemory.mkState (InMemory.openChallenges s) (InMemory.activeRooms s)
      (InMemory.sockets s) (exec_queries (queries_of es) (InMemory.db s))
      (InMemory.outbox s ++ events_of es).
Proof.
  revert s. induction es as [|e es IH]; intros s.
  - destruct s; cbn. now rewrite app_nil_r.
  - change (InMemory.run_effects (e :: es) s)
      with (InMemory.run_effects es (InMemory.run_effect e s)).
    rewrite IH. destruct e as [q|t ev]; cbn.
    + reflexivity.
    + now rewrite <- app_assoc.
Qed.

(** What a call on an open room leaves behind. *)
Lemma mem_handleGameOver_open (pow_approx : Number -> Number -> Number)
    (roomId : string) (winnerSocketId : option string) (reason : string)
    (s : InMemory.State) (room : Room.t) :
  InMemory.activeRooms s !! roomId = Some room ->
  Room.processed room = false ->
  InMemory.handleGameOver pow_approx roomId winnerSocketId reason s
  = InMemory.mkState (InMemory.openChallenges s) (delete roomId (InMemory.activeRooms s))
      (InMemory.sockets s)
      (exec_queries
         (queries_of (performed (settlement pow_approx roomId room winnerSocketId reason)))
         (InMemory.db s))
      (InMemory.outbox s
       ++ events_of (performed (settlement pow_approx roomId room winnerSocketId reason))).
Proof.
  intros Hroom Hopen. unfold InMemory.handleGameOver. rewrite Hroom, Hopen.
  rewrite mem_run_effects_state. cbn.
  now rewrite delete_insert_eq.
Qed.

(** A call on a room that is gone or already processed does nothing. *)
Lemma mem_handleGameOver_settled (pow_approx : Number -> Number -> Number)
    (roomId : string) (winnerSocketId : option string) (reason : string)
    (s : InMemory.State) :
  match InMemory.activeRooms s !! roomId with
  | None => True
  | Some room => Room.processed room = true
  end ->
  InMemory.handleGameOver pow_approx roomId winnerSocketId reason s = s.
Proof.
  intros H. unfold InMemory.handleGameOver.
  destruct (InMemory.activeRooms s !! roomId) as [room|]; [|reflexivity].
  now rewrite H.
Qed.

(** Calls that run one after the other: whatever their winners and reasons,
    every call after the first leaves the state as it found it. *)
Lemma mem_handleGameOver_once (pow_approx : Number -> Number -> Number)
    (roomId : string) (w1 w2 : option string) (r1 r2 : string) (s : InMemory.State) :
  InMemory.handleGameOver pow_approx roomId w2 r2
    (InMemory.handleGameOver pow_approx roomId w1 r1 s)
  = InMemory.handleGameOver pow_approx roomId w1 r1 s.
Proof.
  destruct (InMemory.activeRooms s !! roomId) as [room|] eqn:Hroom.
  - destruct (Room.processed room) eqn:Hp.
    + rewrite (mem_handleGameOver_settled _ _ w1 r1 s) by now rewrite Hroom.
      apply mem_handleGameOver_settled. now rewrite Hroom.
    + rewrite (mem_handleGameOver_open _ _ w1 r1 s room Hroom Hp).
      apply mem_handleGameOver_settled. cbn. now rewrite lookup_delete_eq.
  - rewrite (mem_handleGameOver_settled _ _ w1 r1 s) by now rewrite Hroom.
    apply mem_handleGameOver_settled. now rewrite Hroom.
Qed.

(** The reason of a decisive settlement only shows in the event. *)
Lemma settlement_queries_decisive (pow_approx : Number -> Number -> Number)
    (roomId : string) (room : Room.t) (winnerSocketId : option string)
    (r1 r2 : string) :
  r1 <> "draw" -> r2 <> "draw" ->
  queries_of (settlement pow_approx roomId room winnerSocketId r1)
  = queries_of (settlement pow_approx roomId room winnerSocketId r2).
Proof.
  intros H1 H2. unfold settlement.
  rewrite !bool_decide_eq_false_2 by assumption.
  destruct (decide (Room.mode room = "real")); reflexivity.
Qed.

Lemma settlement_events_decisive (pow_approx : Number -> Number -> Number)
    (roomId : string) (room : Room.t) (winnerSocketId : option string)
    (reason : string) :
  reason <> "draw" ->
  events_of (settlement pow_approx roomId room winnerSocketId reason)
  = [(to_room roomId,
      match_result
        (Player.userId (if decide (winnerSocketId = Some (Player.id (Room.p1 room)))
                        then Room.p1 room else Room.p2 room))
        (Room.stake room * 2 - platformFee (Room.stake room * 2)) reason)].
Proof.
  intros H. unfold settlement. rewrite bool_decide_eq_false_2 by assumption.
  destruct (decide (Room.mode room = "real")); reflexivity.
Qed.

(** ** What the store lets through of a settlement *)

Lemma performed_settlement (pow_approx : Number -> Number -> Number)
    (roomId : string) (room : Room.t) (winnerSocketId : option string)
    (reason : string) :
  reason = "draw" \/ ratings_storable pow_approx room winnerSocketId = true ->
  performed (settlement pow_approx roomId room winnerSocketId reason)
  = settlement pow_approx roomId room winnerSocketId reason.
Proof.
  unfold settlement, ratings_storable, new_ratings.
  destruct (decide (reason = "draw")) as [->|Hr].
  - intros _. cbn [bool_decide decide_rel].
    destruct (decide (Room.mode room = "real")); reflexivity.
  - intros [?|H]; [contradiction|]. rewrite bool_decide_eq_false_2 by assumption.
    apply andb_true_iff in H as [H1 H2].
    destruct (decide (Room.mode room = "real")); cbn [performed app accepted];
      cbn [fst snd] in H1, H2; now rewrite H1, H2.
Qed.

Lemma performed_settlement_queries (pow_approx : Number -> Number -> Number)
    (roomId : string) (room : Room.t) (winnerSocketId : option string)
    (r1 r2 : string) :
  r1 <> "draw" -> r2 <> "draw" ->
  queries_of (performed (settlement pow_approx roomId room winnerSocketId r1))
  = queries_of (performed (settlement pow_approx roomId room winnerSocketId r2)).
Proof.
  intros H1 H2. unfold settlement.
  rewrite !bool_decide_eq_false_2 by assumption.
  destruct (decide (Room.mode room = "real")); cbn [performed app accepted fst snd];
    repeat (destruct (storable _); cbn [performed app accepted andb]; try reflexivity).
Qed.

Lemma performed_settlement_events (pow_approx : Number -> Number -> Number)
    (roomId : string) (room : Room.t) (winnerSocketId : option string)
    (reason : string) :
  reason <> "draw" ->
  events_of (performed (settlement pow_approx roomId room winnerSocketId reason))
  = if ratings_storable pow_approx room winnerSocketId
    then [(to_room roomId,
           match_result
             (Player.userId (if decide (winnerSocketId = Some (Player.id (Room.p1 room)))
                             then Room.p1 room else Room.p2 room))
             (Room.stake room * 2 - platformFee (Room.stake room * 2)) reason)]
    else [].
Proof.
  intros H. unfold settlement, ratings_storable, new_ratings.
  rewrite bool_decide_eq_false_2 by assumption.
  destruct (decide (Room.mode room = "real")); cbn [performed app accepted fst snd];
    repeat (destruct (storable _); cbn [performed app accepted andb]; try reflexivity).
Qed.

(** * Session presence *)

Lemma list_find_delete_unique {A} (P : A -> Prop) `{forall x, Decision (P x)}
    (l : list A) (i : nat) (x : A) :
  list_find P l = Some (i, x) ->
  (forall j y, l !! j = Some y -> P y -> j = i) ->
  Forall (fun y => ~ P y) (delete i l).
Proof.
  intros Hfind Huniq. apply Forall_lookup. intros k y Hk Hy.
  destruct (decide (k < i)%nat) as [Hlt|Hge].
  - rewrite list_lookup_delete_lt in Hk by assumption.
    specialize (Huniq k y Hk Hy). lia.
  - rewrite list_lookup_delete_ge in Hk by lia.
    specialize (Huniq (S k) y Hk Hy). lia.
Qed.

(** [disconnect] served with nothing in between, for a socket that hosts an
    open challenge, not yet joined: the stake is credited back to the
    creator's column by a single query, the challenge leaves the list and the
    lobby broadcast made from it; if it was the socket's only challenge, none
    of the socket is left, and a repeated disconnect changes nothing. *)
Theorem disconnect_refunds_open_challenge (pow_approx : Number -> Number -> Number)
    (socket : string) (s : InMemory.State) (idx : nat) (c : Challenge.t) :
  list_find (fun c => Challenge.hostId c = socket) (InMemory.openChallenges s)
    = Some (idx, c) ->
  (forall roomId, InMemory.socket_roomId socket s = Some roomId ->
                  InMemory.activeRooms s !! roomId = None) ->
  let s' := InMemory.disconnect pow_approx socket s in
  let balCol := balCol (Challenge.mode c) in
  InMemory.db s'
    = exec_query (CreditBalance balCol (Challenge.stake c) (Challenge.userId c))
                 (InMemory.db s)
  /\ (forall bal, select_bal balCol (Challenge.userId c) (InMemory.db s) = Some bal ->
        select_bal balCol (Challenge.userId c) (InMemory.db s')
        = Some (bal + Challenge.stake c))
  /\ InMemory.openChallenges s' = delete idx (InMemory.openChallenges s)
  /\ InMemory.outbox s'
     = InMemory.outbox s
       ++ [(to_all, lobby_update (publicChallenges (delete idx (InMemory.openChallenges s))))]
  /\ InMemory.activeRooms s' = InMemory.activeRooms s
  /\ ((forall j c', InMemory.openChallenges s !! j = Some c' ->
                    Challenge.hostId c' = socket -> j = idx) ->
      Forall (fun c' => Challenge.hostId c' <> socket) (InMemory.openChallenges s')
      /\ (c ∉ InMemory.openChallenges s')
      /\ (c ∉ publicChallenges (InMemory.openChallenges s'))
      /\ InMemory.disconnect pow_approx socket s' = s').
Proof.
  intros Hfind Hroom s' col.
  assert (Hs' : s' = InMemory.mkState (delete idx (InMemory.openChallenges s))
                       (InMemory.activeRooms s) (InMemory.sockets s)
                       (exec_query (CreditBalance col (Challenge.stake c) (Challenge.userId c))
                                   (InMemory.db s))
                       (InMemory.outbox s
                        ++ [(to_all, lobby_update
                               (publicChallenges (delete idx (InMemory.openChallenges s))))])).
  { subst s'. unfold InMemory.disconnect. rewrite Hfind. cbn.
    unfold InMemory.socket_roomId in *. cbn.
    destruct (InMemory.sockets s !! socket) as [[roomId uid]|] eqn:Hsock; cbn; [|reflexivity].
    destruct (truthy roomId); [|reflexivity].
    now rewrite (Hroom roomId eq_refl). }
  rewrite Hs'. cbn. repeat split.
  - intros bal Hbal. unfold select_bal in *. cbn.
    rewrite lookup_alter_eq.
    destruct (users (InMemory.db s) !! Challenge.userId c) as [u|]; [|discriminate].
    cbn in *. injection Hbal as <-. f_equal. destruct col; reflexivity.
  - eapply list_find_delete_unique; eassumption.
  - intros Hin. assert (HF := list_find_delete_unique _ _ _ _ Hfind H).
    apply list_find_Some in Hfind as (_ & Hhost & _).
    rewrite Forall_forall in HF. exact (HF c Hin Hhost).
  - intros Hin. assert (HF := list_find_delete_unique _ _ _ _ Hfind H).
    apply list_find_Some in Hfind as (_ & Hhost & _).
    rewrite Forall_forall in HF. unfold publicChallenges in Hin.
    apply list_elem_of_filter in Hin as [_ Hin]. exact (HF c Hin Hhost).
  - assert (HF := list_find_delete_unique _ _ _ _ Hfind H).
    assert (HN : list_find (fun c => Challenge.hostId c = socket)
                   (delete idx (InMemory.openChallenges s)) = None)
      by (apply list_find_None; exact HF).
    unfold InMemory.disconnect. cbn. rewrite HN.
    unfold InMemory.socket_roomId in *. cbn.
    destruct (InMemory.sockets s !! socket) as [[roomId uid]|] eqn:Hsock; cbn; [|reflexivity].
    destruct (truthy roomId); [|reflexivity].
    now rewrite (Hroom roomId eq_refl).
Qed.

(** sockA disconnects while its challenge of 100 demo units is open. *)
Lemma disconnect_refunds_open_challenge_witness :
  list_find (fun c => Challenge.hostId c = "sockA") (InMemory.openChallenges lobby1)
    = Some (0%nat, Challenge.mk "pub_1700000000000" "sockA" 1 "amina" 100 "demo" false
                                (of_Z 1200))
  /\ select_bal demo_balance 1 (InMemory.db lobby1) = Some 49900
  /\ select_bal demo_balance 1 (InMemory.db (InMemory.disconnect pow_unused "sockA" lobby1))
     = Some (49900 + 100)
  /\ InMemory.openChallenges (InMemory.disconnect pow_unused "sockA" lobby1) = [].
Proof.
  assert (Hfind : list_find (fun c => Challenge.hostId c = "sockA")
                    (InMemory.openChallenges lobby1)
                  = Some (0%nat, Challenge.mk "pub_1700000000000" "sockA" 1 "amina" 100
                                              "demo" false (of_Z 1200)))
    by (vm_compute; reflexivity).
  split; [exact Hfind|]. split; [vm_compute; reflexivity|].
  pose proof (disconnect_refunds_open_challenge pow_unused "sockA" lobby1 _ _ Hfind
                ltac:(intros roomId H; vm_compute in H; injection H as <-;
                      vm_compute; reflexivity))
    as (_ & Hbal & Hcs & _).
  split.
  - apply Hbal. vm_compute. reflexivity.
  - rewrite Hcs. vm_compute. reflexivity.
Defined.

Lemma truthy_nonempty (s : string) : s <> "" -> truthy s = true.
Proof. intros H. unfold truthy. now rewrite bool_decide_eq_false_2. Qed.

(** * The winner of [game_over] *)

(** [game_over] with any winner other than "me" passes [null] on, and
    [handleGameOver] takes whoever is not [p1] for [p2]: whichever
    participant sent the event, it is [p2] that is announced as winner, when
    the store takes the two new ratings; when it rejects one, nothing is
    announced. *)
Lemma game_over_opponent_credits_p2 (pow_approx : Number -> Number -> Number)
    (socket : string) (s : InMemory.State) (roomId : string) (room : Room.t) :
  InMemory.socket_roomId socket s = Some roomId ->
  InMemory.activeRooms s !! roomId = Some room ->
  Room.processed room = false ->
  InMemory.game_over pow_approx socket "opponent" s
    = InMemory.handleGameOver pow_approx roomId None "regular" s
  /\ InMemory.outbox (InMemory.game_over pow_approx socket "opponent" s)
     = InMemory.outbox s
       ++ (if ratings_storable pow_approx room None
           then [(to_room roomId,
                  match_result (Player.userId (Room.p2 room))
                    (Room.stake room * 2 - platformFee (Room.stake room * 2))
                    "regular")]
           else []).
Proof.
  intros Hsock Hroom Hopen.
  assert (Hcall : InMemory.game_over pow_approx socket "opponent" s
                  = InMemory.handleGameOver pow_approx roomId None "regular" s).
  { unfold InMemory.game_over. rewrite Hsock. reflexivity. }
  split; [exact Hcall|]. rewrite Hcall.
  rewrite (mem_handleGameOver_open _ _ _ _ s room Hroom Hopen). cbn [InMemory.outbox].
  now rewrite performed_settlement_events by discriminate.
Qed.

(** C10 on the running match: sockB, the joiner in slot p2, reports
    [game_over] with winner "opponent".  Its own account 2 receives the 180
    and the winner's rating 1216; account 1 of its opponent receives the
    loser's rating 1184 and no payout. *)
Theorem game_over_opponent_from_p2_pays_the_sender :
  InMemory.activeRooms table2 !! "pub_1700000000000" = Some room_100
  /\ users (InMemory.db table2) !! 1 = Some (mkUserRow 900 50000 (of_Z 1200))
  /\ users (InMemory.db table2) !! 2 = Some (mkUserRow 900 50000 (of_Z 1200))
  /\ users (InMemory.db table2_p2_concedes) !! 1 = Some (mkUserRow 900 50000 (of_Z 1184))
  /\ users (InMemory.db table2_p2_concedes) !! 2 = Some (mkUserRow 1080 50000 (of_Z 1216))
  /\ payouts_announced (InMemory.outbox table2_p2_concedes) = [(2, 180)].
Proof. vm_compute. repeat split; reflexivity. Qed.

(** * Settlement in the stateless revision *)

Lemma redis_run_effects_state (es : list Effect) (s : Redis.State) :
  Redis.run_effects es s
  = Redis.mkState (Redis.openChallenges s) (Redis.activeRooms s)
      (Redis.sockets s) (exec_queries (queries_of es) (Redis.db s))
      (Redis.outbox s ++ events_of es).
Proof.
  revert s. induction es as [|e es IH]; intros s.
  - destruct s; cbn. now rewrite app_nil_r.
  - change (Redis.run_effects (e :: es) s)
      with (Redis.run_effects es (Redis.run_effect e s)).
    rewrite IH. destruct e as [q|t ev]; cbn.
    + reflexivity.
    + now rewrite <- app_assoc.
Qed.

Lemma hGet_hDel {V} (h : Redis.Hash V) (field : string) :
  Redis.hGet (Redis.hDel h field) field = None.
Proof.
  unfold Redis.hDel. induction h as [|[k v] h IH]; [reflexivity|].
  rewrite filter_cons. cbn [fst]. destruct (decide (k <> field)) as [Hne|Heq].
  - cbn. now destruct (decide (k = field)).
  - exact IH.
Qed.

Lemma hDel_hSet {V} (h : Redis.Hash V) (field : string) (value : V) :
  Redis.hDel (Redis.hSet h field value) field = Redis.hDel h field.
Proof.
  unfold Redis.hDel. induction h as [|[k v] h IH]; cbn [Redis.hSet].
  - rewrite filter_cons. cbn [fst].
    destruct (decide (field <> field)); [congruence|reflexivity].
  - destruct (decide (k = field)) as [->|Hne].
    + rewrite !filter_cons. cbn [fst].
      destruct (decide (field <> field)); [congruence|reflexivity].
    + rewrite !filter_cons. cbn [fst].
      destruct (decide (k <> field)); [|congruence]. now rewrite IH.
Qed.

Lemma redis_handleGameOver_open (pow_approx : Number -> Number -> Number)
    (roomId : string) (winnerSocketId : option string) (reason : string)
    (s : Redis.State) (room : Room.t) :
  Redis.hGet (Redis.activeRooms s) roomId = Some room ->
  Room.processed room = false ->
  Redis.handleGameOver pow_approx roomId winnerSocketId reason s
  = Redis.mkState (Redis.openChallenges s) (Redis.hDel (Redis.activeRooms s) roomId)
      (Redis.sockets s)
      (exec_queries
         (queries_of (performed (settlement pow_approx roomId (Room.set_processed room)
                                   winnerSocketId reason)))
         (Redis.db s))
      (Redis.outbox s
       ++ events_of (performed (settlement pow_approx roomId (Room.set_processed room)
                                  winnerSocketId reason))).
Proof.
  intros Hroom Hopen. unfold Redis.handleGameOver. rewrite Hroom, Hopen.
  rewrite redis_run_effects_state. unfold Redis.set_activeRooms.
  cbn [Redis.activeRooms Redis.openChallenges Redis.sockets Redis.db Redis.outbox].
  now rewrite hDel_hSet.
Qed.

Lemma redis_handleGameOver_settled (pow_approx : Number -> Number -> Number)
    (roomId : string) (winnerSocketId : option string) (reason : string)
    (s : Redis.State) :
  match Redis.hGet (Redis.activeRooms s) roomId with
  | None => True
  | Some room => Room.processed room = true
  end ->
  Redis.handleGameOver pow_approx roomId winnerSocketId reason s = s.
Proof.
  intros H. unfold Redis.handleGameOver.
  destruct (Redis.hGet (Redis.activeRooms s) roomId) as [room|]; [|reflexivity].
  now rewrite H.
Qed.

(** In the stateless revision too, calls that run one after the other settle
    once. *)
Lemma redis_handleGameOver_once (pow_approx : Number -> Number -> Number)
    (roomId : string) (w1 w2 : option string) (r1 r2 : string) (s : Redis.State) :
  Redis.handleGameOver pow_approx roomId w2 r2
    (Redis.handleGameOver pow_approx roomId w1 r1 s)
  = Redis.handleGameOver pow_approx roomId w1 r1 s.
Proof.
  destruct (Redis.hGet (Redis.activeRooms s) roomId) as [room|] eqn:Hroom.
  - destruct (Room.processed room) eqn:Hp.
    + rewrite (redis_handleGameOver_settled _ _ w1 r1 s) by now rewrite Hroom.
      apply redis_handleGameOver_settled. now rewrite Hroom.
    + rewrite (redis_handleGameOver_open _ _ w1 r1 s room Hroom Hp).
      apply redis_handleGameOver_settled. cbn [Redis.activeRooms].
      now rewrite hGet_hDel.
  - rewrite (redis_handleGameOver_settled _ _ w1 r1 s) by now rewrite Hroom.
    apply redis_handleGameOver_settled. now rewrite Hroom.
Qed.

(** Two overlapping calls on an open room: when both [hGet]s are answered
    before either [hSet], both calls pass the test of [processed] and each
    goes on to apply its own settlement. *)
Lemma redis_overlapping_calls_both_pass (pow_approx : Number -> Number -> Number)
    (roomId : string) (room : Room.t) (w1 w2 : option string) (r1 r2 : string)
    (s : Redis.State) :
  Redis.hGet (Redis.activeRooms s) roomId = Some room ->
  Room.processed room = false ->
  (Redis.run pow_approx [0; 1; 0; 1]%nat
     ([Redis.Called roomId w1 r1; Redis.Called roomId w2 r2], s)).1
  = [Redis.Awaiting roomId (settlement pow_approx roomId (Room.set_processed room) w1 r1);
     Redis.Awaiting roomId (settlement pow_approx roomId (Room.set_processed room) w2 r2)].
Proof.
  intros Hroom Hopen. unfold Redis.run. cbn [foldl].
  unfold Redis.resume at 4. cbn [fst snd lookup list_lookup Redis.step_task].
  rewrite Hroom. cbn [insert list_insert].
  unfold Redis.resume at 3. cbn [fst snd lookup list_lookup Redis.step_task].
  rewrite Hroom. cbn [insert list_insert].
  unfold Redis.resume at 2. cbn [fst snd lookup list_lookup Redis.step_task].
  rewrite Hopen. cbn [insert list_insert].
  unfold Redis.resume. cbn [fst snd lookup list_lookup Redis.step_task].
  rewrite Hopen. reflexivity.
Qed.

(** C1 on the running match of the stateless revision: both players report
    a win and the two calls overlap.  Either call reads the room before the
    other has written [processed], so both settle: each account is credited
    180 out of a pot of 200, the platform takes its fee of 20 twice, and two
    results are announced. *)
Theorem redis_overlapping_calls_settle_twice :
  Redis.hGet (Redis.activeRooms rtable2) "pub_1700000000000" = Some room_100
  /\ users (Redis.db rtable2) !! 1 = Some (mkUserRow 900 50000 (of_Z 1200))
  /\ users (Redis.db rtable2) !! 2 = Some (mkUserRow 900 50000 (of_Z 1200))
  /\ admin_wallet (Redis.db rtable2) = 0
  /\ race_outcome.1 = [Redis.Returned; Redis.Returned]
  /\ row_real_balance <$> users (Redis.db race_outcome.2) !! 1 = Some 1080
  /\ row_real_balance <$> users (Redis.db race_outcome.2) !! 2 = Some 1080
  /\ admin_wallet (Redis.db race_outcome.2) = 40
  /\ payouts_announced (Redis.outbox race_outcome.2) = [(1, 180); (2, 180)].
Proof. vm_compute. repeat split; reflexivity. Qed.

(** * Overlapping calls of [handleGameOver] in [server.js]

    The test of [processed] and its assignment run without an [await] in
    between, so that however the calls on a room interleave, one of them
    settles and the others return at once. *)
Section OneRoomFacts.
Variable pow_approx : Number -> Number -> Number.
Variables (roomId : string) (room : Room.t) (s0 : InMemory.State).
Variable calls : list (option string * string).
Hypothesis room_stored : InMemory.activeRooms s0 !! roomId = Some room.
Hypothesis room_open : Room.processed room = false.

Let Settling := settling pow_approx roomId room s0 calls.
Let Bystanders := bystanders roomId calls.

Lemma bystanders_insert_self (i : nat) (ts : list InMemory.Task) (t : InMemory.Task) :
  Bystanders i ts -> Bystanders i (<[i := t]> ts).
Proof.
  intros [Hlen Hothers]. split.
  - now rewrite length_insert.
  - intros j t' Hj Ht'. rewrite list_lookup_insert_ne in Ht' by congruence.
    now apply Hothers.
Qed.

Lemma bystanders_insert_returned (i k : nat) (ts : list InMemory.Task) :
  Bystanders i ts -> Bystanders i (<[k := InMemory.Returned]> ts).
Proof.
  intros [Hlen Hothers]. split.
  - now rewrite length_insert.
  - intros j t' Hj Ht'. destruct (decide (k = j)) as [->|Hkj].
    + apply list_lookup_insert_Some in Ht' as [(_ & <- & _)|[? _]]; [now left | congruence].
    + rewrite list_lookup_insert_ne in Ht' by assumption. now apply Hothers.
Qed.

Lemma calls_on_lookup (k : nat) (t : InMemory.Task) :
  calls_on roomId calls !! k = Some t ->
  exists w r, calls !! k = Some (w, r) /\ t = InMemory.Called roomId w r.
Proof.
  unfold calls_on. rewrite list_lookup_fmap.
  destruct (calls !! k) as [[w r]|]; [|discriminate].
  intros [= <-]. now exists w, r.
Qed.

(** A call dispatched while another one settles, or after it, returns at
    once and leaves the state alone. *)
Lemma late_call_returns (w : option string) (r : string) (s : InMemory.State) :
  match InMemory.activeRooms s !! roomId with
  | None => True
  | Some room' => Room.processed room' = true
  end ->
  InMemory.step_task pow_approx (InMemory.Called roomId w r) s = (InMemory.Returned, s).
Proof.
  intros H. cbn [InMemory.step_task].
  destruct (InMemory.activeRooms s !! roomId) as [room'|]; [|reflexivity].
  now rewrite H.
Qed.

Lemma settling_resume (k : nat) (c : list InMemory.Task * InMemory.State) :
  Settling c -> Settling (InMemory.resume pow_approx k c).
Proof.
  intros H. destruct H as [|i w r done todo ts Hcall Hsplit Hi Hby|i w r ts Hcall Hi Hby];
    unfold InMemory.resume; cbn [fst snd].
  - (* the first dispatch *)
    destruct (calls_on roomId calls !! k) as [t|] eqn:Hk; [|constructor].
    destruct (calls_on_lookup _ _ Hk) as (w & r & Hcall & ->).
    cbn [InMemory.step_task]. rewrite room_stored, room_open.
    apply (in_progress pow_approx roomId room s0 calls k w r []
             (settlement pow_approx roomId room w r)); try done.
    + apply list_lookup_insert_eq. apply lookup_lt_Some in Hk. exact Hk.
    + split.
      * rewrite length_insert. unfold calls_on. now rewrite length_fmap.
      * intros j t Hj Ht. rewrite list_lookup_insert_ne in Ht by congruence. now right.
  - (* a settlement is under way *)
    destruct (decide (k = i)) as [->|Hki].
    + rewrite Hi. destruct todo as [|[q|t ev] todo]; cbn [InMemory.step_task].
      * cbn [performed] in Hsplit. rewrite app_nil_r in Hsplit.
        replace (InMemory.set_activeRooms _ _)
          with (InMemory.handleGameOver pow_approx roomId w r s0).
        { apply (completed pow_approx roomId room s0 calls i w r); try done.
          - apply list_lookup_insert_eq. apply lookup_lt_Some in Hi. exact Hi.
          - now apply bystanders_insert_self. }
        rewrite (mem_handleGameOver_open _ _ _ _ s0 room room_stored room_open).
        rewrite Hsplit, mem_run_effects_state. cbn.
        now rewrite delete_insert_eq.
      * cbn [performed] in Hsplit. destruct (accepted q).
        { replace (InMemory.query q (InMemory.run_effects done (marked roomId room s0)))
            with (InMemory.run_effects (done ++ [Q q]) (marked roomId room s0))
            by (unfold InMemory.run_effects; now rewrite foldl_app).
          apply (in_progress pow_approx roomId room s0 calls i w r (done ++ [Q q]) todo);
            try done.
          - now rewrite <- app_assoc.
          - apply list_lookup_insert_eq. apply lookup_lt_Some in Hi. exact Hi.
          - now apply bystanders_insert_self. }
        { apply (in_progress pow_approx roomId room s0 calls i w r done []); try done.
          - apply list_lookup_insert_eq. apply lookup_lt_Some in Hi. exact Hi.
          - now apply bystanders_insert_self. }
      * cbn [performed] in Hsplit.
        replace (InMemory.emit t ev (InMemory.run_effects done (marked roomId room s0)))
          with (InMemory.run_effects (done ++ [Emit t ev]) (marked roomId room s0))
          by (unfold InMemory.run_effects; now rewrite foldl_app).
        apply (in_progress pow_approx roomId room s0 calls i w r (done ++ [Emit t ev]) todo);
          try done.
        { now rewrite <- app_assoc. }
        { apply list_lookup_insert_eq. apply lookup_lt_Some in Hi. exact Hi. }
        { now apply bystanders_insert_self. }
    + destruct (ts !! k) as [t|] eqn:Hk; [|econstructor; eassumption].
      assert (Hstep : InMemory.step_task pow_approx t
                        (InMemory.run_effects done (marked roomId room s0))
                      = (InMemory.Returned, InMemory.run_effects done (marked roomId room s0))).
      { destruct (proj2 Hby k t Hki Hk) as [->|Hcalled]; [reflexivity|].
        destruct (calls_on_lookup _ _ Hcalled) as (w' & r' & _ & ->).
        apply late_call_returns. rewrite mem_run_effects_state. cbn.
        now rewrite lookup_insert_eq. }
      rewrite Hstep.
      apply (in_progress pow_approx roomId room s0 calls i w r done todo); try done.
      * now rewrite list_lookup_insert_ne by assumption.
      * now apply bystanders_insert_returned.
  - (* the settlement is over *)
    destruct (ts !! k) as [t|] eqn:Hk; [|econstructor; eassumption].
    assert (Hstep : InMemory.step_task pow_approx t
                      (InMemory.handleGameOver pow_approx roomId w r s0)
                    = (InMemory.Returned, InMemory.handleGameOver pow_approx roomId w r s0)).
    { destruct (decide (k = i)) as [->|Hki].
      - rewrite Hi in Hk. now injection Hk as <-.
      - destruct (proj2 Hby k t Hki Hk) as [->|Hcalled]; [reflexivity|].
        destruct (calls_on_lookup _ _ Hcalled) as (w' & r' & _ & ->).
        apply late_call_returns.
        rewrite (mem_handleGameOver_open _ _ _ _ s0 room room_stored room_open). cbn.
        now rewrite lookup_delete_eq. }
    rewrite Hstep.
    apply (completed pow_approx roomId room s0 calls i w r); try done.
    + destruct (decide (k = i)) as [->|Hki].
      * apply list_lookup_insert_eq. apply lookup_lt_Some in Hi. exact Hi.
      * now rewrite list_lookup_insert_ne by assumption.
    + now apply bystanders_insert_returned.
Qed.

Lemma settling_run (schedule : list nat) (c : list InMemory.Task * InMemory.State) :
  Settling c -> Settling (InMemory.run pow_approx schedule c).
Proof.
  revert c. induction schedule as [|k schedule IH]; intros c Hc; [exact Hc|].
  apply IH, settling_resume, Hc.
Qed.

(** However the calls on an open room of [server.js] are interleaved, once
    all have returned the state is the one a single call leaves: one
    settlement was applied, that of one of the calls. *)
Lemma mem_overlapping_calls_settle_once (schedule : list nat) :
  calls <> [] ->
  let c := InMemory.run pow_approx schedule (calls_on roomId calls, s0) in
  Forall (fun t => t = InMemory.Returned) c.1 ->
  exists w r, (w, r) ∈ calls
              /\ c.2 = InMemory.handleGameOver pow_approx roomId w r s0.
Proof.
  intros Hne c Hall.
  assert (Hc : Settling c) by (apply settling_run; constructor).
  destruct c as [ts s]. cbn [fst snd] in *.
  inversion Hc as [Hts|i w r done todo ts' Hcall Hsplit Hi Hby|i w r ts' Hcall Hi Hby]; subst.
  - destruct calls as [|[w r] calls']; [congruence|].
    apply Forall_cons in Hall as [Habs _]. discriminate.
  - rewrite Forall_lookup in Hall. specialize (Hall i _ Hi). discriminate.
  - exists w, r. split; [|reflexivity]. eapply list_elem_of_lookup_2, Hcall.
Qed.
End OneRoomFacts.

(** * A call stepped on its own

    Stepping one call to its end with nothing in between is the function
    [handleGameOver] of either revision. *)

Lemma mem_run_returned (pow_approx : Number -> Number -> Number) (n : nat)
    (s : InMemory.State) :
  InMemory.run pow_approx (replicate n 0%nat) ([InMemory.Returned], s)
  = ([InMemory.Returned], s).
Proof. induction n as [|n IH]; [reflexivity|exact IH]. Qed.

Lemma mem_run_awaiting (pow_approx : Number -> Number -> Number) (roomId : string)
    (todo : list Effect) (s : InMemory.State) :
  InMemory.run pow_approx (replicate (S (length todo)) 0%nat)
    ([InMemory.Awaiting roomId todo], s)
  = ([InMemory.Returned],
     InMemory.set_activeRooms
       (delete roomId (InMemory.activeRooms (InMemory.run_effects (performed todo) s)))
       (InMemory.run_effects (performed todo) s)).
Proof.
  revert s. induction todo as [|[q|t ev] todo IH]; intros s; [reflexivity|..].
  - cbn [performed]. destruct (accepted q) eqn:Hq.
    + change (InMemory.run_effects (Q q :: performed todo) s)
        with (InMemory.run_effects (performed todo) (InMemory.query q s)).
      rewrite <- (IH (InMemory.query q s)).
      change (replicate (S (length (Q q :: todo))) 0%nat)
        with (0%nat :: replicate (S (length todo)) 0%nat).
      cbn [InMemory.run foldl]. f_equal.
      unfold InMemory.resume. cbn. now rewrite Hq.
    + change (replicate (S (length (Q q :: todo))) 0%nat)
        with (0%nat :: 0%nat :: replicate (length todo) 0%nat).
      cbn [InMemory.run foldl].
      unfold InMemory.resume at 2. cbn. rewrite Hq.
      unfold InMemory.resume at 1. cbn.
      apply (mem_run_returned pow_approx).
  - cbn [performed].
    change (InMemory.run_effects (Emit t ev :: performed todo) s)
      with (InMemory.run_effects (performed todo) (InMemory.emit t ev s)).
    rewrite <- (IH (InMemory.emit t ev s)). reflexivity.
Qed.

Lemma mem_run_alone (pow_approx : Number -> Number -> Number) (roomId : string)
    (w : option string) (r : string) (s : InMemory.State) :
  exists n,
    InMemory.run pow_approx (replicate n 0%nat) ([InMemory.Called roomId w r], s)
    = ([InMemory.Returned], InMemory.handleGameOver pow_approx roomId w r s).
Proof.
  unfold InMemory.handleGameOver.
  destruct (InMemory.activeRooms s !! roomId) as [room|] eqn:Hroom.
  - destruct (Room.processed room) eqn:Hp.
    + exists 1%nat. cbn. unfold InMemory.resume. cbn. now rewrite Hroom, Hp.
    + exists (S (S (length (settlement pow_approx roomId room w r)))).
      rewrite <- (mem_run_awaiting pow_approx).
      change (replicate (S (S ?n)) 0%nat) with (0%nat :: replicate (S n) 0%nat).
      cbn [InMemory.run foldl]. f_equal.
      unfold InMemory.resume. cbn. now rewrite Hroom, Hp.
  - exists 1%nat. cbn. unfold InMemory.resume. cbn. now rewrite Hroom.
Qed.

Lemma redis_run_returned (pow_approx : Number -> Number -> Number) (n : nat)
    (s : Redis.State) :
  Redis.run pow_approx (replicate n 0%nat) ([Redis.Returned], s)
  = ([Redis.Returned], s).
Proof. induction n as [|n IH]; [reflexivity|exact IH]. Qed.

Lemma redis_run_awaiting (pow_approx : Number -> Number -> Number) (roomId : string)
    (todo : list Effect) (s : Redis.State) :
  Redis.run pow_approx (replicate (S (length todo)) 0%nat)
    ([Redis.Awaiting roomId todo], s)
  = ([Redis.Returned],
     Redis.set_activeRooms
       (Redis.hDel (Redis.activeRooms (Redis.run_effects (performed todo) s)) roomId)
       (Redis.run_effects (performed todo) s)).
Proof.
  revert s. induction todo as [|[q|t ev] todo IH]; intros s; [reflexivity|..].
  - cbn [performed]. destruct (accepted q) eqn:Hq.
    + change (Redis.run_effects (Q q :: performed todo) s)
        with (Redis.run_effects (performed todo) (Redis.query q s)).
      rewrite <- (IH (Redis.query q s)).
      change (replicate (S (length (Q q :: todo))) 0%nat)
        with (0%nat :: replicate (S (length todo)) 0%nat).
      cbn [Redis.run foldl]. f_equal.
      unfold Redis.resume. cbn. now rewrite Hq.
    + change (replicate (S (length (Q q :: todo))) 0%nat)
        with (0%nat :: 0%nat :: replicate (length todo) 0%nat).
      cbn [Redis.run foldl].
      unfold Redis.resume at 2. cbn. rewrite Hq.
      unfold Redis.resume at 1. cbn.
      apply (redis_run_returned pow_approx).
  - cbn [performed].
    change (Redis.run_effects (Emit t ev :: performed todo) s)
      with (Redis.run_effects (performed todo) (Redis.emit t ev s)).
    rewrite <- (IH (Redis.emit t ev s)). reflexivity.
Qed.

Lemma redis_run_alone (pow_approx : Number -> Number -> Number) (roomId : string)
    (w : option string) (r : string) (s : Redis.State) :
  exists n,
    Redis.run pow_approx (replicate n 0%nat) ([Redis.Called roomId w r], s)
    = ([Redis.Returned], Redis.handleGameOver pow_approx roomId w r s).
Proof.
  unfold Redis.handleGameOver.
  destruct (Redis.hGet (Redis.activeRooms s) roomId) as [room|] eqn:Hroom.
  - destruct (Room.processed room) eqn:Hp.
    + exists 2%nat. cbn. unfold Redis.resume. cbn. now rewrite Hroom, Hp.
    + exists (S (S (S (length (settlement pow_approx roomId (Room.set_processed room) w r))))).
      rewrite <- (redis_run_awaiting pow_approx).
      change (replicate (S (S (S ?n))) 0%nat)
        with (0%nat :: 0%nat :: replicate (S n) 0%nat).
      cbn [Redis.run foldl]. f_equal.
      unfold Redis.resume. cbn. now rewrite Hroom, Hp.
  - exists 2%nat. cbn. unfold Redis.resume. cbn. now rewrite Hroom.
Qed.

(** * The same handlers in the stateless revision *)

Lemma redis_join_challenge_self_join (socket : string) (userId : Z)
    (username roomId : string) (elo : Number) (s : Redis.State)
    (challenge : Challenge.t) :
  Redis.hGet (Redis.openChallenges s) roomId = Some challenge ->
  Challenge.userId challenge = userId ->
  Redis.join_challenge socket userId username roomId elo s
  = Redis.emit (to_socket socket) (error "Huwezi kucheza dhidi yako!") s.
Proof.
  intros Hget Hself. unfold Redis.join_challenge. rewrite Hget.
  now destruct (decide (Challenge.userId challenge = userId)).
Qed.

Lemma redis_create_challenge_rejected (now : N) (rnd socket : string) (userId : Z)
    (username : string) (stake : Z) (mode : string) (isPrivate : bool)
    (elo : Number) (s : Redis.State) :
  match select_bal (balCol mode) userId (Redis.db s) with
  | None => True
  | Some bal => bal < stake
  end ->
  Redis.create_challenge now rnd socket userId username stake mode isPrivate elo s
  = Redis.emit (to_socket socket) (error "Salio Halitoshi!") s.
Proof.
  intros Hbal. unfold Redis.create_challenge.
  destruct (select_bal (balCol mode) userId (Redis.db s)) as [bal|]; [|reflexivity].
  apply Z.ltb_lt in Hbal. now rewrite Hbal.
Qed.

(** The stateless [disconnect] served with nothing in between, for a socket
    that hosts an open challenge and has no room: the stake goes back to the
    host's column, the challenge leaves the hash and the lobby is broadcast
    without it. *)
Lemma redis_disconnect_refunds_open_challenge (pow_approx : Number -> Number -> Number)
    (socket : string) (s : Redis.State) (roomId : string) (c : Challenge.t) :
  Redis.hosted_by socket (Redis.openChallenges s) = Some (roomId, c) ->
  (forall roomId', Redis.socket_roomId socket s = Some roomId' ->
                   Redis.hGet (Redis.activeRooms s) roomId' = None) ->
  Redis.disconnect pow_approx socket s
  = Redis.mkState (Redis.hDel (Redis.openChallenges s) roomId) (Redis.activeRooms s)
      (Redis.sockets s)
      (exec_query (CreditBalance (balCol (Challenge.mode c)) (Challenge.stake c)
                     (Challenge.userId c)) (Redis.db s))
      (Redis.outbox s
       ++ [(to_all, lobby_update
              (publicChallenges
                 (snd <$> Redis.entries (Redis.hDel (Redis.openChallenges s) roomId))))]).
Proof.
  intros Hhost Hroom. unfold Redis.disconnect. rewrite Hhost.
  unfold Redis.broadcastLobby, Redis.emit, Redis.set_openChallenges, Redis.query,
    Redis.socket_roomId in *.
  cbn [Redis.openChallenges Redis.activeRooms Redis.sockets Redis.db Redis.outbox].
  destruct (Redis.sockets s !! socket) as [[roomId' uid]|] eqn:Hsock; cbn [fmap option_fmap option_map fst];
    [|reflexivity].
  destruct (truthy roomId'); [|reflexivity].
  now rewrite (Hroom roomId' eq_refl).
Qed.

(** The stateless [disconnect] of a participant of an open room is the call
    [handleGameOver] that [timeout_loss] makes, with reason "abandon" instead
    of "timeout"; the two leave the same tables. *)
Lemma redis_disconnect_in_open_room (pow_approx : Number -> Number -> Number)
    (socket : string) (s : Redis.State) (roomId : string) (room : Room.t) :
  Redis.socket_roomId socket s = Some roomId ->
  roomId <> "" ->
  Redis.hGet (Redis.activeRooms s) roomId = Some room ->
  Room.processed room = false ->
  Redis.hosted_by socket (Redis.openChallenges s) = None ->
  Redis.disconnect pow_approx socket s
    = Redis.handleGameOver pow_approx roomId (Some (Redis.opponentId room socket))
        "abandon" s
  /\ Redis.timeout_loss pow_approx socket s
     = Redis.handleGameOver pow_approx roomId (Some (Redis.opponentId room socket))
         "timeout" s
  /\ Redis.db (Redis.disconnect pow_approx socket s)
     = Redis.db (Redis.timeout_loss pow_approx socket s).
Proof.
  intros Hsock Hrid Hroom Hopen Hnone.
  assert (Hd : Redis.disconnect pow_approx socket s
               = Redis.handleGameOver pow_approx roomId
                   (Some (Redis.opponentId room socket)) "abandon" s).
  { unfold Redis.disconnect. rewrite Hnone, Hsock.
    now rewrite (truthy_nonempty _ Hrid), Hroom, Hopen. }
  assert (Ht : Redis.timeout_loss pow_approx socket s
               = Redis.handleGameOver pow_approx roomId
                   (Some (Redis.opponentId room socket)) "timeout" s).
  { unfold Redis.timeout_loss. rewrite Hsock.
    now rewrite (truthy_nonempty _ Hrid), Hroom. }
  split; [exact Hd|]. split; [exact Ht|]. rewrite Hd, Ht.
  rewrite !(redis_handleGameOver_open _ _ _ _ s room Hroom Hopen). cbn [Redis.db].
  f_equal. apply performed_settlement_queries; discriminate.
Qed.

Lemma redis_game_over_opponent_credits_p2 (pow_approx : Number -> Number -> Number)
    (socket : string) (s : Redis.State) (roomId : string) (room : Room.t) :
  Redis.socket_roomId socket s = Some roomId ->
  Redis.hGet (Redis.activeRooms s) roomId = Some room ->
  Room.processed room = false ->
  Redis.outbox (Redis.game_over pow_approx socket "opponent" s)
  = Redis.outbox s
    ++ (if ratings_storable pow_approx (Room.set_processed room) None
        then [(to_room roomId,
               match_result (Player.userId (Room.p2 room))
                 (Room.stake room * 2 - platformFee (Room.stake room * 2)) "regular")]
        else []).
Proof.
  intros Hsock Hroom Hopen. unfold Redis.game_over. rewrite Hsock.
  destruct (decide ("opponent" = "me")) as [Habs|_]; [discriminate|].
  rewrite (redis_handleGameOver_open _ _ _ _ s room Hroom Hopen). cbn [Redis.outbox].
  now rewrite performed_settlement_events by discriminate.
Qed.

(** Far beyond any balance an INTEGER column can hold, the product by the
    literal 0.10 does round up across an integer: at a stake of
    6755399441055744 the fee is one more than the tenth of the pot. *)
Lemma platformFee_far_out :
  platformFee (6755399441055744 * 2) = 6755399441055744 * 2 / 10 + 1.
Proof. vm_compute. reflexivity. Qed.

(** * Listeners across their [await]

    A listener served with nothing in between is its first part followed at
    once by its second. *)

Lemma join_challenge_alone (socket : string) (userId : Z) (username roomId : string)
    (elo : Number) (s : InMemory.State) :
  InMemory.join_challenge socket userId username roomId elo s
  = match list_find (fun c => Challenge.roomId c = roomId) (InMemory.openChallenges s) with
    | None => InMemory.emit (to_socket socket) (error "Mechi haipatikani.") s
    | Some (challengeIndex, challenge) =>
        if decide (Challenge.userId challenge = userId)
        then InMemory.emit (to_socket socket) (error "Huwezi kucheza dhidi yako!") s
        else InMemory.join_resume socket userId username roomId elo challengeIndex
               challenge
               (select_bal (balCol (Challenge.mode challenge)) userId (InMemory.db s)) s
    end.
Proof.
  unfold InMemory.join_challenge, InMemory.join_resume.
  destruct (list_find _ _) as [[i c]|]; reflexivity.
Qed.

Lemma disconnect_alone (pow_approx : Number -> Number -> Number) (socket : string)
    (s : InMemory.State) :
  InMemory.disconnect pow_approx socket s
  = match list_find (fun c => Challenge.hostId c = socket) (InMemory.openChallenges s) with
    | Some (idx, c) => InMemory.disconnect_resume pow_approx socket idx c s
    | None => InMemory.disconnect_room pow_approx socket s
    end.
Proof.
  unfold InMemory.disconnect, InMemory.disconnect_resume, InMemory.disconnect_room.
  destruct (list_find _ _) as [[i c]|]; reflexivity.
Qed.

Lemma redis_join_challenge_alone (socket : string) (userId : Z)
    (username roomId : string) (elo : Number) (s : Redis.State) :
  Redis.join_challenge socket userId username roomId elo s
  = match Redis.hGet (Redis.openChallenges s) roomId with
    | None => Redis.emit (to_socket socket) (error "Mechi haipatikani.") s
    | Some challenge =>
        if decide (Challenge.userId challenge = userId)
        then Redis.emit (to_socket socket) (error "Huwezi kucheza dhidi yako!") s
        else Redis.join_resume socket userId username roomId elo challenge
               (select_bal (balCol (Challenge.mode challenge)) userId (Redis.db s)) s
    end.
Proof.
  unfold Redis.join_challenge, Redis.join_resume.
  destruct (Redis.hGet _ _) as [c|]; reflexivity.
Qed.

Lemma redis_cancel_challenge_alone (socket : string) (s : Redis.State) :
  Redis.cancel_challenge socket s
  = match Redis.hosted_by socket (Redis.openChallenges s) with
    | Some (roomId, c) => Redis.cancel_resume socket roomId c s
    | None => s
    end.
Proof.
  unfold Redis.cancel_challenge, Redis.cancel_resume.
  destruct (Redis.hosted_by _ _) as [[r c]|]; reflexivity.
Qed.

Lemma redis_disconnect_alone (pow_approx : Number -> Number -> Number)
    (socket : string) (s : Redis.State) :
  Redis.disconnect pow_approx socket s
  = match Redis.hosted_by socket (Redis.openChallenges s) with
    | Some (roomId, c) => Redis.disconnect_resume pow_approx socket roomId c s
    | None => Redis.disconnect_room pow_approx socket s
    end.
Proof.
  unfold Redis.disconnect, Redis.disconnect_resume, Redis.disconnect_room.
  destruct (Redis.hosted_by _ _) as [[r c]|]; reflexivity.
Qed.

Lemma withdraw_alone (userId amount : Z) (nw : option string) (st : Http.Store) :
  Http.withdraw userId amount nw st
  = Http.withdraw_resume userId amount nw
      (select_bal real_balance userId (Http.db st)) st.
Proof. reflexivity. Qed.

(** * [disconnect] in [server.js] *)

(** C7 on [server.js]: the listener awaits the refund between [findIndex]
    and [splice] and resumes with the index it found.  In [lobby3] the
    challenges of sockB, sockA and sockC are open, in that order; sockA
    disconnects and, while its refund is awaited, sockB cancels.  The
    listener of sockA then splices at index 1 a list whose index 1 is now
    the challenge of sockC: account 1 has its stake back but its challenge
    stays in the list and in the lobby broadcast, and the challenge of sockC
    is gone without a refund, out of reach of its own [cancel_challenge].
    Served with nothing in between, the same disconnect leaves the challenges
    of sockB and sockC. *)
Theorem disconnect_resumes_with_a_stale_index :
  Challenge.hostId <$> InMemory.openChallenges lobby3 = ["sockB"; "sockA"; "sockC"]
  /\ list_find (fun c => Challenge.hostId c = "sockA") (InMemory.openChallenges lobby3)
     = Some (1%nat, challenge_of 1700000000001 "sockA" 1 "amina")
  /\ select_bal demo_balance 1 (InMemory.db lobby3) = Some 49900
  /\ select_bal demo_balance 3 (InMemory.db lobby3) = Some 49900
  /\ InMemory.openChallenges stale_disconnect
     = [challenge_of 1700000000001 "sockA" 1 "amina"]
  /\ last (InMemory.outbox stale_disconnect)
     = Some (to_all, lobby_update [challenge_of 1700000000001 "sockA" 1 "amina"])
  /\ select_bal demo_balance 1 (InMemory.db stale_disconnect) = Some 50000
  /\ select_bal demo_balance 3 (InMemory.db stale_disconnect) = Some 49900
  /\ InMemory.cancel_challenge "sockC" stale_disconnect = stale_disconnect
  /\ Challenge.hostId
       <$> InMemory.openChallenges (InMemory.disconnect pow_unused "sockA" lobby3)
     = ["sockB"; "sockC"].
Proof. vm_compute. repeat split; reflexivity. Qed.




(** * What a settlement writes *)

Lemma settlement_queries_decisive_shape (pow_approx : Number -> Number -> Number)
    (roomId : string) (room : Room.t) (winnerSocketId : option string)
    (reason : string) :
  reason <> "draw" ->
  let winner := if decide (winnerSocketId = Some (Player.id (Room.p1 room)))
                then Room.p1 room else Room.p2 room in
  let loser := if decide (winnerSocketId = Some (Player.id (Room.p1 room)))
               then Room.p2 room else Room.p1 room in
  let fee := platformFee (Room.stake room * 2) in
  let newElos := updateElo pow_approx (Player.elo winner) (Player.elo loser) in
  queries_of (settlement pow_approx roomId room winnerSocketId reason)
  = [CreditBalanceElo (balCol (Room.mode room)) (Room.stake room * 2 - fee)
       (fst newElos) (Player.userId winner);
     UpdateElo (snd newElos) (Player.userId loser)]
    ++ (if decide (Room.mode room = "real")
        then [CreditAdminWallet fee;
              InsertTransaction (Player.userId winner) "PRIZE_PAYOUT"
                (Room.stake room * 2 - fee) "SUCCESS"]
        else []).
Proof.
  intros H. unfold settlement. rewrite bool_decide_eq_false_2 by assumption.
  destruct (decide (Room.mode room = "real")); reflexivity.
Qed.

Lemma settlement_draw_shape (pow_approx : Number -> Number -> Number)
    (roomId : string) (room : Room.t) (winnerSocketId : option string) :
  let fee := platformFee (Room.stake room * 2) in
  let refund := (Room.stake room * 2 - fee) / 2 in
  queries_of (settlement pow_approx roomId room winnerSocketId "draw")
  = CreditBalanceIn (balCol (Room.mode room)) refund
      (Player.userId (Room.p1 room)) (Player.userId (Room.p2 room))
    :: (if decide (Room.mode room = "real") then [CreditAdminWallet fee] else [])
  /\ events_of (settlement pow_approx roomId room winnerSocketId "draw")
     = [(to_room roomId, match_result_draw refund)].
Proof.
  unfold settlement. cbn [bool_decide decide_rel].
  destruct (decide (Room.mode room = "real")); split; reflexivity.
Qed.

Lemma performed_settlement_queries_shape (pow_approx : Number -> Number -> Number)
    (roomId : string) (room : Room.t) (winnerSocketId : option string)
    (reason : string) :
  reason <> "draw" ->
  let winner := if decide (winnerSocketId = Some (Player.id (Room.p1 room)))
                then Room.p1 room else Room.p2 room in
  let loser := if decide (winnerSocketId = Some (Player.id (Room.p1 room)))
               then Room.p2 room else Room.p1 room in
  let fee := platformFee (Room.stake room * 2) in
  let newElos := new_ratings pow_approx room winnerSocketId in
  queries_of (performed (settlement pow_approx roomId room winnerSocketId reason))
  = if storable newElos.1
    then CreditBalanceElo (balCol (Room.mode room)) (Room.stake room * 2 - fee)
           newElos.1 (Player.userId winner)
         :: (if storable newElos.2
             then UpdateElo newElos.2 (Player.userId loser)
                  :: (if decide (Room.mode room = "real")
                      then [CreditAdminWallet fee;
                            InsertTransaction (Player.userId winner) "PRIZE_PAYOUT"
                              (Room.stake room * 2 - fee) "SUCCESS"]
                      else [])
             else [])
    else [].
Proof.
  intros H. unfold settlement, new_ratings. rewrite bool_decide_eq_false_2 by assumption.
  destruct (decide (Room.mode room = "real")); cbn [performed app accepted fst snd];
    repeat (destruct (storable _); cbn [performed app accepted queries_of omap];
            try reflexivity).
Qed.

(** A decisive settlement of [server.js] on the tables.  The statement that
    pays the winner also writes its new rating: when the store takes that
    rating, the winner's row gains the payout in the mode's column and the
    rating, and when it rejects it nobody is paid.  The loser's row takes its
    new rating when the store takes both; the fee reaches the wallet when it
    takes both and the mode is real.  No other row changes.  Both ratings are
    computed from the ratings recorded in the room when it was created and
    joined: the ratings stored before are overwritten unread. *)
Theorem decisive_settlement_tables (pow_approx : Number -> Number -> Number)
    (roomId : string) (winnerSocketId : option string) (reason : string)
    (s : InMemory.State) (room : Room.t) :
  InMemory.activeRooms s !! roomId = Some room ->
  Room.processed room = false ->
  reason <> "draw" ->
  let winner := if decide (winnerSocketId = Some (Player.id (Room.p1 room)))
                then Room.p1 room else Room.p2 room in
  let loser := if decide (winnerSocketId = Some (Player.id (Room.p1 room)))
               then Room.p2 room else Room.p1 room in
  Player.userId winner <> Player.userId loser ->
  let s' := InMemory.handleGameOver pow_approx roomId winnerSocketId reason s in
  let fee := platformFee (Room.stake room * 2) in
  let newElos := new_ratings pow_approx room winnerSocketId in
  users (InMemory.db s') !! Player.userId winner
    = (if storable newElos.1
       then fun u => set_elo newElos.1
                       (add_balance (balCol (Room.mode room)) (Room.stake room * 2 - fee) u)
       else fun u => u)
        <$> users (InMemory.db s) !! Player.userId winner
  /\ users (InMemory.db s') !! Player.userId loser
     = (if ratings_storable pow_approx room winnerSocketId
        then set_elo newElos.2 else fun u => u)
         <$> users (InMemory.db s) !! Player.userId loser
  /\ (forall id, id <> Player.userId winner -> id <> Player.userId loser ->
        users (InMemory.db s') !! id = users (InMemory.db s) !! id)
  /\ admin_wallet (InMemory.db s')
     = admin_wallet (InMemory.db s)
       + (if ratings_storable pow_approx room winnerSocketId
          then if decide (Room.mode room = "real") then fee else 0
          else 0)
  /\ InMemory.activeRooms s' = delete roomId (InMemory.activeRooms s).
Proof.
  intros Hroom Hopen Hreason winner loser Hdiff s' fee newElos. subst s'.
  rewrite (mem_handleGameOver_open _ _ _ _ s room Hroom Hopen).
  cbn [InMemory.db InMemory.activeRooms].
  rewrite performed_settlement_queries_shape by assumption.
  unfold ratings_storable. fold winner loser fee newElos.
  destruct (storable newElos.1); [destruct (storable newElos.2)|];
    cbn [andb]; [destruct (decide (Room.mode room = "real"))|..];
    cbn [app exec_queries foldl exec_query update_users users admin_wallet transactions];
    repeat split;
    try (intros id Hw Hl; now rewrite ?lookup_alter_ne by congruence);
    try lia;
    rewrite ?lookup_alter_eq, ?(lookup_alter_ne _ _ _ (Player.userId winner)),
      ?(lookup_alter_ne _ _ _ (Player.userId loser)), ?lookup_alter_eq by congruence;
    try reflexivity;
    now destruct (users (InMemory.db s) !! _).
Qed.

(** sockA's report of a win on the running match. *)
Lemma decisive_settlement_tables_witness :
  InMemory.activeRooms table2 !! "pub_1700000000000" = Some room_100
  /\ users (InMemory.db (InMemory.handleGameOver pow_unused "pub_1700000000000"
                           (Some "sockA") "regular" table2)) !! 1
     = Some (mkUserRow 1080 50000 (of_Z 1216))
  /\ users (InMemory.db (InMemory.handleGameOver pow_unused "pub_1700000000000"
                           (Some "sockA") "regular" table2)) !! 2
     = Some (mkUserRow 900 50000 (of_Z 1184)).
Proof.
  assert (Hroom : InMemory.activeRooms table2 !! "pub_1700000000000" = Some room_100)
    by (vm_compute; reflexivity).
  split; [exact Hroom|].
  pose proof (decisive_settlement_tables pow_unused "pub_1700000000000" (Some "sockA")
                "regular" table2 room_100 Hroom ltac:(reflexivity) ltac:(discriminate)
                ltac:(vm_compute; discriminate))
    as (Hw & Hl & _).
  split.
  - etransitivity; [exact Hw|]. vm_compute. reflexivity.
  - etransitivity; [exact Hl|]. vm_compute. reflexivity.
Defined.

(** The same report when the joiner's client sent no rating: the new ratings
    are NaN, the store rejects the statement that pays, and account 1 keeps
    its 900 while the room is deleted. *)
Lemma unrated_match_pays_nobody :
  users (InMemory.db (InMemory.handleGameOver pow_unused "pub_1700000000000"
                        (Some "sockA") "regular" table2_unrated)) !! 1
  = Some (mkUserRow 900 50000 (of_Z 1200))
  /\ payouts_announced
       (InMemory.outbox (InMemory.handleGameOver pow_unused "pub_1700000000000"
                           (Some "sockA") "regular" table2_unrated))
     = []
  /\ InMemory.activeRooms (InMemory.handleGameOver pow_unused "pub_1700000000000"
                             (Some "sockA") "regular" table2_unrated)
       !! "pub_1700000000000"
     = None.
Proof. vm_compute. repeat split; reflexivity. Qed.

(** Outside real mode no settlement, decisive or drawn, touches the wallet
    or the transaction log: the fee is taken off the pot and credited to
    nobody. *)
Theorem settlement_outside_real_mode (pow_approx : Number -> Number -> Number)
    (roomId : string) (winnerSocketId : option string) (reason : string)
    (s : InMemory.State) :
  (forall room, InMemory.activeRooms s !! roomId = Some room ->
                Room.mode room <> "real") ->
  admin_wallet (InMemory.db (InMemory.handleGameOver pow_approx roomId winnerSocketId
                               reason s))
    = admin_wallet (InMemory.db s)
  /\ transactions (InMemory.db (InMemory.handleGameOver pow_approx roomId
                                  winnerSocketId reason s))
     = transactions (InMemory.db s).
Proof.
  intros Hmode.
  destruct (InMemory.activeRooms s !! roomId) as [room|] eqn:Hroom.
  - destruct (Room.processed room) eqn:Hp.
    + rewrite mem_handleGameOver_settled by now rewrite Hroom. now split.
    + rewrite (mem_handleGameOver_open _ _ _ _ s room Hroom Hp). cbn [InMemory.db].
      specialize (Hmode room eq_refl).
      destruct (decide (reason = "draw")) as [->|Hr].
      * rewrite performed_settlement by (left; reflexivity).
        destruct (settlement_draw_shape pow_approx roomId room winnerSocketId) as [-> _].
        destruct (decide (Room.mode room = "real")); [contradiction|].
        destruct (decide (Player.userId (Room.p1 room) = Player.userId (Room.p2 room)));
          now split.
      * unfold settlement. rewrite bool_decide_eq_false_2 by assumption.
        destruct (decide (Room.mode room = "real")); [contradiction|].
        cbn [performed app accepted];
          repeat (destruct (storable _); cbn [performed app accepted]); now split.
  - rewrite mem_handleGameOver_settled by now rewrite Hroom. now split.
Qed.

(** A demo match settles without touching the wallet or the journal. *)
Lemma settlement_outside_real_mode_witness :
  Room.mode <$> InMemory.activeRooms demo_table !! "pub_1700000000000" = Some "demo"
  /\ admin_wallet (InMemory.db (InMemory.handleGameOver pow_unused "pub_1700000000000"
                                  (Some "sockA") "regular" demo_table))
     = admin_wallet (InMemory.db demo_table)
  /\ transactions (InMemory.db (InMemory.handleGameOver pow_unused "pub_1700000000000"
                                  (Some "sockA") "regular" demo_table))
     = transactions (InMemory.db demo_table).
Proof.
  split; [vm_compute; reflexivity|].
  apply settlement_outside_real_mode.
  intros room Hroom. vm_compute in Hroom. injection Hroom as <-. discriminate.
Defined.

(** [accept_draw] from a socket whose room is open, whether or not a draw
    was offered: each of the two accounts gains the same refund in the mode's
    column and keeps its rating, no other row changes, no transaction is
    logged, the wallet gets the fee in real mode only, the room is removed
    and the draw is announced to the room. *)
Theorem accept_draw_tables (pow_approx : Number -> Number -> Number)
    (socket : string) (s : InMemory.State) (roomId : string) (room : Room.t) :
  InMemory.socket_roomId socket s = Some roomId ->
  InMemory.activeRooms s !! roomId = Some room ->
  Room.processed room = false ->
  Player.userId (Room.p1 room) <> Player.userId (Room.p2 room) ->
  let s' := InMemory.accept_draw pow_approx socket s in
  let fee := platformFee (Room.stake room * 2) in
  let refund := (Room.stake room * 2 - fee) / 2 in
  users (InMemory.db s') !! Player.userId (Room.p1 room)
    = add_balance (balCol (Room.mode room)) refund
        <$> users (InMemory.db s) !! Player.userId (Room.p1 room)
  /\ users (InMemory.db s') !! Player.userId (Room.p2 room)
     = add_balance (balCol (Room.mode room)) refund
         <$> users (InMemory.db s) !! Player.userId (Room.p2 room)
  /\ (forall id, id <> Player.userId (Room.p1 room) -> id <> Player.userId (Room.p2 room) ->
        users (InMemory.db s') !! id = users (InMemory.db s) !! id)
  /\ admin_wallet (InMemory.db s')
     = admin_wallet (InMemory.db s)
       + (if decide (Room.mode room = "real") then fee else 0)
  /\ transactions (InMemory.db s') = transactions (InMemory.db s)
  /\ InMemory.activeRooms s' = delete roomId (InMemory.activeRooms s)
  /\ InMemory.outbox s' = InMemory.outbox s ++ [(to_room roomId, match_result_draw refund)].
Proof.
  intros Hsock Hroom Hopen Hdiff s' fee refund. subst s'.
  unfold InMemory.accept_draw. rewrite Hsock.
  rewrite (mem_handleGameOver_open _ _ _ _ s room Hroom Hopen).
  rewrite performed_settlement by (left; reflexivity).
  cbn [InMemory.db InMemory.activeRooms InMemory.outbox].
  destruct (settlement_draw_shape pow_approx roomId room None) as [-> ->].
  fold fee refund.
  destruct (decide (Room.mode room = "real"));
    cbn [app exec_queries foldl exec_query update_users users admin_wallet transactions];
    (destruct (decide (Player.userId (Room.p1 room) = Player.userId (Room.p2 room)));
     [contradiction|]).
  - repeat split.
    + rewrite lookup_alter_ne by congruence. now rewrite lookup_alter_eq.
    + now rewrite lookup_alter_eq, lookup_alter_ne by assumption.
    + intros id H1 H2. now rewrite !lookup_alter_ne by congruence.
  - repeat split.
    + rewrite lookup_alter_ne by congruence. now rewrite lookup_alter_eq.
    + now rewrite lookup_alter_eq, lookup_alter_ne by assumption.
    + intros id H1 H2. now rewrite !lookup_alter_ne by congruence.
    + lia.
Qed.

(** sockB accepts a draw on the running match without any offer. *)
Lemma accept_draw_tables_witness :
  InMemory.socket_roomId "sockB" table2 = Some "pub_1700000000000"
  /\ InMemory.activeRooms table2 !! "pub_1700000000000" = Some room_100
  /\ users (InMemory.db (InMemory.accept_draw pow_unused "sockB" table2)) !! 1
     = Some (mkUserRow 990 50000 (of_Z 1200))
  /\ users (InMemory.db (InMemory.accept_draw pow_unused "sockB" table2)) !! 2
     = Some (mkUserRow 990 50000 (of_Z 1200))
  /\ admin_wallet (InMemory.db (InMemory.accept_draw pow_unused "sockB" table2)) = 20.
Proof.
  assert (Hsock : InMemory.socket_roomId "sockB" table2 = Some "pub_1700000000000")
    by (vm_compute; reflexivity).
  assert (Hroom : InMemory.activeRooms table2 !! "pub_1700000000000" = Some room_100)
    by (vm_compute; reflexivity).
  split; [exact Hsock|]. split; [exact Hroom|].
  pose proof (accept_draw_tables pow_unused "sockB" table2 "pub_1700000000000" room_100
                Hsock Hroom ltac:(reflexivity) ltac:(vm_compute; discriminate))
    as (H1 & H2 & _ & Hw & _).
  split; [|split].
  - etransitivity; [exact H1|]. vm_compute. reflexivity.
  - etransitivity; [exact H2|]. vm_compute. reflexivity.
  - etransitivity; [exact Hw|]. vm_compute. reflexivity.
Defined.

(** * Who is announced *)

(** [game_over] with winner "me" from either participant of an open room
    settles for the sender on the sender's word alone: its own account is
    announced as winner when the store takes the two new ratings, and nothing
    is announced when it rejects one. *)
Theorem game_over_me_announces_the_sender (pow_approx : Number -> Number -> Number)
    (socket : string) (s : InMemory.State) (roomId : string) (room : Room.t) :
  InMemory.socket_roomId socket s = Some roomId ->
  InMemory.activeRooms s !! roomId = Some room ->
  Room.processed room = false ->
  socket = Player.id (Room.p1 room) \/ socket = Player.id (Room.p2 room) ->
  Player.id (Room.p1 room) <> Player.id (Room.p2 room) ->
  let me := if decide (Player.id (Room.p1 room) = socket)
            then Room.p1 room else Room.p2 room in
  InMemory.outbox (InMemory.game_over pow_approx socket "me" s)
  = InMemory.outbox s
    ++ (if ratings_storable pow_approx room (Some socket)
        then [(to_room roomId,
               match_result (Player.userId me)
                 (Room.stake room * 2 - platformFee (Room.stake room * 2)) "regular")]
        else []).
Proof.
  intros Hsock Hroom Hopen Hpart Hdiff me. unfold InMemory.game_over. rewrite Hsock.
  destruct (decide ("me" = "me")) as [_|Habs]; [|congruence].
  rewrite (mem_handleGameOver_open _ _ _ _ s room Hroom Hopen). cbn [InMemory.outbox].
  rewrite performed_settlement_events by discriminate.
  destruct (ratings_storable pow_approx room (Some socket)); [|reflexivity].
  do 4 f_equal. unfold me.
  destruct (decide (Some socket = Some (Player.id (Room.p1 room)))) as [Heq|Hne];
    destruct (decide (Player.id (Room.p1 room) = socket)) as [Heq'|Hne']; try reflexivity.
  - injection Heq as Heq. congruence.
  - congruence.
Qed.

(** sockB claims the running match. *)
Lemma game_over_me_announces_the_sender_witness :
  InMemory.socket_roomId "sockB" table2 = Some "pub_1700000000000"
  /\ InMemory.activeRooms table2 !! "pub_1700000000000" = Some room_100
  /\ payouts_announced (InMemory.outbox (InMemory.game_over pow_unused "sockB" "me" table2))
     = [(2, 180)].
Proof.
  assert (Hsock : InMemory.socket_roomId "sockB" table2 = Some "pub_1700000000000")
    by (vm_compute; reflexivity).
  assert (Hroom : InMemory.activeRooms table2 !! "pub_1700000000000" = Some room_100)
    by (vm_compute; reflexivity).
  split; [exact Hsock|]. split; [exact Hroom|].
  rewrite (game_over_me_announces_the_sender pow_unused "sockB" table2
             "pub_1700000000000" room_100 Hsock Hroom ltac:(reflexivity)
             ltac:(right; reflexivity) ltac:(discriminate)).
  vm_compute. reflexivity.
Defined.

(** * [timeout_loss] on a room that is gone *)

(** In [server.js], [timeout_loss] throws exactly when no room is stored
    under the socket's room id, since it reads [p1] of the missing room; so a
    [timeout_loss] that settles an open room is followed, if the event is
    sent again, by the TypeError. *)
Theorem timeout_loss_throws_without_room (pow_approx : Number -> Number -> Number)
    (socket : string) (s : InMemory.State) :
  (InMemory.timeout_loss pow_approx socket s = None
   <-> forall roomId, InMemory.socket_roomId socket s = Some roomId ->
                      InMemory.activeRooms s !! roomId = None)
  /\ (forall roomId room,
        InMemory.socket_roomId socket s = Some roomId ->
        InMemory.activeRooms s !! roomId = Some room ->
        Room.processed room = false ->
        exists s', InMemory.timeout_loss pow_approx socket s = Some s'
                   /\ InMemory.timeout_loss pow_approx socket s' = None).
Proof.
  split.
  - unfold InMemory.timeout_loss.
    destruct (InMemory.socket_roomId socket s) as [rid|] eqn:Hsock; cbn.
    + destruct (InMemory.activeRooms s !! rid) as [room|] eqn:Hroom; cbn.
      * split; [discriminate|]. intros H. specialize (H rid eq_refl). congruence.
      * split; [|reflexivity]. intros _ roomId [= <-]. exact Hroom.
    + split; [|reflexivity]. intros _ roomId H. discriminate.
  - intros roomId room Hsock Hroom Hopen.
    exists (InMemory.handleGameOver pow_approx roomId
              (Some (InMemory.opponentId room socket)) "timeout" s).
    split.
    + unfold InMemory.timeout_loss. rewrite Hsock. cbn. rewrite Hroom. reflexivity.
    + rewrite (mem_handleGameOver_open _ _ _ _ s room Hroom Hopen).
      unfold InMemory.timeout_loss, InMemory.socket_roomId in *. cbn.
      rewrite Hsock. cbn. now rewrite lookup_delete_eq.
Qed.

(** In the stateless revision the handler looks the room up first: a
    repeated [timeout_loss] is absorbed. *)
Theorem redis_timeout_loss_twice (pow_approx : Number -> Number -> Number)
    (socket : string) (s : Redis.State) :
  Redis.timeout_loss pow_approx socket (Redis.timeout_loss pow_approx socket s)
  = Redis.timeout_loss pow_approx socket s.
Proof.
  destruct (Redis.socket_roomId socket s) as [rid|] eqn:Hsock.
  - destruct (truthy rid) eqn:Ht.
    + destruct (Redis.hGet (Redis.activeRooms s) rid) as [room|] eqn:Hroom.
      * assert (E : Redis.timeout_loss pow_approx socket s
                    = Redis.handleGameOver pow_approx rid
                        (Some (Redis.opponentId room socket)) "timeout" s)
          by (unfold Redis.timeout_loss; now rewrite Hsock, Ht, Hroom).
        destruct (Room.processed room) eqn:Hp.
        { rewrite (redis_handleGameOver_settled pow_approx rid _ _ s) in E
            by now rewrite Hroom.
          now rewrite !E. }
        { rewrite E, (redis_handleGameOver_open _ _ _ _ s room Hroom Hp).
          unfold Redis.timeout_loss, Redis.socket_roomId in *.
          cbn [Redis.sockets Redis.activeRooms]. rewrite Hsock, Ht.
          now rewrite hGet_hDel. }
      * assert (E : Redis.timeout_loss pow_approx socket s = s)
          by (unfold Redis.timeout_loss; now rewrite Hsock, Ht, Hroom).
        now rewrite !E.
    + assert (E : Redis.timeout_loss pow_approx socket s = s)
        by (unfold Redis.timeout_loss; now rewrite Hsock, Ht).
      now rewrite !E.
  - assert (E : Redis.timeout_loss pow_approx socket s = s)
      by (unfold Redis.timeout_loss; now rewrite Hsock).
    now rewrite !E.
Qed.

(** * Equal ratings *)

Lemma sub_same_finite (sx : bool) (m : positive) (e : Z) :
  sub (S754_finite sx m e) (S754_finite sx m e) = S754_zero false.
Proof.
  unfold sub, SFsub. rewrite Z.min_id.
  replace (cond_Zopp sx (Zpos (fst (shl_align m e e)))
           - cond_Zopp sx (Zpos (fst (shl_align m e e)))) with 0 by lia.
  reflexivity.
Qed.

(** Between two players of the same finite rating the update never reaches
    the engine's approximation of the power: each expected score is one half
    and the ratings move by 16 up and 16 down before rounding. *)
Theorem updateElo_equal_ratings (pow_approx : Number -> Number -> Number)
    (sx : bool) (m : positive) (e : Z) :
  let r := S754_finite sx m e in
  updateElo pow_approx r r
  = (Math_round (add r (of_Z 16)), Math_round (add r (of_Z (-16)))).
Proof.
  intros r. unfold updateElo. unfold r at 1 2 4 5. rewrite sub_same_finite.
  reflexivity.
Qed.

(** * Opening and closing a challenge *)

(** A challenge that is created and then cancelled by a socket hosting no
    other one leaves the accounts, the wallet, the open challenges and the
    rooms as they were; in real mode the journal keeps the ENTRY_FEE row,
    still PENDING, of the stake that went back. *)
Theorem create_then_cancel_restores (now : N) (rnd socket : string) (userId : Z)
    (username : string) (stake : Z) (mode : string) (isPrivate : bool) (elo : Number)
    (s : InMemory.State) (bal : Z) :
  select_bal (balCol mode) userId (InMemory.db s) = Some bal ->
  stake <= bal ->
  Forall (fun c => Challenge.hostId c <> socket) (InMemory.openChallenges s) ->
  let s' := InMemory.cancel_challenge socket
              (InMemory.create_challenge now rnd socket userId username stake mode
                 isPrivate elo s) in
  users (InMemory.db s') = users (InMemory.db s)
  /\ admin_wallet (InMemory.db s') = admin_wallet (InMemory.db s)
  /\ transactions (InMemory.db s')
     = transactions (InMemory.db s)
       ++ (if decide (mode = "real")
           then [mkTransaction userId "ENTRY_FEE" stake "PENDING"] else [])
  /\ InMemory.openChallenges s' = InMemory.openChallenges s
  /\ InMemory.activeRooms s' = InMemory.activeRooms s.
Proof.
  intros Hbal Hle Hnone.
  set (ch := Challenge.mk (newRoomId isPrivate rnd now) socket userId username stake
               mode isPrivate elo).
  assert (Hfind : list_find (fun c => Challenge.hostId c = socket)
                    (InMemory.openChallenges s ++ [ch])
                  = Some (length (InMemory.openChallenges s), ch)).
  { rewrite list_find_app_r by (apply list_find_None; exact Hnone).
    cbn. rewrite decide_True by reflexivity. reflexivity. }
  assert (Husers : alter (add_balance (balCol mode) stake) userId
                     (alter (add_balance (balCol mode) (- stake)) userId
                        (users (InMemory.db s)))
                   = users (InMemory.db s)).
  { rewrite alter_alter_eq. apply alter_id. intros [r d e] _.
    destruct (balCol mode); cbn; f_equal; lia. }
  unfold InMemory.create_challenge. rewrite Hbal.
  destruct (bal <? stake) eqn:E; [apply Z.ltb_lt in E; lia|]. fold ch.
  destruct isPrivate; destruct (decide (mode = "real")) as [Hm|Hm];
    unfold InMemory.cancel_challenge;
    cbn [InMemory.query InMemory.emit InMemory.set_socket InMemory.set_openChallenges
         InMemory.openChallenges InMemory.activeRooms InMemory.sockets InMemory.db
         InMemory.outbox];
    rewrite Hfind;
    cbn [InMemory.query InMemory.emit InMemory.set_socket InMemory.set_openChallenges
         InMemory.openChallenges InMemory.activeRooms InMemory.sockets InMemory.db
         InMemory.outbox exec_query update_users users admin_wallet transactions
         Challenge.mode Challenge.stake Challenge.userId ch];
    rewrite ?Husers, ?delete_middle, ?app_nil_r; auto.
Qed.

(** Account 1 opens a demo challenge of 100 in the empty lobby and cancels
    it. *)
Lemma create_then_cancel_restores_witness :
  select_bal (balCol "demo") 1 (InMemory.db lobby0) = Some 50000
  /\ users (InMemory.db (InMemory.cancel_challenge "sockA" lobby1))
     = users (InMemory.db lobby0)
  /\ InMemory.openChallenges (InMemory.cancel_challenge "sockA" lobby1) = [].
Proof.
  split; [reflexivity|].
  destruct (create_then_cancel_restores 1700000000000 "K3J9Q" "sockA" 1 "amina" 100
              "demo" false (of_Z 1200) lobby0 50000 eq_refl ltac:(lia)
              ltac:(constructor)) as (Hu & _ & _ & Ho & _).
  split; [exact Hu|exact Ho].
Defined.

(** For a socket with no room under its room id, [disconnect] does to the
    tables, the open challenges, the rooms and the sessions what
    [cancel_challenge] does; the two differ only in the messages: the
    cancellation is confirmed to the socket, the disconnection to nobody. *)
Theorem cancel_challenge_like_disconnect (pow_approx : Number -> Number -> Number)
    (socket : string) (s : InMemory.State) :
  (forall roomId, InMemory.socket_roomId socket s = Some roomId ->
                  InMemory.activeRooms s !! roomId = None) ->
  let a := InMemory.cancel_challenge socket s in
  let b := InMemory.disconnect pow_approx socket s in
  InMemory.db a = InMemory.db b
  /\ InMemory.openChallenges a = InMemory.openChallenges b
  /\ InMemory.activeRooms a = InMemory.activeRooms b
  /\ InMemory.sockets a = InMemory.sockets b
  /\ InMemory.outbox a
     = InMemory.outbox b
       ++ match list_find (fun c => Challenge.hostId c = socket)
                  (InMemory.openChallenges s) with
          | Some _ => [(to_socket socket, challenge_cancelled)]
          | None => []
          end.
Proof.
  intros Hroom. unfold InMemory.cancel_challenge, InMemory.disconnect.
  destruct (list_find _ (InMemory.openChallenges s)) as [[idx c]|];
    unfold InMemory.socket_roomId in *;
    cbn [InMemory.query InMemory.emit InMemory.set_openChallenges
         InMemory.openChallenges InMemory.activeRooms InMemory.sockets InMemory.db
         InMemory.outbox];
    destruct (InMemory.sockets s !! socket) as [[rid uid]|] eqn:Hs; cbn [fmap option_fmap option_map fst];
    try (rewrite (Hroom rid eq_refl); destruct (truthy rid));
    cbn [InMemory.openChallenges InMemory.activeRooms InMemory.sockets InMemory.db
         InMemory.outbox];
    rewrite ?app_nil_r; auto.
Qed.

(** sockA leaves the lobby with its demo challenge open. *)
Lemma cancel_challenge_like_disconnect_witness :
  InMemory.socket_roomId "sockA" lobby1 = Some "pub_1700000000000"
  /\ InMemory.activeRooms lobby1 !! "pub_1700000000000" = None
  /\ InMemory.db (InMemory.cancel_challenge "sockA" lobby1)
     = InMemory.db (InMemory.disconnect pow_unused "sockA" lobby1).
Proof.
  split; [vm_compute; reflexivity|]. split; [vm_compute; reflexivity|].
  apply (cancel_challenge_like_disconnect pow_unused "sockA" lobby1).
  intros roomId H. vm_compute in H. injection H as <-. vm_compute. reflexivity.
Defined.

(** Joins served one after the other, each to its end before the next
    arrives: a challenge held under a room id of its own is then joined
    once.  The join opens the room between host and joiner, and whoever asks
    for the same room id after it has returned is told that the match is not
    found, with nothing else changed.  ([overlapping_joins_both_pay] is what
    happens when the second request arrives during the first.) *)
Theorem join_challenge_once (socket : string) (userId : Z) (username roomId : string)
    (elo : Number) (s : InMemory.State) (idx : nat) (c : Challenge.t) (bal : Z) :
  list_find (fun c => Challenge.roomId c = roomId) (InMemory.openChallenges s)
    = Some (idx, c) ->
  (forall j y, InMemory.openChallenges s !! j = Some y ->
               Challenge.roomId y = roomId -> j = idx) ->
  Challenge.userId c <> userId ->
  select_bal (balCol (Challenge.mode c)) userId (InMemory.db s) = Some bal ->
  Challenge.stake c <= bal ->
  let s1 := InMemory.join_challenge socket userId username roomId elo s in
  InMemory.activeRooms s1 !! roomId
    = Some (Room.mk (Player.mk (Challenge.hostId c) (Challenge.userId c)
                               (Challenge.elo c))
                    (Player.mk socket userId elo)
                    (Challenge.stake c) (Challenge.mode c) false)
  /\ select_bal (balCol (Challenge.mode c)) userId (InMemory.db s1)
     = Some (bal - Challenge.stake c)
  /\ forall socket' userId' username' elo',
       InMemory.join_challenge socket' userId' username' roomId elo' s1
       = InMemory.emit (to_socket socket') (error "Mechi haipatikani.") s1.
Proof.
  intros Hfind Huniq Hne Hbal Hle s1.
  assert (HF := list_find_delete_unique _ _ _ _ Hfind Huniq).
  assert (HN : list_find (fun c => Challenge.roomId c = roomId)
                 (delete idx (InMemory.openChallenges s)) = None)
    by (apply list_find_None; exact HF).
  assert (Hopen : InMemory.openChallenges s1 = delete idx (InMemory.openChallenges s)
                  /\ InMemory.activeRooms s1 !! roomId
                     = Some (Room.mk (Player.mk (Challenge.hostId c) (Challenge.userId c)
                                                (Challenge.elo c))
                                     (Player.mk socket userId elo)
                                     (Challenge.stake c) (Challenge.mode c) false)
                  /\ users (InMemory.db s1)
                     = alter (add_balance (balCol (Challenge.mode c))
                                (- Challenge.stake c)) userId (users (InMemory.db s))).
  { unfold s1, InMemory.join_challenge. rewrite Hfind.
    destruct (decide (Challenge.userId c = userId)) as [|_]; [contradiction|].
    rewrite Hbal.
    destruct (bal <? Challenge.stake c) eqn:E; [apply Z.ltb_lt in E; lia|].
    destruct (decide (Challenge.mode c = "real"));
      cbn [InMemory.query InMemory.emit InMemory.set_socket InMemory.set_openChallenges
           InMemory.set_activeRooms InMemory.openChallenges InMemory.activeRooms
           InMemory.sockets InMemory.db InMemory.outbox exec_query update_users users];
      rewrite lookup_insert_eq; auto. }
  destruct Hopen as (Ho & Hr & Hu).
  split; [exact Hr|]. split.
  - unfold select_bal in *. rewrite Hu, lookup_alter_eq.
    destruct (users (InMemory.db s) !! userId) as [[r d e]|]; [|discriminate].
    cbn in *. injection Hbal as <-. destruct (balCol (Challenge.mode c)); cbn; f_equal; lia.
  - intros socket' userId' username' elo'.
    unfold InMemory.join_challenge at 1. now rewrite Ho, HN.
Qed.

(** Account 2 joins the challenge of [table1]; a third socket comes late. *)
Lemma join_challenge_once_witness :
  InMemory.activeRooms table2 !! "pub_1700000000000" = Some room_100
  /\ InMemory.join_challenge "sockC" 3 "chiku" "pub_1700000000000" (of_Z 1200) table2
     = InMemory.emit (to_socket "sockC") (error "Mechi haipatikani.") table2.
Proof.
  destruct (join_challenge_once "sockB" 2 "baraka" "pub_1700000000000" (of_Z 1200)
              table1 0
              (Challenge.mk "pub_1700000000000" "sockA" 1 "amina" 100 "real" false
                            (of_Z 1200))
              1000) as (Hr & _ & Hlate).
  - vm_compute. reflexivity.
  - intros [|[|j]] y Hy; [reflexivity|vm_compute in Hy; discriminate..].
  - discriminate.
  - vm_compute. reflexivity.
  - cbn. lia.
  - split; [exact Hr|]. apply Hlate.
Defined.

(** * What no sequence of events does *)

Lemma keeps_accounts_refl (s : InMemory.State) : keeps_accounts s s.
Proof. repeat split; reflexivity. Qed.

Lemma keeps_accounts_trans (s1 s2 s3 : InMemory.State) :
  keeps_accounts s1 s2 -> keeps_accounts s2 s3 -> keeps_accounts s1 s3.
Proof.
  intros (Hd & Ht & Ho) (Hd' & Ht' & Ho'). repeat split.
  - now rewrite Hd'.
  - now transitivity (transactions (InMemory.db s2)).
  - now transitivity (InMemory.outbox s2).
Qed.

Lemma exec_query_accounts (q : Query) (d : DB) :
  dom (users (exec_query q d)) =@{gset Z} dom (users d)
  /\ transactions d `prefix_of` transactions (exec_query q d).
Proof.
  destruct q; cbn; try (split; [|reflexivity]); rewrite ?dom_alter_L; try reflexivity.
  - destruct (decide (id1 = id2)); now rewrite ?dom_alter_L.
  - split; [reflexivity|]. now apply prefix_app_r.
Qed.

Lemma exec_queries_accounts (qs : list Query) (d : DB) :
  dom (users (exec_queries qs d)) =@{gset Z} dom (users d)
  /\ transactions d `prefix_of` transactions (exec_queries qs d).
Proof.
  revert d. induction qs as [|q qs IH]; intros d; [split; reflexivity|].
  change (exec_queries (q :: qs) d) with (exec_queries qs (exec_query q d)).
  destruct (IH (exec_query q d)) as [Hd Ht], (exec_query_accounts q d) as [Hd' Ht'].
  split; [now rewrite Hd|now transitivity (transactions (exec_query q d))].
Qed.

Lemma keeps_accounts_query (q : Query) (s s' : InMemory.State) :
  keeps_accounts s s' -> keeps_accounts s (InMemory.query q s').
Proof.
  intros H. apply (keeps_accounts_trans _ _ _ H).
  destruct (exec_query_accounts q (InMemory.db s')). now repeat split.
Qed.

Lemma keeps_accounts_emit (t : Target) (e : Event) (s s' : InMemory.State) :
  keeps_accounts s s' -> keeps_accounts s (InMemory.emit t e s').
Proof.
  intros H. apply (keeps_accounts_trans _ _ _ H).
  repeat split; try reflexivity. now apply prefix_app_r.
Qed.

Lemma keeps_accounts_set_socket (socket roomId : string) (userId : Z)
    (s s' : InMemory.State) :
  keeps_accounts s s' -> keeps_accounts s (InMemory.set_socket socket roomId userId s').
Proof. intros H. exact H. Qed.

Lemma keeps_accounts_set_openChallenges (cs : list Challenge.t) (s s' : InMemory.State) :
  keeps_accounts s s' -> keeps_accounts s (InMemory.set_openChallenges cs s').
Proof. intros H. exact H. Qed.

Lemma keeps_accounts_set_activeRooms (rs : gmap string Room.t) (s s' : InMemory.State) :
  keeps_accounts s s' -> keeps_accounts s (InMemory.set_activeRooms rs s').
Proof. intros H. exact H. Qed.

Lemma keeps_accounts_handleGameOver (pow_approx : Number -> Number -> Number)
    (roomId : string) (w : option string) (reason : string) (s s' : InMemory.State) :
  keeps_accounts s s' ->
  keeps_accounts s (InMemory.handleGameOver pow_approx roomId w reason s').
Proof.
  intros H. apply (keeps_accounts_trans _ _ _ H).
  destruct (InMemory.activeRooms s' !! roomId) as [room|] eqn:Hroom.
  - destruct (Room.processed room) eqn:Hp.
    + rewrite mem_handleGameOver_settled by now rewrite Hroom.
      apply keeps_accounts_refl.
    + rewrite (mem_handleGameOver_open _ _ _ _ s' room Hroom Hp).
      destruct (exec_queries_accounts
                  (queries_of (performed (settlement pow_approx roomId room w reason)))
                  (InMemory.db s')) as [Hd Ht].
      repeat split; [exact Hd|exact Ht|now apply prefix_app_r].
  - rewrite mem_handleGameOver_settled by now rewrite Hroom.
    apply keeps_accounts_refl.
Qed.

Ltac keeps_accounts_steps :=
  repeat first
    [ apply keeps_accounts_refl
    | apply keeps_accounts_emit
    | apply keeps_accounts_query
    | apply keeps_accounts_set_socket
    | apply keeps_accounts_set_openChallenges
    | apply keeps_accounts_set_activeRooms
    | apply keeps_accounts_handleGameOver
    | match goal with
      | |- keeps_accounts _ (match ?x with _ => _ end) => destruct x
      | |- keeps_accounts _ (let '(_, _) := ?x in _) => destruct x
      end ].

Lemma keeps_accounts_on (pow_approx : Number -> Number -> Number)
    (socket : string) (m : InMemory.Message) (s s' : InMemory.State) :
  InMemory.on pow_approx socket m s = Some s' -> keeps_accounts s s'.
Proof.
  destruct m; cbn [InMemory.on]; try (intros [= <-]).
  - unfold InMemory.connection. keeps_accounts_steps.
  - unfold InMemory.create_challenge. cbv zeta. keeps_accounts_steps.
  - unfold InMemory.join_challenge. cbv zeta. keeps_accounts_steps.
  - unfold InMemory.cancel_challenge. cbv zeta. keeps_accounts_steps.
  - unfold InMemory.make_move. keeps_accounts_steps.
  - unfold InMemory.game_over. keeps_accounts_steps.
  - unfold InMemory.timeout_loss.
    destruct (_ ≫= _) as [[roomId room]|]; intros [= <-]. keeps_accounts_steps.
  - unfold InMemory.offer_draw. keeps_accounts_steps.
  - unfold InMemory.accept_draw. keeps_accounts_steps.
  - unfold InMemory.disconnect. cbv zeta. keeps_accounts_steps.
Qed.

(** Whatever events are served, as long as no listener throws: no account is
    created or deleted, and the journal of transactions and the messages
    sent are only ever added to. *)
Theorem serve_keeps_accounts (pow_approx : Number -> Number -> Number)
    (ms : list (string * InMemory.Message)) (s s' : InMemory.State) :
  InMemory.serve pow_approx ms s = Some s' -> keeps_accounts s s'.
Proof.
  revert s. induction ms as [|[socket m] ms IH]; intros s; cbn [InMemory.serve].
  - intros [= <-]. apply keeps_accounts_refl.
  - destruct (InMemory.on pow_approx socket m s) as [s1|] eqn:Hon; [|discriminate].
    intros H. apply (keeps_accounts_trans _ s1).
    + exact (keeps_accounts_on _ _ _ _ _ Hon).
    + exact (IH _ H).
Qed.

(** The events of [evening], served from the empty lobby. *)
Lemma serve_keeps_accounts_witness :
  exists s', InMemory.serve pow_unused evening lobby0 = Some s'
             /\ keeps_accounts lobby0 s'.
Proof.
  assert (H : is_Some (InMemory.serve pow_unused evening lobby0))
    by (vm_compute; eauto).
  destruct H as [s' H]. exists s'.
  split; [exact H|exact (serve_keeps_accounts _ _ _ _ H)].
Defined.

Lemma lists_public_only_emit_lobby (t : Target) (cs : list Challenge.t)
    (s : InMemory.State) :
  lists_public_only (InMemory.outbox s) ->
  lists_public_only
    (InMemory.outbox (InMemory.emit t (lobby_update (publicChallenges cs)) s)).
Proof.
  intros H. apply Forall_app. split; [exact H|].
  constructor; [|constructor]. cbn. unfold publicChallenges.
  apply Forall_forall. intros c Hc. now apply list_elem_of_filter in Hc.
Qed.

Lemma lists_public_only_emit (t : Target) (e : Event) (s : InMemory.State) :
  match e with lobby_update _ => False | _ => True end ->
  lists_public_only (InMemory.outbox s) ->
  lists_public_only (InMemory.outbox (InMemory.emit t e s)).
Proof.
  intros He H. apply Forall_app. split; [exact H|].
  constructor; [|constructor]. destruct e; cbn in *; first [contradiction|exact I].
Qed.

Lemma settlement_sends_no_lobby (pow_approx : Number -> Number -> Number)
    (roomId : string) (room : Room.t) (w : option string) (reason : string) :
  lists_public_only
    (events_of (performed (settlement pow_approx roomId room w reason))).
Proof.
  destruct (decide (reason = "draw")) as [->|Hr].
  - rewrite performed_settlement by (left; reflexivity).
    destruct (settlement_draw_shape pow_approx roomId room w) as [_ ->].
    constructor; [exact I|constructor].
  - rewrite performed_settlement_events by assumption.
    destruct (ratings_storable pow_approx room w); [|constructor].
    constructor; [exact I|constructor].
Qed.

Lemma lists_public_only_handleGameOver (pow_approx : Number -> Number -> Number)
    (roomId : string) (w : option string) (reason : string) (s : InMemory.State) :
  lists_public_only (InMemory.outbox s) ->
  lists_public_only
    (InMemory.outbox (InMemory.handleGameOver pow_approx roomId w reason s)).
Proof.
  intros H. destruct (InMemory.activeRooms s !! roomId) as [room|] eqn:Hroom.
  - destruct (Room.processed room) eqn:Hp.
    + now rewrite mem_handleGameOver_settled by now rewrite Hroom.
    + rewrite (mem_handleGameOver_open _ _ _ _ s room Hroom Hp). cbn [InMemory.outbox].
      apply Forall_app. split; [exact H|apply settlement_sends_no_lobby].
  - now rewrite mem_handleGameOver_settled by now rewrite Hroom.
Qed.

Ltac lists_public_only_steps :=
  repeat first
    [ assumption
    | apply lists_public_only_emit_lobby
    | apply lists_public_only_emit; [exact I|]
    | apply lists_public_only_handleGameOver
    | progress change (InMemory.outbox (InMemory.query ?q ?s)) with (InMemory.outbox s)
    | progress change (InMemory.outbox (InMemory.set_socket ?a ?b ?c ?s))
        with (InMemory.outbox s)
    | progress change (InMemory.outbox (InMemory.set_openChallenges ?c ?s))
        with (InMemory.outbox s)
    | progress change (InMemory.outbox (InMemory.set_activeRooms ?r ?s))
        with (InMemory.outbox s)
    | match goal with
      | |- lists_public_only (InMemory.outbox (match ?x with _ => _ end)) => destruct x
      end ].

Lemma lists_public_only_on (pow_approx : Number -> Number -> Number)
    (socket : string) (m : InMemory.Message) (s s' : InMemory.State) :
  InMemory.on pow_approx socket m s = Some s' ->
  lists_public_only (InMemory.outbox s) -> lists_public_only (InMemory.outbox s').
Proof.
  destruct m; cbn [InMemory.on]; try (intros [= <-]); intros H.
  - unfold InMemory.connection. lists_public_only_steps.
  - unfold InMemory.create_challenge. cbv zeta. lists_public_only_steps.
  - unfold InMemory.join_challenge. cbv zeta. lists_public_only_steps.
  - unfold InMemory.cancel_challenge. cbv zeta. lists_public_only_steps.
  - unfold InMemory.make_move. lists_public_only_steps.
  - unfold InMemory.game_over. lists_public_only_steps.
  - revert H. unfold InMemory.timeout_loss.
    destruct (_ ≫= _) as [[roomId room]|]; intros [= <-] H. lists_public_only_steps.
  - unfold InMemory.offer_draw. lists_public_only_steps.
  - unfold InMemory.accept_draw. lists_public_only_steps.
  - unfold InMemory.disconnect. cbv zeta. lists_public_only_steps.
Qed.

(** Whatever events are served, no [lobby_update] ever lists a private
    challenge: every broadcast of the lobby, to one socket or to all, goes
    through the filter on [isPrivate]. *)
Theorem serve_lists_public_only (pow_approx : Number -> Number -> Number)
    (ms : list (string * InMemory.Message)) (s s' : InMemory.State) :
  InMemory.serve pow_approx ms s = Some s' ->
  lists_public_only (InMemory.outbox s) ->
  lists_public_only (InMemory.outbox s').
Proof.
  revert s. induction ms as [|[socket m] ms IH]; intros s; cbn [InMemory.serve].
  - now intros [= <-].
  - destruct (InMemory.on pow_approx socket m s) as [s1|] eqn:Hon; [|discriminate].
    intros H Hs. apply (IH _ H). exact (lists_public_only_on _ _ _ _ _ Hon Hs).
Qed.

(** The events of [evening], one of which opens a private challenge. *)
Lemma serve_lists_public_only_witness :
  exists s', InMemory.serve pow_unused evening lobby0 = Some s'
             /\ lists_public_only (InMemory.outbox s').
Proof.
  assert (H : is_Some (InMemory.serve pow_unused evening lobby0))
    by (vm_compute; eauto).
  destruct H as [s' H]. exists s'.
  split; [exact H|].
  apply (serve_lists_public_only _ _ _ _ H). constructor.
Defined.

(** * The entries of a hash as the listeners see them *)

Lemma elem_of_insert_by_index {V} (x y : N * (string * V))
    (l : list (N * (string * V))) :
  y ∈ Redis.insert_by_index x l <-> y = x \/ y ∈ l.
Proof.
  induction l as [|z l IH]; cbn.
  - rewrite list_elem_of_singleton, elem_of_nil. tauto.
  - destruct (x.1 <=? z.1)%N.
    + rewrite !elem_of_cons. tauto.
    + rewrite !elem_of_cons, IH. tauto.
Qed.

Lemma elem_of_sort_by_index {V} (y : N * (string * V)) (l : list (N * (string * V))) :
  y ∈ Redis.sort_by_index l <-> y ∈ l.
Proof.
  induction l as [|x l IH]; [reflexivity|].
  cbn. rewrite elem_of_insert_by_index, IH, elem_of_cons. tauto.
Qed.

(** [Object.entries] lists every field of the reply, in its own order. *)
Lemma elem_of_entries {V} (h : Redis.Hash V) (kv : string * V) :
  kv ∈ Redis.entries h <-> kv ∈ h.
Proof.
  unfold Redis.entries. rewrite elem_of_app, list_elem_of_fmap, list_elem_of_filter.
  split.
  - intros [([n kv'] & -> & Hin)|[_ Hin]]; [|exact Hin].
    apply elem_of_sort_by_index, list_elem_of_omap in Hin as (kv0 & Hin & Hf).
    destruct (Redis.array_index kv0.1); [|discriminate].
    cbn in Hf. now injection Hf as _ <-.
  - intros Hin. destruct (Redis.array_index kv.1) as [n|] eqn:Hidx.
    + left. exists (n, kv). split; [reflexivity|].
      apply elem_of_sort_by_index, list_elem_of_omap. exists kv.
      split; [exact Hin|]. now rewrite Hidx.
    + right. now split.
Qed.

(** * A room id taken twice in the stateless revision *)

Lemma hGet_hSet {V} (h : Redis.Hash V) (field : string) (value : V) :
  Redis.hGet (Redis.hSet h field value) field = Some value.
Proof.
  induction h as [|[k v] h IH]; cbn.
  - now rewrite decide_True.
  - destruct (decide (k = field)) as [->|Hne]; cbn.
    + now rewrite decide_True.
    + now rewrite decide_False.
Qed.

Lemma length_hSet {V} (h : Redis.Hash V) (field : string) (value old : V) :
  Redis.hGet h field = Some old ->
  length (Redis.hSet h field value) = length h.
Proof.
  induction h as [|[k v] h IH]; cbn; [discriminate|].
  destruct (decide (k = field)); cbn; [reflexivity|]. intros H. now rewrite IH.
Qed.

Lemma elem_of_hSet {V} (h : Redis.Hash V) (field : string) (value : V)
    (k : string) (v : V) :
  NoDup (fst <$> h) ->
  (k, v) ∈ Redis.hSet h field value ->
  (k = field /\ v = value) \/ ((k, v) ∈ h /\ k <> field).
Proof.
  induction h as [|[k0 v0] h IH]; cbn; intros Hnd Hin.
  - apply list_elem_of_singleton in Hin. injection Hin as -> ->. now left.
  - apply NoDup_cons in Hnd as [Hk0 Hnd].
    destruct (decide (k0 = field)) as [->|Hne].
    + apply elem_of_cons in Hin as [[= -> ->]|Hin]; [now left|].
      right. split; [now apply elem_of_cons; right|].
      intros ->. apply Hk0. change field with (fst (field, v)).
      now apply list_elem_of_fmap_2.
    + apply elem_of_cons in Hin as [[= -> ->]|Hin].
      * right. split; [apply elem_of_cons; now left|exact Hne].
      * destruct (IH Hnd Hin) as [?|[? ?]]; [now left|].
        right. split; [apply elem_of_cons; now right|assumption].
Qed.

(** In the stateless revision a challenge created under a room id that is
    already taken replaces the challenge stored there: the hash keeps its
    size, the id now leads to the new challenge, and the earlier host, whose
    stake was debited when it created, no longer hosts anything, so that its
    [cancel_challenge] finds nothing to refund. *)
Theorem redis_create_challenge_overwrites (now : N) (rnd socket : string) (userId : Z)
    (username : string) (stake : Z) (mode : string) (isPrivate : bool) (elo : Number)
    (s : Redis.State) (bal : Z) (old : Challenge.t) :
  NoDup (fst <$> Redis.openChallenges s) ->
  Redis.hGet (Redis.openChallenges s) (newRoomId isPrivate rnd now) = Some old ->
  select_bal (balCol mode) userId (Redis.db s) = Some bal ->
  stake <= bal ->
  Challenge.hostId old <> socket ->
  (forall k c, (k, c) ∈ Redis.openChallenges s ->
               Challenge.hostId c = Challenge.hostId old ->
               k = newRoomId isPrivate rnd now) ->
  let s' := Redis.create_challenge now rnd socket userId username stake mode isPrivate
              elo s in
  Redis.hGet (Redis.openChallenges s') (newRoomId isPrivate rnd now)
    = Some (Challenge.mk (newRoomId isPrivate rnd now) socket userId username stake
                         mode isPrivate elo)
  /\ length (Redis.openChallenges s') = length (Redis.openChallenges s)
  /\ Redis.hosted_by (Challenge.hostId old) (Redis.openChallenges s') = None
  /\ Redis.cancel_challenge (Challenge.hostId old) s' = s'.
Proof.
  intros Hnd Hold Hbal Hle Hhost Honly s'.
  set (roomId := newRoomId isPrivate rnd now) in *.
  set (ch := Challenge.mk roomId socket userId username stake mode isPrivate elo).
  assert (Ho : Redis.openChallenges s' = Redis.hSet (Redis.openChallenges s) roomId ch).
  { unfold s', Redis.create_challenge. rewrite Hbal.
    destruct (bal <? stake) eqn:E; [apply Z.ltb_lt in E; lia|].
    now destruct (decide (mode = "real")). }
  assert (Hnone : Redis.hosted_by (Challenge.hostId old) (Redis.openChallenges s') = None).
  { unfold Redis.hosted_by. rewrite Ho.
    destruct (list_find _ _) as [[i [k c]]|] eqn:Hfind; [|reflexivity].
    apply list_find_Some in Hfind as (Hi & Hc & _). cbn in Hc.
    apply list_elem_of_lookup_2 in Hi. rewrite elem_of_entries in Hi.
    destruct (elem_of_hSet _ _ _ _ _ Hnd Hi) as [[-> ->]|[Hin Hk]].
    - cbn in Hc. congruence.
    - now specialize (Honly k c Hin Hc). }
  split; [rewrite Ho; apply hGet_hSet|].
  split; [rewrite Ho; now apply length_hSet with old|].
  split; [exact Hnone|].
  unfold Redis.cancel_challenge. now rewrite Hnone.
Qed.

(** Accounts 1 and 2 create public challenges in the same millisecond:
    account 1, debited 100, has nothing left to cancel. *)
Lemma redis_create_challenge_overwrites_witness :
  Challenge.userId
    <$> Redis.hGet (Redis.openChallenges rlobby_same_millisecond) "pub_1700000000000"
  = Some 2
  /\ Redis.cancel_challenge "sockA" rlobby_same_millisecond = rlobby_same_millisecond
  /\ select_bal real_balance 1 (Redis.db rlobby_same_millisecond) = Some 900.
Proof.
  destruct (redis_create_challenge_overwrites 1700000000000 "7XW2M" "sockB" 2 "baraka"
              100 "real" false (of_Z 1200) rtable1 1000
              (Challenge.mk "pub_1700000000000" "sockA" 1 "amina" 100 "real" false
                            (of_Z 1200)))
    as (Hget & _ & _ & Hcancel).
  - vm_compute. repeat constructor. intros H. inversion H.
  - vm_compute. reflexivity.
  - vm_compute. reflexivity.
  - lia.
  - discriminate.
  - intros k c Hin _. vm_compute in Hin.
    apply list_elem_of_singleton in Hin. now injection Hin as -> _.
  - split; [|split].
    + exact (f_equal (fmap Challenge.userId) Hget).
    + exact Hcancel.
    + vm_compute. reflexivity.
Defined.

(** * The wallet routes *)

(** [POST /api/withdraw] is refused exactly when the account is unknown or
    holds less real money than the amount, and a refused request leaves the
    tables as they were. *)
Theorem withdraw_refused_iff (userId amount : Z) (nw : option string)
    (st : Http.Store) :
  ((Http.withdraw userId amount nw st).2 = Http.refused 400 "Salio halitoshi"
   <-> forall bal, select_bal real_balance userId (Http.db st) = Some bal ->
                   bal < amount)
  /\ ((Http.withdraw userId amount nw st).2 = Http.refused 400 "Salio halitoshi" ->
      (Http.withdraw userId amount nw st).1 = st).
Proof.
  unfold Http.withdraw.
  destruct (select_bal real_balance userId (Http.db st)) as [bal|].
  - destruct (bal <? amount) eqn:E; cbn.
    + apply Z.ltb_lt in E. split; [|reflexivity].
      split; [|reflexivity]. now intros _ ? [= <-].
    + apply Z.ltb_ge in E. split; [|discriminate].
      split; [discriminate|]. intros H. specialize (H bal eq_refl). lia.
  - cbn. split; [|reflexivity]. split; [|reflexivity]. intros _ ? [=].
Qed.

(** A request to [POST /api/withdraw] served with nothing in between takes
    no balance of real money below zero: the accounts that are not overdrawn
    before are not overdrawn after.  (A negative amount passes the test and
    adds to the balance; [overlapping_withdrawals_both_pass] is what happens
    to two requests that overlap.) *)
Theorem withdraw_never_overdraws (userId amount : Z) (nw : option string)
    (st : Http.Store) :
  (forall id u, users (Http.db st) !! id = Some u -> 0 <= row_real_balance u) ->
  forall id u, users (Http.db (Http.withdraw userId amount nw st).1) !! id = Some u ->
               0 <= row_real_balance u.
Proof.
  intros Hpos id u. unfold Http.withdraw, select_bal.
  destruct (users (Http.db st) !! userId) as [[r d e]|] eqn:Hu; cbn; [|apply Hpos].
  destruct (r <? amount) eqn:E; cbn; [apply Hpos|]. apply Z.ltb_ge in E.
  destruct (decide (id = userId)) as [->|Hne].
  - rewrite lookup_alter_eq, Hu. cbn. intros [= <-]. cbn. lia.
  - rewrite lookup_alter_ne by congruence. apply Hpos.
Qed.

(** Account 1 asks for more than it holds, then for all of it. *)
Lemma withdraw_never_overdraws_witness :
  (Http.withdraw 1 1001 (Some "M-PESA") store1).2 = Http.refused 400 "Salio halitoshi"
  /\ row_real_balance
       <$> users (Http.db (Http.withdraw 1 1000 (Some "M-PESA") store1).1) !! 1
     = Some 0
  /\ forall id u,
       users (Http.db (Http.withdraw 1 1000 (Some "M-PESA") store1).1) !! id = Some u ->
       0 <= row_real_balance u.
Proof.
  split; [vm_compute; reflexivity|]. split; [vm_compute; reflexivity|].
  apply (withdraw_never_overdraws 1 1000 (Some "M-PESA") store1).
  intros id u H.
  destruct (decide (id = 1)) as [->|H1]; [vm_compute in H; injection H as <-; cbn; lia|].
  destruct (decide (id = 2)) as [->|H2]; [vm_compute in H; injection H as <-; cbn; lia|].
  unfold store1, db1 in H. cbn in H.
  rewrite !lookup_insert_ne, lookup_empty in H by congruence. discriminate.
Defined.

(** A stake in escrow cannot be withdrawn: once [create_challenge] has taken
    the stake of a real-money challenge, [POST /api/withdraw] refuses every
    amount above what is left. *)
Theorem escrowed_stake_not_withdrawable (now : N) (rnd socket : string) (userId : Z)
    (username : string) (stake : Z) (isPrivate : bool) (elo : Number)
    (s : InMemory.State) (nws : gmap nat string) (bal amount : Z)
    (nw : option string) :
  select_bal real_balance userId (InMemory.db s) = Some bal ->
  stake <= bal ->
  bal - stake < amount ->
  let st := Http.mkStore
              (InMemory.db (InMemory.create_challenge now rnd socket userId username
                              stake "real" isPrivate elo s)) nws in
  Http.withdraw userId amount nw st = (st, Http.refused 400 "Salio halitoshi").
Proof.
  intros Hbal Hle Hlt st.
  assert (Hnew : select_bal real_balance userId (Http.db st) = Some (bal - stake)).
  { unfold st, InMemory.create_challenge.
    change (balCol "real") with real_balance. rewrite Hbal.
    destruct (bal <? stake) eqn:E; [apply Z.ltb_lt in E; lia|].
    destruct isPrivate; (destruct (decide ("real" = "real")) as [_|]; [|congruence]);
      cbn; unfold select_bal in *; cbn [users]; rewrite lookup_alter_eq;
      destruct (users (InMemory.db s) !! userId) as [[r d e]|]; try discriminate;
      cbn in *; injection Hbal as <-; f_equal; lia. }
  unfold Http.withdraw. rewrite Hnew.
  destruct (bal - stake <? amount) eqn:E; [reflexivity|]. apply Z.ltb_ge in E. lia.
Qed.

(** Account 1 stakes 100 of its 1000 and asks for 901. *)
Lemma escrowed_stake_not_withdrawable_witness :
  Http.withdraw 1 901 None (Http.mkStore (InMemory.db table1) ∅)
  = (Http.mkStore (InMemory.db table1) ∅, Http.refused 400 "Salio halitoshi").
Proof.
  apply (escrowed_stake_not_withdrawable 1700000000000 "K3J9Q" "sockA" 1 "amina" 100
           false (of_Z 1200) table0 ∅ 1000 901 None);
    [vm_compute; reflexivity|lia|lia].
Defined.

(** [POST /api/deposit] never looks whether the account exists: for an
    unknown account no balance changes, yet a DEPOSIT row with status SUCCESS
    is written and the reply reports success. *)
Theorem deposit_unknown_account (userId amount : Z) (nw : option string)
    (st : Http.Store) :
  users (Http.db st) !! userId = None ->
  users (Http.db (Http.deposit userId amount nw st).1) = users (Http.db st)
  /\ transactions (Http.db (Http.deposit userId amount nw st).1)
     = transactions (Http.db st) ++ [mkTransaction userId "DEPOSIT" amount "SUCCESS"]
  /\ (Http.deposit userId amount nw st).2 = Http.success "Muamala Umekamilika".
Proof.
  intros Hu. unfold Http.deposit. cbn.
  split; [now apply alter_id'|]. split; reflexivity.
Qed.

Lemma deposit_unknown_account_witness :
  users (Http.db store1) !! 7 = None
  /\ users (Http.db (Http.deposit 7 500 (Some "M-PESA") store1).1) = users (Http.db store1)
  /\ transactions (Http.db (Http.deposit 7 500 (Some "M-PESA") store1).1)
     = [mkTransaction 7 "DEPOSIT" 500 "SUCCESS"].
Proof.
  assert (H : users (Http.db store1) !! 7 = None) by (vm_compute; reflexivity).
  split; [exact H|].
  destruct (deposit_unknown_account 7 500 (Some "M-PESA") store1 H) as (Hu & Ht & _).
  split; [exact Hu|exact Ht].
Defined.

(** A deposit followed by the withdrawal of the same amount gives an account
    that is not overdrawn its balance back, with a DEPOSIT row and a
    WITHDRAW row added to the journal. *)
Theorem deposit_then_withdraw (userId amount : Z) (nw nw' : option string)
    (st : Http.Store) (u : UserRow) :
  users (Http.db st) !! userId = Some u ->
  0 <= row_real_balance u ->
  let st' := (Http.withdraw userId amount nw' (Http.deposit userId amount nw st).1).1 in
  users (Http.db st') = users (Http.db st)
  /\ transactions (Http.db st')
     = transactions (Http.db st)
       ++ [mkTransaction userId "DEPOSIT" amount "SUCCESS";
           mkTransaction userId "WITHDRAW" amount "PENDING"].
Proof.
  intros Hu Hpos. unfold Http.deposit, Http.withdraw, select_bal. cbn.
  rewrite lookup_alter_eq, Hu. cbn.
  destruct (row_real_balance u + amount <? amount) eqn:E; [apply Z.ltb_lt in E; lia|].
  cbn. split.
  - rewrite alter_alter_eq. apply alter_id. intros [r d e] _. cbn. f_equal. lia.
  - now rewrite <- app_assoc.
Qed.

Lemma deposit_then_withdraw_witness :
  users (Http.db (Http.withdraw 1 250 None (Http.deposit 1 250 None store1).1).1)
  = users (Http.db store1).
Proof.
  apply (deposit_then_withdraw 1 250 None None store1 funded_user);
    [vm_compute; reflexivity|cbn; lia].
Defined.

(** [GET /api/user-data/:id] returns at most ten rows of the journal, all of
    them rows of the account asked for. *)
Theorem user_data_rows (userId : Z) (st : Http.Store) :
  (length (Http.last_transactions userId st) <= 10)%nat
  /\ forall r, r ∈ Http.last_transactions userId st ->
               tx_user_id r.1 = userId /\ r.1 ∈ transactions (Http.db st).
Proof.
  unfold Http.last_transactions. split.
  - rewrite length_take. lia.
  - intros r Hr. apply subseteq_take in Hr. rewrite elem_of_reverse in Hr.
    apply list_elem_of_filter in Hr as [Hid Hr]. split; [exact Hid|].
    apply list_elem_of_lookup in Hr as [i Hi].
    rewrite list_lookup_imap in Hi.
    destruct (transactions (Http.db st) !! i) as [tx|] eqn:Htx; [|discriminate].
    injection Hi as <-. cbn. now apply list_elem_of_lookup_2 in Htx.
Qed.

(** A withdrawal that is accepted heads the account's rows at the next
    [GET /api/user-data/:id], as a WITHDRAW row still PENDING on the network
    it named, and the balance shown is the balance less the amount. *)
Theorem withdraw_then_user_data (userId amount : Z) (nw : option string)
    (st : Http.Store) (u : UserRow) :
  users (Http.db st) !! userId = Some u ->
  amount <= row_real_balance u ->
  (forall i, (length (transactions (Http.db st)) <= i)%nat -> Http.network st !! i = None) ->
  exists rows,
    Http.get_user_data userId (Http.withdraw userId amount nw st).1
    = Http.user_data (row_real_balance u - amount) (row_demo_balance u) (row_elo u)
        ((mkTransaction userId "WITHDRAW" amount "PENDING", nw) :: rows).
Proof.
  intros Hu Hle Hwf. unfold Http.withdraw, select_bal. rewrite Hu. cbn [fmap option_fmap option_map].
  destruct (get_balance real_balance u <? amount) eqn:E;
    [apply Z.ltb_lt in E; cbn in E; lia|].
  unfold Http.get_user_data, Http.last_transactions, Http.insert_transaction.
  cbn [fst Http.db Http.network exec_query update_users users transactions admin_wallet].
  rewrite lookup_alter_eq, Hu. cbn [fmap option_fmap option_map].
  rewrite imap_app, filter_app. cbn [imap]. rewrite filter_cons, decide_True by reflexivity.
  rewrite filter_nil, reverse_app. cbn [reverse rev_append app].
  exists (take 9 (reverse (filter (fun r => tx_user_id r.1 = userId)
                            (imap (fun i tx => (tx, Http.network st !! i))
                                  (transactions (Http.db st)))))).
  destruct u as [r d e]. cbn. rewrite Nat.add_0_r.
  replace (r + - amount) with (r - amount) by lia. f_equal.
  f_equal; [f_equal|].
  - destruct nw as [n|]; [now rewrite lookup_insert_eq|now apply Hwf].
  - do 3 f_equal. apply imap_ext. intros i tx Hi. f_equal.
    destruct nw as [n|]; [|reflexivity].
    apply lookup_lt_Some in Hi. rewrite lookup_insert_ne by lia. reflexivity.
Qed.

Lemma withdraw_then_user_data_witness :
  exists rows,
    Http.get_user_data 1 (Http.withdraw 1 400 (Some "M-PESA") store1).1
    = Http.user_data 600 50000 (of_Z 1200)
        ((mkTransaction 1 "WITHDRAW" 400 "PENDING", Some "M-PESA") :: rows).
Proof.
  apply (withdraw_then_user_data 1 400 (Some "M-PESA") store1 funded_user);
    [vm_compute; reflexivity|cbn; lia|reflexivity].
Defined.

(** The SQLite revision of [POST /api/withdraw] reads the balance of the row
    before looking whether a row came back: it throws on an unknown account,
    where the PostgreSQL revision refuses, and answers as the PostgreSQL
    revision on every known one. *)
Theorem withdraw_sqlite_vs_postgres (userId amount : Z) (nw : option string)
    (st : Http.Store) :
  Http.withdraw_sqlite userId amount nw st
  = match users (Http.db st) !! userId with
    | Some _ => Some (Http.withdraw userId amount nw st)
    | None => None
    end.
Proof.
  unfold Http.withdraw_sqlite, Http.withdraw, select_bal.
  destruct (users (Http.db st) !! userId) as [u|]; cbn; [|reflexivity].
  now destruct (row_real_balance u <? amount).
Qed.

(** * Examples for the facts on overlapping and repeated calls *)

(** sockB's clock runs out on the room of [table2], and the event is sent
    again. *)
Lemma timeout_loss_throws_without_room_witness :
  exists s', InMemory.timeout_loss pow_unused "sockB" table2 = Some s'
             /\ InMemory.timeout_loss pow_unused "sockB" s' = None.
Proof.
  apply (proj2 (timeout_loss_throws_without_room pow_unused "sockB" table2)
           "pub_1700000000000" room_100);
    vm_compute; reflexivity.
Defined.

(** The three reports of [three_reports] resumed in the order [draw_first]:
    the room is settled once, as a draw. *)
Lemma mem_overlapping_calls_settle_once_witness :
  Forall (fun t => t = InMemory.Returned)
    (InMemory.run pow_unused draw_first
       (calls_on "pub_1700000000000" three_reports, table2)).1
  /\ exists w r,
       (w, r) ∈ three_reports
       /\ (InMemory.run pow_unused draw_first
             (calls_on "pub_1700000000000" three_reports, table2)).2
          = InMemory.handleGameOver pow_unused "pub_1700000000000" w r table2.
Proof.
  assert (H : Forall (fun t => t = InMemory.Returned)
                (InMemory.run pow_unused draw_first
                   (calls_on "pub_1700000000000" three_reports, table2)).1)
    by (vm_compute; repeat constructor).
  split; [exact H|].
  exact (mem_overlapping_calls_settle_once pow_unused "pub_1700000000000" room_100
           table2 three_reports ltac:(vm_compute; reflexivity) eq_refl draw_first
           ltac:(discriminate) H).
Defined.

(** The two claims of victory on the room of [rtable2]. *)
Lemma redis_overlapping_calls_both_pass_witness :
  length (Redis.run pow_unused [0; 1; 0; 1]%nat (both_claim_victory, rtable2)).1 = 2%nat
  /\ Forall (fun t => match t with Redis.Awaiting _ (_ :: _) => True | _ => False end)
       (Redis.run pow_unused [0; 1; 0; 1]%nat (both_claim_victory, rtable2)).1.
Proof.
  unfold both_claim_victory.
  rewrite (redis_overlapping_calls_both_pass pow_unused "pub_1700000000000" room_100
             (Some "sockA") (Some "sockB") "regular" "regular" rtable2
             ltac:(vm_compute; reflexivity) eq_refl).
  split; [reflexivity|]. repeat constructor.
Defined.

(** Account 1 puts up 100 demo units. *)
Lemma create_challenge_accepted_witness :
  length (InMemory.openChallenges lobby1) = 1%nat
  /\ select_bal demo_balance 1 (InMemory.db lobby1) = Some 49900.
Proof.
  destruct (create_challenge_accepted 1700000000000 "K3J9Q" "sockA" 1 "amina" 100
              "demo" false (of_Z 1200) lobby0 50000 eq_refl ltac:(lia)) as [Ho Hb].
  split; [|exact Hb]. unfold lobby1. now rewrite Ho.
Defined.

(** Either player of [table2] reports that the opponent won. *)
Lemma game_over_opponent_credits_p2_witness :
  payouts_announced (InMemory.outbox (InMemory.game_over pow_unused "sockA" "opponent" table2))
  = [(2, 180)]
  /\ payouts_announced
       (InMemory.outbox (InMemory.game_over pow_unused "sockB" "opponent" table2))
     = [(2, 180)].
Proof.
  split.
  - destruct (game_over_opponent_credits_p2 pow_unused "sockA" table2
                "pub_1700000000000" room_100 ltac:(vm_compute; reflexivity)
                ltac:(vm_compute; reflexivity) eq_refl) as [_ H].
    rewrite H. vm_compute. reflexivity.
  - vm_compute. reflexivity.
Defined.

(** * A whole match *)

(** From the creation of a challenge to the payout, the three events served
    one after the other, each to its end before the next arrives: the host
    puts up the stake under a room id no open challenge has, another account
    joins on another socket, the host reports its win.  When the store takes
    the two new ratings, the host ends with its balance plus the stake less
    the fee, the joiner with its balance less the stake, the wallet with the
    fee in real mode and nothing otherwise; the room is gone and the open
    challenges are those there were. *)
Theorem match_from_challenge_to_payout (pow_approx : Number -> Number -> Number)
    (now : N) (rnd sockA sockB : string) (uidA uidB : Z) (nameA nameB : string)
    (stake : Z) (mode : string) (isPrivate : bool) (eloA eloB : Number)
    (s : InMemory.State) (balA balB : Z) :
  sockA <> sockB ->
  uidA <> uidB ->
  select_bal (balCol mode) uidA (InMemory.db s) = Some balA ->
  stake <= balA ->
  select_bal (balCol mode) uidB (InMemory.db s) = Some balB ->
  stake <= balB ->
  Forall (fun c => Challenge.roomId c <> newRoomId isPrivate rnd now)
         (InMemory.openChallenges s) ->
  storable (updateElo pow_approx eloA eloB).1 = true ->
  storable (updateElo pow_approx eloA eloB).2 = true ->
  let roomId := newRoomId isPrivate rnd now in
  let fee := platformFee (stake * 2) in
  exists s3,
    InMemory.serve pow_approx
      [(sockA, InMemory.msg_create_challenge now rnd uidA nameA stake mode isPrivate eloA);
       (sockB, InMemory.msg_join_challenge uidB nameB roomId eloB);
       (sockA, InMemory.msg_game_over "me")] s
    = Some s3
    /\ select_bal (balCol mode) uidA (InMemory.db s3) = Some (balA + stake - fee)
    /\ select_bal (balCol mode) uidB (InMemory.db s3) = Some (balB - stake)
    /\ admin_wallet (InMemory.db s3)
       = admin_wallet (InMemory.db s) + (if decide (mode = "real") then fee else 0)
    /\ InMemory.activeRooms s3 !! roomId = None
    /\ InMemory.openChallenges s3 = InMemory.openChallenges s.
Proof.
  intros Hsock Huid HbalA HleA HbalB HleB Hfresh Hst1 Hst2 roomId fee.
  set (s1 := InMemory.create_challenge now rnd sockA uidA nameA stake mode isPrivate
               eloA s).
  set (s2 := InMemory.join_challenge sockB uidB nameB roomId eloB s1).
  set (s3 := InMemory.game_over pow_approx sockA "me" s2).
  exists s3. split; [reflexivity|].
  set (ch := Challenge.mk roomId sockA uidA nameA stake mode isPrivate eloA).
  set (room := Room.mk (Player.mk sockA uidA eloA) (Player.mk sockB uidB eloB)
                       stake mode false).
  (* after the creation *)
  assert (H1 : InMemory.openChallenges s1 = InMemory.openChallenges s ++ [ch]
               /\ InMemory.activeRooms s1 = InMemory.activeRooms s
               /\ InMemory.sockets s1 = <[sockA := (roomId, uidA)]> (InMemory.sockets s)
               /\ users (InMemory.db s1)
                  = alter (add_balance (balCol mode) (- stake)) uidA
                      (users (InMemory.db s))
               /\ admin_wallet (InMemory.db s1) = admin_wallet (InMemory.db s)).
  { unfold s1, InMemory.create_challenge. rewrite HbalA.
    destruct (balA <? stake) eqn:E; [apply Z.ltb_lt in E; lia|].
    destruct isPrivate; destruct (decide (mode = "real")); cbn; auto. }
  destruct H1 as (Ho1 & Hr1 & Hs1 & Hu1 & Ha1).
  (* after the join *)
  assert (Hfind : list_find (fun c => Challenge.roomId c = roomId)
                    (InMemory.openChallenges s1)
                  = Some (length (InMemory.openChallenges s), ch)).
  { rewrite Ho1, list_find_app_r by (apply list_find_None; exact Hfresh).
    cbn. rewrite decide_True by reflexivity. reflexivity. }
  assert (HbalB1 : select_bal (balCol mode) uidB (InMemory.db s1) = Some balB).
  { unfold select_bal in *. rewrite Hu1, lookup_alter_ne by congruence. exact HbalB. }
  assert (H2 : InMemory.openChallenges s2 = InMemory.openChallenges s
               /\ InMemory.activeRooms s2 = <[roomId := room]> (InMemory.activeRooms s)
               /\ InMemory.sockets s2
                  = <[sockB := (roomId, uidB)]>
                      (<[sockA := (roomId, uidA)]> (InMemory.sockets s))
               /\ users (InMemory.db s2)
                  = alter (add_balance (balCol mode) (- stake)) uidB
                      (alter (add_balance (balCol mode) (- stake)) uidA
                         (users (InMemory.db s)))
               /\ admin_wallet (InMemory.db s2) = admin_wallet (InMemory.db s)).
  { unfold s2, InMemory.join_challenge. rewrite Hfind.
    cbn [Challenge.userId Challenge.mode Challenge.stake Challenge.hostId
         Challenge.elo Challenge.hostName ch].
    destruct (decide (uidA = uidB)) as [|_]; [contradiction|].
    rewrite HbalB1.
    destruct (balB <? stake) eqn:E; [apply Z.ltb_lt in E; lia|].
    destruct (decide (mode = "real")); cbn;
      rewrite Ho1, Hr1, Hs1, Hu1, Ha1, delete_middle, app_nil_r; auto. }
  destruct H2 as (Ho2 & Hr2 & Hs2 & Hu2 & Ha2).
  (* the settlement *)
  assert (Hroom : InMemory.activeRooms s2 !! roomId = Some room)
    by (rewrite Hr2; apply lookup_insert_eq).
  assert (H3 : s3 = InMemory.handleGameOver pow_approx roomId (Some sockA) "regular" s2).
  { unfold s3, InMemory.game_over, InMemory.socket_roomId.
    rewrite Hs2, lookup_insert_ne, lookup_insert_eq by congruence. reflexivity. }
  rewrite H3, (mem_handleGameOver_open _ _ _ _ s2 room Hroom eq_refl).
  rewrite performed_settlement.
  2:{ right. unfold ratings_storable, new_ratings.
      cbn [Room.p1 Room.p2 Player.id Player.elo room].
      destruct (decide (Some sockA = Some sockA)) as [_|]; [|congruence].
      cbn [Player.elo]. now rewrite Hst1, Hst2. }
  cbn [InMemory.db InMemory.activeRooms InMemory.openChallenges].
  rewrite settlement_queries_decisive_shape by discriminate.
  cbn [Room.p1 Room.p2 Room.stake Room.mode Player.id Player.userId Player.elo room].
  destruct (decide (Some sockA = Some sockA)) as [_|]; [|congruence].
  cbn [Player.userId Player.elo]. fold fee.
  clear Hst1 Hst2. generalize (updateElo pow_approx eloA eloB). intros newElos.
  unfold exec_queries.
  split; [|split; [|split; [|split]]].
  - destruct (decide (mode = "real"));
      unfold select_bal in *;
      cbn [foldl app exec_query update_users users admin_wallet transactions];
      rewrite Hu2, lookup_alter_ne, lookup_alter_eq, lookup_alter_ne, lookup_alter_eq
        by congruence;
      (destruct (users (InMemory.db s) !! uidA) as [[r d el]|]; [|discriminate]);
      cbn in *; injection HbalA as <-; destruct (balCol mode); cbn; f_equal; lia.
  - destruct (decide (mode = "real"));
      unfold select_bal in *;
      cbn [foldl app exec_query update_users users admin_wallet transactions];
      rewrite Hu2, lookup_alter_eq, lookup_alter_ne, lookup_alter_eq, lookup_alter_ne
        by congruence;
      (destruct (users (InMemory.db s) !! uidB) as [[r d el]|]; [|discriminate]);
      cbn in *; injection HbalB as <-; destruct (balCol mode); cbn; f_equal; lia.
  - destruct (decide (mode = "real"));
      cbn [foldl app exec_query update_users users admin_wallet transactions];
      rewrite Ha2; lia.
  - apply lookup_delete_eq.
  - exact Ho2.
Qed.

(** The match of [table2], won by its host: 900 + 180, 900, and a fee of
    20. *)
Lemma match_from_challenge_to_payout_witness :
  select_bal real_balance 1
    (InMemory.db (InMemory.game_over pow_unused "sockA" "me" table2)) = Some 1080
  /\ select_bal real_balance 2
       (InMemory.db (InMemory.game_over pow_unused "sockA" "me" table2)) = Some 900
  /\ admin_wallet (InMemory.db (InMemory.game_over pow_unused "sockA" "me" table2)) = 20.
Proof.
  destruct (match_from_challenge_to_payout pow_unused 1700000000000 "K3J9Q" "sockA"
              "sockB" 1 2 "amina" "baraka" 100 "real" false (of_Z 1200) (of_Z 1200)
              table0 1000 1000)
    as (s3 & Hs3 & HA & HB & Hw & _);
    try (vm_compute; reflexivity); try discriminate; try lia.
  - constructor.
  - injection Hs3 as <-. split; [exact HA|]. split; [exact HB|exact Hw].
Defined.

(** * More on the stateless revision *)

(** In the stateless revision, joins served one after the other: [hDel]
    takes the challenge out of the hash, the room is stored under its id, and
    whoever asks for the same id after the join has returned is told that the
    match is not found, with nothing else changed. *)
Theorem redis_join_challenge_once (socket : string) (userId : Z)
    (username roomId : string) (elo : Number) (s : Redis.State) (c : Challenge.t)
    (bal : Z) :
  Redis.hGet (Redis.openChallenges s) roomId = Some c ->
  Challenge.userId c <> userId ->
  select_bal (balCol (Challenge.mode c)) userId (Redis.db s) = Some bal ->
  Challenge.stake c <= bal ->
  let s1 := Redis.join_challenge socket userId username roomId elo s in
  Redis.hGet (Redis.activeRooms s1) roomId
    = Some (Room.mk (Player.mk (Challenge.hostId c) (Challenge.userId c)
                               (Challenge.elo c))
                    (Player.mk socket userId elo)
                    (Challenge.stake c) (Challenge.mode c) false)
  /\ forall socket' userId' username' elo',
       Redis.join_challenge socket' userId' username' roomId elo' s1
       = Redis.emit (to_socket socket') (error "Mechi haipatikani.") s1.
Proof.
  intros Hget Hne Hbal Hle s1.
  assert (H1 : Redis.openChallenges s1 = Redis.hDel (Redis.openChallenges s) roomId
               /\ Redis.activeRooms s1
                  = Redis.hSet (Redis.activeRooms s) roomId
                      (Room.mk (Player.mk (Challenge.hostId c) (Challenge.userId c)
                                          (Challenge.elo c))
                               (Player.mk socket userId elo)
                               (Challenge.stake c) (Challenge.mode c) false)).
  { unfold s1, Redis.join_challenge. rewrite Hget.
    destruct (decide (Challenge.userId c = userId)) as [|_]; [contradiction|].
    rewrite Hbal.
    destruct (bal <? Challenge.stake c) eqn:E; [apply Z.ltb_lt in E; lia|].
    now destruct (decide (Challenge.mode c = "real")). }
  destruct H1 as [Ho Hr]. split.
  - rewrite Hr. apply hGet_hSet.
  - intros socket' userId' username' elo'.
    unfold Redis.join_challenge at 1. now rewrite Ho, hGet_hDel.
Qed.

(** Account 2 joins the challenge of [rtable1]; a third socket comes late. *)
Lemma redis_join_challenge_once_witness :
  Redis.hGet (Redis.activeRooms rtable2) "pub_1700000000000" = Some room_100
  /\ Redis.join_challenge "sockC" 3 "chiku" "pub_1700000000000" (of_Z 1200) rtable2
     = Redis.emit (to_socket "sockC") (error "Mechi haipatikani.") rtable2.
Proof.
  destruct (redis_join_challenge_once "sockB" 2 "baraka" "pub_1700000000000"
              (of_Z 1200) rtable1
              (Challenge.mk "pub_1700000000000" "sockA" 1 "amina" 100 "real" false
                            (of_Z 1200))
              1000) as (Hr & Hlate).
  - vm_compute. reflexivity.
  - discriminate.
  - vm_compute. reflexivity.
  - cbn. lia.
  - split; [exact Hr|apply Hlate].
Defined.

(** sockA leaves with its challenge of [rtable1] open. *)
Lemma redis_disconnect_refunds_open_challenge_witness :
  select_bal real_balance 1 (Redis.db rtable1) = Some 900
  /\ select_bal real_balance 1 (Redis.db (Redis.disconnect pow_unused "sockA" rtable1))
     = Some 1000
  /\ Redis.openChallenges (Redis.disconnect pow_unused "sockA" rtable1) = [].
Proof.
  split; [vm_compute; reflexivity|].
  rewrite (redis_disconnect_refunds_open_challenge pow_unused "sockA" rtable1
             "pub_1700000000000"
             (Challenge.mk "pub_1700000000000" "sockA" 1 "amina" 100 "real" false
                           (of_Z 1200))).
  - split; vm_compute; reflexivity.
  - vm_compute. reflexivity.
  - intros roomId' H. vm_compute in H. injection H as <-. reflexivity.
Defined.

(** sockB leaves the running match of [rtable2]. *)
Lemma redis_disconnect_in_open_room_witness :
  Redis.db (Redis.disconnect pow_unused "sockB" rtable2)
  = Redis.db (Redis.timeout_loss pow_unused "sockB" rtable2)
  /\ payouts_announced (Redis.outbox (Redis.disconnect pow_unused "sockB" rtable2))
     = [(1, 180)].
Proof.
  split.
  - apply (redis_disconnect_in_open_room pow_unused "sockB" rtable2
             "pub_1700000000000" room_100);
      [vm_compute; reflexivity|discriminate|vm_compute; reflexivity|reflexivity
      |vm_compute; reflexivity].
  - vm_compute. reflexivity.
Defined.

(** A stake of 100: a fee of 20 on a pot of 200. *)
Lemma platformFee_bounds_witness :
  platformFee (100 * 2) = 20 /\ 0 <= platformFee (100 * 2) <= 100 * 2.
Proof.
  destruct (platformFee_bounds 100 ltac:(lia)) as [He Hb].
  split; [rewrite He; reflexivity|exact Hb].
Defined.

(** * Requests that overlap *)

(** Two joins of the same challenge of [server.js] that overlap: both pass
    [findIndex] and the test on the creator, and both have the reply of
    their SELECT, before either has spliced the list; both can afford the
    stake.  Both accounts are debited; the
    room is the second joiner's, the first having lost its seat; and the
    second [splice], at the index found before the [await], takes out of the
    list whatever challenge has moved to that index. *)
Theorem overlapping_joins_both_pay (socketB socketC : string) (uidB uidC : Z)
    (nameB nameC roomId : string) (eloB eloC : Number) (s : InMemory.State)
    (i : nat) (c : Challenge.t) (balB balC : Z) :
  InMemory.join_found uidB roomId s = Some (i, c) ->
  InMemory.join_found uidC roomId s = Some (i, c) ->
  uidB <> uidC ->
  select_bal (balCol (Challenge.mode c)) uidB (InMemory.db s) = Some balB ->
  Challenge.stake c <= balB ->
  select_bal (balCol (Challenge.mode c)) uidC (InMemory.db s) = Some balC ->
  Challenge.stake c <= balC ->
  let s1 := InMemory.join_resume socketB uidB nameB roomId eloB i c (Some balB) s in
  let s2 := InMemory.join_resume socketC uidC nameC roomId eloC i c (Some balC) s1 in
  select_bal (balCol (Challenge.mode c)) uidB (InMemory.db s2)
    = Some (balB - Challenge.stake c)
  /\ select_bal (balCol (Challenge.mode c)) uidC (InMemory.db s2)
     = Some (balC - Challenge.stake c)
  /\ InMemory.activeRooms s2 !! roomId
     = Some (Room.mk (Player.mk (Challenge.hostId c) (Challenge.userId c)
                                (Challenge.elo c))
                     (Player.mk socketC uidC eloC)
                     (Challenge.stake c) (Challenge.mode c) false)
  /\ InMemory.openChallenges s2 = delete i (delete i (InMemory.openChallenges s)).
Proof.
  intros _ _ Huid HbalB HleB HbalC HleC s1 s2.
  assert (H1 : InMemory.openChallenges s1 = delete i (InMemory.openChallenges s)
               /\ users (InMemory.db s1)
                  = alter (add_balance (balCol (Challenge.mode c)) (- Challenge.stake c))
                      uidB (users (InMemory.db s))).
  { unfold s1, InMemory.join_resume.
    destruct (balB <? Challenge.stake c) eqn:E; [apply Z.ltb_lt in E; lia|].
    now destruct (decide (Challenge.mode c = "real")). }
  destruct H1 as [Ho1 Hu1].
  assert (H2 : InMemory.openChallenges s2 = delete i (InMemory.openChallenges s1)
               /\ users (InMemory.db s2)
                  = alter (add_balance (balCol (Challenge.mode c)) (- Challenge.stake c))
                      uidC (users (InMemory.db s1))
               /\ InMemory.activeRooms s2 !! roomId
                  = Some (Room.mk (Player.mk (Challenge.hostId c) (Challenge.userId c)
                                             (Challenge.elo c))
                                  (Player.mk socketC uidC eloC)
                                  (Challenge.stake c) (Challenge.mode c) false)).
  { unfold s2, InMemory.join_resume.
    destruct (balC <? Challenge.stake c) eqn:E; [apply Z.ltb_lt in E; lia|].
    destruct (decide (Challenge.mode c = "real"));
      cbn [InMemory.query InMemory.emit InMemory.set_socket InMemory.set_openChallenges
           InMemory.set_activeRooms InMemory.openChallenges InMemory.activeRooms
           InMemory.sockets InMemory.db InMemory.outbox exec_query update_users users];
      rewrite lookup_insert_eq; auto. }
  destruct H2 as (Ho2 & Hu2 & Hr2).
  split; [|split; [|split]].
  - unfold select_bal in *. rewrite Hu2, Hu1, lookup_alter_ne, lookup_alter_eq by congruence.
    destruct (users (InMemory.db s) !! uidB) as [[r d e]|]; [|discriminate].
    cbn in *. injection HbalB as <-.
    destruct (balCol (Challenge.mode c)); cbn; f_equal; lia.
  - unfold select_bal in *. rewrite Hu2, Hu1, lookup_alter_eq, lookup_alter_ne by congruence.
    destruct (users (InMemory.db s) !! uidC) as [[r d e]|]; [|discriminate].
    cbn in *. injection HbalC as <-.
    destruct (balCol (Challenge.mode c)); cbn; f_equal; lia.
  - exact Hr2.
  - now rewrite Ho2, Ho1.
Qed.

(** Accounts 1 and 3 both ask to join the challenge of sockB in [two_open]:
    both pay 100, account 3 has the seat, and the challenge of sockD, which
    nobody joined, is gone from the list. *)
Lemma overlapping_joins_both_pay_witness :
  Challenge.hostId <$> InMemory.openChallenges two_open = ["sockB"; "sockD"]
  /\ select_bal real_balance 1
       (InMemory.db
          (InMemory.join_resume "sockC" 3 "chiku" "pub_1700000000000" (of_Z 1200) 0
             (Challenge.mk "pub_1700000000000" "sockB" 2 "baraka" 100 "real" false
                           (of_Z 1200))
             (Some 1000)
             (InMemory.join_resume "sockA" 1 "amina" "pub_1700000000000" (of_Z 1200) 0
                (Challenge.mk "pub_1700000000000" "sockB" 2 "baraka" 100 "real" false
                              (of_Z 1200))
                (Some 1000) two_open)))
     = Some 900
  /\ InMemory.openChallenges
       (InMemory.join_resume "sockC" 3 "chiku" "pub_1700000000000" (of_Z 1200) 0
          (Challenge.mk "pub_1700000000000" "sockB" 2 "baraka" 100 "real" false
                        (of_Z 1200))
          (Some 1000)
          (InMemory.join_resume "sockA" 1 "amina" "pub_1700000000000" (of_Z 1200) 0
             (Challenge.mk "pub_1700000000000" "sockB" 2 "baraka" 100 "real" false
                           (of_Z 1200))
             (Some 1000) two_open))
     = [].
Proof.
  split; [vm_compute; reflexivity|].
  destruct (overlapping_joins_both_pay "sockA" "sockC" 1 3 "amina" "chiku"
              "pub_1700000000000" (of_Z 1200) (of_Z 1200) two_open 0
              (Challenge.mk "pub_1700000000000" "sockB" 2 "baraka" 100 "real" false
                            (of_Z 1200))
              1000 1000 ltac:(vm_compute; reflexivity) ltac:(vm_compute; reflexivity)
              ltac:(discriminate) ltac:(vm_compute; reflexivity) ltac:(cbn; lia)
              ltac:(vm_compute; reflexivity) ltac:(cbn; lia))
    as (HB & _ & _ & Ho).
  split; [exact HB|]. rewrite Ho. vm_compute. reflexivity.
Defined.

(** The same in the stateless revision: two joins whose [hGet] both returned
    the challenge and whose SELECTs were both answered before either [hDel],
    both able to afford the stake.  Both accounts are debited
    and the room stored under the id is the second joiner's. *)
Theorem redis_overlapping_joins_both_pay (socketB socketC : string) (uidB uidC : Z)
    (nameB nameC roomId : string) (eloB eloC : Number) (s : Redis.State)
    (c : Challenge.t) (balB balC : Z) :
  Redis.join_found uidB roomId s = Some c ->
  Redis.join_found uidC roomId s = Some c ->
  uidB <> uidC ->
  select_bal (balCol (Challenge.mode c)) uidB (Redis.db s) = Some balB ->
  Challenge.stake c <= balB ->
  select_bal (balCol (Challenge.mode c)) uidC (Redis.db s) = Some balC ->
  Challenge.stake c <= balC ->
  let s1 := Redis.join_resume socketB uidB nameB roomId eloB c (Some balB) s in
  let s2 := Redis.join_resume socketC uidC nameC roomId eloC c (Some balC) s1 in
  select_bal (balCol (Challenge.mode c)) uidB (Redis.db s2)
    = Some (balB - Challenge.stake c)
  /\ select_bal (balCol (Challenge.mode c)) uidC (Redis.db s2)
     = Some (balC - Challenge.stake c)
  /\ Redis.hGet (Redis.activeRooms s2) roomId
     = Some (Room.mk (Player.mk (Challenge.hostId c) (Challenge.userId c)
                                (Challenge.elo c))
                     (Player.mk socketC uidC eloC)
                     (Challenge.stake c) (Challenge.mode c) false).
Proof.
  intros _ _ Huid HbalB HleB HbalC HleC s1 s2.
  assert (Hu1 : users (Redis.db s1)
                = alter (add_balance (balCol (Challenge.mode c)) (- Challenge.stake c))
                    uidB (users (Redis.db s))).
  { unfold s1, Redis.join_resume.
    destruct (balB <? Challenge.stake c) eqn:E; [apply Z.ltb_lt in E; lia|].
    now destruct (decide (Challenge.mode c = "real")). }
  assert (H2 : users (Redis.db s2)
               = alter (add_balance (balCol (Challenge.mode c)) (- Challenge.stake c))
                   uidC (users (Redis.db s1))
               /\ Redis.hGet (Redis.activeRooms s2) roomId
                  = Some (Room.mk (Player.mk (Challenge.hostId c) (Challenge.userId c)
                                             (Challenge.elo c))
                                  (Player.mk socketC uidC eloC)
                                  (Challenge.stake c) (Challenge.mode c) false)).
  { unfold s2, Redis.join_resume.
    destruct (balC <? Challenge.stake c) eqn:E; [apply Z.ltb_lt in E; lia|].
    destruct (decide (Challenge.mode c = "real"));
      cbn [Redis.query Redis.emit Redis.set_socket Redis.set_openChallenges
           Redis.broadcastLobby Redis.set_activeRooms Redis.openChallenges
           Redis.activeRooms Redis.sockets Redis.db Redis.outbox exec_query
           update_users users];
      rewrite hGet_hSet; auto. }
  destruct H2 as (Hu2 & Hr2).
  split; [|split].
  - unfold select_bal in *. rewrite Hu2, Hu1, lookup_alter_ne, lookup_alter_eq by congruence.
    destruct (users (Redis.db s) !! uidB) as [[r d e]|]; [|discriminate].
    cbn in *. injection HbalB as <-.
    destruct (balCol (Challenge.mode c)); cbn; f_equal; lia.
  - unfold select_bal in *. rewrite Hu2, Hu1, lookup_alter_eq, lookup_alter_ne by congruence.
    destruct (users (Redis.db s) !! uidC) as [[r d e]|]; [|discriminate].
    cbn in *. injection HbalC as <-.
    destruct (balCol (Challenge.mode c)); cbn; f_equal; lia.
  - exact Hr2.
Qed.

(** Accounts 1 and 3 both ask to join the challenge of sockB in [rone_open]:
    account 1 has paid 100 for the seat that account 3 holds. *)
Lemma redis_overlapping_joins_both_pay_witness :
  select_bal real_balance 1
    (Redis.db
       (Redis.join_resume "sockC" 3 "chiku" "pub_1700000000000" (of_Z 1200)
          (Challenge.mk "pub_1700000000000" "sockB" 2 "baraka" 100 "real" false
                        (of_Z 1200))
          (Some 1000)
          (Redis.join_resume "sockA" 1 "amina" "pub_1700000000000" (of_Z 1200)
             (Challenge.mk "pub_1700000000000" "sockB" 2 "baraka" 100 "real" false
                           (of_Z 1200))
             (Some 1000) rone_open)))
  = Some 900.
Proof.
  destruct (redis_overlapping_joins_both_pay "sockA" "sockC" 1 3 "amina" "chiku"
              "pub_1700000000000" (of_Z 1200) (of_Z 1200) rone_open
              (Challenge.mk "pub_1700000000000" "sockB" 2 "baraka" 100 "real" false
                            (of_Z 1200))
              1000 1000 ltac:(vm_compute; reflexivity) ltac:(vm_compute; reflexivity)
              ltac:(discriminate) ltac:(vm_compute; reflexivity) ltac:(cbn; lia)
              ltac:(vm_compute; reflexivity) ltac:(cbn; lia))
    as (HB & _).
  exact HB.
Defined.

(** In the stateless revision a [cancel_challenge] and a [disconnect] of the
    same socket that overlap, as when a client cancels and leaves at once:
    each acts on its own reply of [hGetAll], and both replies list the
    challenge.  The stake is credited twice. *)
Theorem redis_overlapping_cancel_and_disconnect_refund_twice
    (pow_approx : Number -> Number -> Number) (socket roomId : string)
    (c : Challenge.t) (s : Redis.State) (bal : Z) :
  Redis.hosted_by socket (Redis.openChallenges s) = Some (roomId, c) ->
  (forall roomId', Redis.socket_roomId socket s = Some roomId' ->
                   Redis.hGet (Redis.activeRooms s) roomId' = None) ->
  select_bal (balCol (Challenge.mode c)) (Challenge.userId c) (Redis.db s) = Some bal ->
  let s' := Redis.disconnect_resume pow_approx socket roomId c
              (Redis.cancel_resume socket roomId c s) in
  select_bal (balCol (Challenge.mode c)) (Challenge.userId c) (Redis.db s')
    = Some (bal + Challenge.stake c + Challenge.stake c)
  /\ Redis.hGet (Redis.openChallenges s') roomId = None.
Proof.
  intros _ Hroom Hbal s'.
  assert (Hs' : users (Redis.db s')
                = alter (add_balance (balCol (Challenge.mode c)) (Challenge.stake c))
                    (Challenge.userId c)
                    (alter (add_balance (balCol (Challenge.mode c)) (Challenge.stake c))
                       (Challenge.userId c) (users (Redis.db s)))
                /\ Redis.openChallenges s'
                   = Redis.hDel (Redis.hDel (Redis.openChallenges s) roomId) roomId).
  { unfold s', Redis.disconnect_resume, Redis.cancel_resume, Redis.disconnect_room,
      Redis.broadcastLobby, Redis.socket_roomId in *.
    cbn [Redis.query Redis.emit Redis.set_openChallenges Redis.openChallenges
         Redis.activeRooms Redis.sockets Redis.db Redis.outbox].
    destruct (Redis.sockets s !! socket) as [[rid uid]|] eqn:Hs;
      cbn [fmap option_fmap option_map fst]; [|now split].
    destruct (truthy rid); [|now split].
    rewrite (Hroom rid eq_refl). now split. }
  destruct Hs' as [Hu Ho]. split.
  - unfold select_bal in *. rewrite Hu, !lookup_alter_eq.
    destruct (users (Redis.db s) !! Challenge.userId c) as [[r d e]|]; [|discriminate].
    cbn in *. injection Hbal as <-.
    destruct (balCol (Challenge.mode c)); cbn; f_equal; lia.
  - rewrite Ho. apply hGet_hDel.
Qed.

(** sockA cancels its challenge of [rtable1] and leaves at once: account 1,
    which held 1000 and staked 100, ends with 1100. *)
Lemma redis_overlapping_cancel_and_disconnect_refund_twice_witness :
  select_bal real_balance 1 (Redis.db rtable0) = Some 1000
  /\ select_bal real_balance 1
       (Redis.db
          (Redis.disconnect_resume pow_unused "sockA" "pub_1700000000000"
             (Challenge.mk "pub_1700000000000" "sockA" 1 "amina" 100 "real" false
                           (of_Z 1200))
             (Redis.cancel_resume "sockA" "pub_1700000000000"
                (Challenge.mk "pub_1700000000000" "sockA" 1 "amina" 100 "real" false
                              (of_Z 1200))
                rtable1)))
     = Some 1100.
Proof.
  split; [vm_compute; reflexivity|].
  destruct (redis_overlapping_cancel_and_disconnect_refund_twice pow_unused "sockA"
              "pub_1700000000000"
              (Challenge.mk "pub_1700000000000" "sockA" 1 "amina" 100 "real" false
                            (of_Z 1200))
              rtable1 900) as [H _].
  - vm_compute. reflexivity.
  - intros roomId' Hr. vm_compute in Hr. injection Hr as <-. reflexivity.
  - vm_compute. reflexivity.
  - exact H.
Defined.

(** Two requests to [POST /api/withdraw] on one account that overlap: both
    SELECTs are answered before either UPDATE, so both see the balance [bal]
    and both pass the test when neither amount exceeds it.  Both are
    accepted and the balance becomes [bal] less the two amounts, below zero
    when together they exceed it. *)
Theorem overlapping_withdrawals_both_pass (userId a1 a2 : Z) (nw1 nw2 : option string)
    (st : Http.Store) (bal : Z) :
  select_bal real_balance userId (Http.db st) = Some bal ->
  a1 <= bal ->
  a2 <= bal ->
  let r1 := Http.withdraw_resume userId a1 nw1 (Some bal) st in
  let r2 := Http.withdraw_resume userId a2 nw2 (Some bal) r1.1 in
  r1.2 = Http.success "Ombi limetumwa."
  /\ r2.2 = Http.success "Ombi limetumwa."
  /\ select_bal real_balance userId (Http.db r2.1) = Some (bal - a1 - a2).
Proof.
  intros Hbal H1 H2. unfold Http.withdraw_resume, Http.insert_transaction.
  destruct (bal <? a1) eqn:E1; [apply Z.ltb_lt in E1; lia|].
  destruct (bal <? a2) eqn:E2; [apply Z.ltb_lt in E2; lia|].
  cbn. split; [reflexivity|]. split; [reflexivity|].
  unfold select_bal in *. cbn [users]. rewrite !lookup_alter_eq.
  destruct (users (Http.db st) !! userId) as [[r d e]|]; [|discriminate].
  cbn in *. injection Hbal as <-. f_equal; lia.
Qed.

(** Account 1 holds 1000 and asks twice for all of it. *)
Lemma overlapping_withdrawals_both_pass_witness :
  select_bal real_balance 1 (Http.db store1) = Some 1000
  /\ select_bal real_balance 1
       (Http.db (Http.withdraw_resume 1 1000 None (Some 1000)
                   (Http.withdraw_resume 1 1000 None (Some 1000) store1).1).1)
     = Some (-1000).
Proof.
  assert (H : select_bal real_balance 1 (Http.db store1) = Some 1000)
    by (vm_compute; reflexivity).
  split; [exact H|].
  destruct (overlapping_withdrawals_both_pass 1 1000 1000 None None store1 1000 H
              ltac:(lia) ltac:(lia)) as (_ & _ & Hb).
  exact Hb.
Defined.
